(** * pymap-copy: a shallow embedding of [pymap-copy.py]

    The script is a one-shot IMAP mailbox replicator.  It is embedded here
    as a program in a small state-and-exception monad: the module-level
    variables of the script ([stats], [db], the delimiters, the redirection
    table) form the state, every IMAP command issued through the client
    library is recorded in a trace and answered by an environment, and the
    Python control flow ([continue], [break], exceptions, [finally],
    [exit()]) is kept as it is written. *)

From Stdlib Require Import String Ascii List ZArith NArith Bool Lia Permutation Sorted.
Import ListNotations.
Open Scope string_scope.
Open Scope Z_scope.

Set Implicit Arguments.

(* ================================================================= *)
(** ** Python values used by the script *)

Module Py.

(** [bytes.lower()] / [str.lower()] on ASCII text: only [A-Z] change. *)
Definition lower_ascii (c : ascii) : ascii :=
  let n := nat_of_ascii c in
  if (Nat.leb 65 n && Nat.leb n 90)%bool then ascii_of_nat (n + 32) else c.

Fixpoint lower (s : string) : string :=
  match s with
  | EmptyString => EmptyString
  | String c s' => String (lower_ascii c) (lower s')
  end.

(** [s.startswith(p)] *)
Fixpoint startswith (s p : string) {struct p} : bool :=
  match p with
  | EmptyString => true
  | String b p' =>
      match s with
      | EmptyString => false
      | String a s' => (Ascii.eqb a b && startswith s' p')%bool
      end
  end.

(** [sub in s] on [str] / [bytes] *)
Fixpoint contains (s sub : string) : bool :=
  (startswith s sub ||
   match s with
   | EmptyString => false
   | String _ s' => contains s' sub
   end)%bool.

Fixpoint last_char (s : string) : option ascii :=
  match s with
  | EmptyString => None
  | String c EmptyString => Some c
  | String _ s' => last_char s'
  end.

(** [s.endswith(c)] for a one-character suffix, as in [endswith('*')] *)
Definition endswith_char (s : string) (c : ascii) : bool :=
  match last_char s with
  | Some d => Ascii.eqb d c
  | None => false
  end.

(** [s[:-1]] *)
Fixpoint drop_last (s : string) : string :=
  match s with
  | EmptyString => EmptyString
  | String _ EmptyString => EmptyString
  | String c s' => String c (drop_last s')
  end.

(** [s.replace(old, new)] with [old] empty: [new] goes before every
    character and at the end. *)
Fixpoint interleave (new s : string) : string :=
  match s with
  | EmptyString => new
  | String c s' => new ++ String c (interleave new s')
  end.

(** Left-to-right, non-overlapping replacement; [skip] counts the
    characters of the occurrence just replaced that are still to drop. *)
Fixpoint replace_from (old new s : string) (skip : nat) : string :=
  match s with
  | EmptyString => EmptyString
  | String c s' =>
      match skip with
      | S k => replace_from old new s' k
      | O =>
          if startswith s old
          then new ++ replace_from old new s' (String.length old - 1)
          else String c (replace_from old new s' 0)
      end
  end.

(** [s.replace(old, new)] *)
Definition replace (s old new : string) : string :=
  match old with
  | EmptyString => interleave new s
  | _ => replace_from old new s 0
  end.

(** [s.split(c)] for a one-character separator. *)
Fixpoint split (c : ascii) (s : string) : list string :=
  match s with
  | EmptyString => [EmptyString]
  | String a s' =>
      let r := split c s' in
      if Ascii.eqb a c then EmptyString :: r
      else match r with
           | [] => [String a EmptyString]
           | h :: t => String a h :: t
           end
  end.

(** [a, b = s.split(c, 1)]: [None] is the [ValueError] of the unpacking
    when [c] does not occur. *)
Fixpoint split_once (c : ascii) (s : string) : option (string * string) :=
  match s with
  | EmptyString => None
  | String a s' =>
      if Ascii.eqb a c then Some (EmptyString, s')
      else match split_once c s' with
           | Some (h, t) => Some (String a h, t)
           | None => None
           end
  end.

(** [l[:n]] and [del l[:n]] on lists; [None] is a missing bound. *)
Definition slice_stop {A} (n : option Z) (l : list A) : nat :=
  match n with
  | None => List.length l
  | Some z =>
      if z <? 0 then Z.to_nat (Z.max 0 (Z.of_nat (List.length l) + z))
      else Z.to_nat z
  end.

Definition take {A} (n : option Z) (l : list A) : list A :=
  firstn (slice_stop n l) l.

Definition drop {A} (n : option Z) (l : list A) : list A :=
  skipn (slice_stop n l) l.

(** [bytes.decode()] (UTF-8, strict).  Text is kept as its UTF-8 bytes, so
    decoding is the identity on well-formed input and fails otherwise. *)
Fixpoint utf8_valid_from (s : string) (need : nat) (lo hi : N) : bool :=
  match s with
  | EmptyString => Nat.eqb need 0
  | String c s' =>
      let b := N_of_ascii c in
      match need with
      | O =>
          if (b <=? 127)%N then utf8_valid_from s' 0 128 191
          else if ((194 <=? b) && (b <=? 223))%N then utf8_valid_from s' 1 128 191
          else if (b =? 224)%N then utf8_valid_from s' 2 160 191
          else if ((225 <=? b) && (b <=? 236))%N then utf8_valid_from s' 2 128 191
          else if (b =? 237)%N then utf8_valid_from s' 2 128 159
          else if ((238 <=? b) && (b <=? 239))%N then utf8_valid_from s' 2 128 191
          else if (b =? 240)%N then utf8_valid_from s' 3 144 191
          else if ((241 <=? b) && (b <=? 243))%N then utf8_valid_from s' 3 128 191
          else if (b =? 244)%N then utf8_valid_from s' 3 128 143
          else false
      | S k =>
          if ((lo <=? b) && (b <=? hi))%N then utf8_valid_from s' k 128 191
          else false
      end
  end.

Definition decode (b : string) : option string :=
  if utf8_valid_from b 0 128 191 then Some b else None.

Definition mem_string (x : string) (l : list string) : bool :=
  existsb (String.eqb x) l.

End Py.

(** A Python [dict]: insertion-ordered, assignment to an existing key keeps
    its position. *)
Module Dict.
Section WithKey.
Variables (K V : Type) (keq : K -> K -> bool).

Definition t := list (K * V).

Fixpoint get (k : K) (d : t) : option V :=
  match d with
  | [] => None
  | (k', v) :: d' => if keq k' k then Some v else get k d'
  end.

Fixpoint set (k : K) (v : V) (d : t) : t :=
  match d with
  | [] => [(k, v)]
  | (k', v') :: d' =>
      if keq k' k then (k', v) :: d' else (k', v') :: set k v d'
  end.

Definition mem (k : K) (d : t) : bool :=
  match get k d with Some _ => true | None => false end.

Definition keys (d : t) : list K := map fst d.
Definition values (d : t) : list V := map snd d.

(** [d[k] = f(d[k])] for a key known to be present. *)
Fixpoint update (k : K) (f : V -> V) (d : t) : t :=
  match d with
  | [] => []
  | (k', v) :: d' =>
      if keq k' k then (k', f v) :: d' else (k', v) :: update k f d'
  end.
End WithKey.
End Dict.

Abbreviation sdict V := (Dict.t string V).
Abbreviation sget := (@Dict.get string _ String.eqb).
Abbreviation sset := (@Dict.set string _ String.eqb).
Abbreviation smem := (@Dict.mem string _ String.eqb).
Abbreviation supdate := (@Dict.update string _ String.eqb).
Abbreviation zget := (@Dict.get Z _ Z.eqb).
Abbreviation zset := (@Dict.set Z _ Z.eqb).

(* ================================================================= *)
(** ** Command line *)

(** The namespace built by [parser.parse_args()].  Options declared with
    [type=int] and no default are [None] when absent. *)
Record Args := {
  dry_run : bool;
  list_mode : bool;                      (* --list *)
  incremental : bool;
  abort_on_error : bool;
  buffer_size : option Z;
  denied_flags_arg : option string;      (* --denied-flags *)
  redirect : option (list string);
  ignore_quota : bool;
  ignore_folder_flags : bool;
  max_line_length : option Z;
  max_mail_size : option Z;
  skip_empty_folders : bool;
  ssl_no_verify : bool;
  source_user : string;
  source_pass : string;
  source_server : string;
  source_encryption : string;
  source_port : Z;
  source_root : string;
  source_mailbox : list string;
  destination_user : string;
  destination_pass : string;
  destination_server : string;
  destination_encryption : string;
  destination_port : Z;
  destination_root : string;
  destination_root_merge : bool;
  destination_no_subscribe : bool
}.

(** Field updates of the namespace. *)
Definition set_source_port v (a : Args) : Args :=
  {| dry_run := dry_run a; list_mode := list_mode a;
     incremental := incremental a; abort_on_error := abort_on_error a;
     buffer_size := buffer_size a; denied_flags_arg := denied_flags_arg a;
     redirect := redirect a; ignore_quota := ignore_quota a;
     ignore_folder_flags := ignore_folder_flags a;
     max_line_length := max_line_length a; max_mail_size := max_mail_size a;
     skip_empty_folders := skip_empty_folders a;
     ssl_no_verify := ssl_no_verify a; source_user := source_user a;
     source_pass := source_pass a; source_server := source_server a;
     source_encryption := source_encryption a; source_port := v;
     source_root := source_root a; source_mailbox := source_mailbox a;
     destination_user := destination_user a;
     destination_pass := destination_pass a;
     destination_server := destination_server a;
     destination_encryption := destination_encryption a;
     destination_port := destination_port a;
     destination_root := destination_root a;
     destination_root_merge := destination_root_merge a;
     destination_no_subscribe := destination_no_subscribe a |}.

Definition set_destination_port v (a : Args) : Args :=
  {| dry_run := dry_run a; list_mode := list_mode a;
     incremental := incremental a; abort_on_error := abort_on_error a;
     buffer_size := buffer_size a; denied_flags_arg := denied_flags_arg a;
     redirect := redirect a; ignore_quota := ignore_quota a;
     ignore_folder_flags := ignore_folder_flags a;
     max_line_length := max_line_length a; max_mail_size := max_mail_size a;
     skip_empty_folders := skip_empty_folders a;
     ssl_no_verify := ssl_no_verify a; source_user := source_user a;
     source_pass := source_pass a; source_server := source_server a;
     source_encryption := source_encryption a; source_port := source_port a;
     source_root := source_root a; source_mailbox := source_mailbox a;
     destination_user := destination_user a;
     destination_pass := destination_pass a;
     destination_server := destination_server a;
     destination_encryption := destination_encryption a;
     destination_port := v; destination_root := destination_root a;
     destination_root_merge := destination_root_merge a;
     destination_no_subscribe := destination_no_subscribe a |}.

Definition set_max_mail_size v (a : Args) : Args :=
  {| dry_run := dry_run a; list_mode := list_mode a;
     incremental := incremental a; abort_on_error := abort_on_error a;
     buffer_size := buffer_size a; denied_flags_arg := denied_flags_arg a;
     redirect := redirect a; ignore_quota := ignore_quota a;
     ignore_folder_flags := ignore_folder_flags a;
     max_line_length := max_line_length a; max_mail_size := v;
     skip_empty_folders := skip_empty_folders a;
     ssl_no_verify := ssl_no_verify a; source_user := source_user a;
     source_pass := source_pass a; source_server := source_server a;
     source_encryption := source_encryption a; source_port := source_port a;
     source_root := source_root a; source_mailbox := source_mailbox a;
     destination_user := destination_user a;
     destination_pass := destination_pass a;
     destination_server := destination_server a;
     destination_encryption := destination_encryption a;
     destination_port := destination_port a;
     destination_root := destination_root a;
     destination_root_merge := destination_root_merge a;
     destination_no_subscribe := destination_no_subscribe a |}.

Definition set_list_mode v (a : Args) : Args :=
  {| dry_run := dry_run a; list_mode := v; incremental := incremental a;
     abort_on_error := abort_on_error a; buffer_size := buffer_size a;
     denied_flags_arg := denied_flags_arg a; redirect := redirect a;
     ignore_quota := ignore_quota a;
     ignore_folder_flags := ignore_folder_flags a;
     max_line_length := max_line_length a; max_mail_size := max_mail_size a;
     skip_empty_folders := skip_empty_folders a;
     ssl_no_verify := ssl_no_verify a; source_user := source_user a;
     source_pass := source_pass a; source_server := source_server a;
     source_encryption := source_encryption a; source_port := source_port a;
     source_root := source_root a; source_mailbox := source_mailbox a;
     destination_user := destination_user a;
     destination_pass := destination_pass a;
     destination_server := destination_server a;
     destination_encryption := destination_encryption a;
     destination_port := destination_port a;
     destination_root := destination_root a;
     destination_root_merge := destination_root_merge a;
     destination_no_subscribe := destination_no_subscribe a |}.

Definition set_denied_flags_arg v (a : Args) : Args :=
  {| dry_run := dry_run a; list_mode := list_mode a;
     incremental := incremental a; abort_on_error := abort_on_error a;
     buffer_size := buffer_size a; denied_flags_arg := v;
     redirect := redirect a; ignore_quota := ignore_quota a;
     ignore_folder_flags := ignore_folder_flags a;
     max_line_length := max_line_length a; max_mail_size := max_mail_size a;
     skip_empty_folders := skip_empty_folders a;
     ssl_no_verify := ssl_no_verify a; source_user := source_user a;
     source_pass := source_pass a; source_server := source_server a;
     source_encryption := source_encryption a; source_port := source_port a;
     source_root := source_root a; source_mailbox := source_mailbox a;
     destination_user := destination_user a;
     destination_pass := destination_pass a;
     destination_server := destination_server a;
     destination_encryption := destination_encryption a;
     destination_port := destination_port a;
     destination_root := destination_root a;
     destination_root_merge := destination_root_merge a;
     destination_no_subscribe := destination_no_subscribe a |}.

Definition set_redirect v (a : Args) : Args :=
  {| dry_run := dry_run a; list_mode := list_mode a;
     incremental := incremental a; abort_on_error := abort_on_error a;
     buffer_size := buffer_size a; denied_flags_arg := denied_flags_arg a;
     redirect := v; ignore_quota := ignore_quota a;
     ignore_folder_flags := ignore_folder_flags a;
     max_line_length := max_line_length a; max_mail_size := max_mail_size a;
     skip_empty_folders := skip_empty_folders a;
     ssl_no_verify := ssl_no_verify a; source_user := source_user a;
     source_pass := source_pass a; source_server := source_server a;
     source_encryption := source_encryption a; source_port := source_port a;
     source_root := source_root a; source_mailbox := source_mailbox a;
     destination_user := destination_user a;
     destination_pass := destination_pass a;
     destination_server := destination_server a;
     destination_encryption := destination_encryption a;
     destination_port := destination_port a;
     destination_root := destination_root a;
     destination_root_merge := destination_root_merge a;
     destination_no_subscribe := destination_no_subscribe a |}.

Definition set_ignore_quota v (a : Args) : Args :=
  {| dry_run := dry_run a; list_mode := list_mode a;
     incremental := incremental a; abort_on_error := abort_on_error a;
     buffer_size := buffer_size a; denied_flags_arg := denied_flags_arg a;
     redirect := redirect a; ignore_quota := v;
     ignore_folder_flags := ignore_folder_flags a;
     max_line_length := max_line_length a; max_mail_size := max_mail_size a;
     skip_empty_folders := skip_empty_folders a;
     ssl_no_verify := ssl_no_verify a; source_user := source_user a;
     source_pass := source_pass a; source_server := source_server a;
     source_encryption := source_encryption a; source_port := source_port a;
     source_root := source_root a; source_mailbox := source_mailbox a;
     destination_user := destination_user a;
     destination_pass := destination_pass a;
     destination_server := destination_server a;
     destination_encryption := destination_encryption a;
     destination_port := destination_port a;
     destination_root := destination_root a;
     destination_root_merge := destination_root_merge a;
     destination_no_subscribe := destination_no_subscribe a |}.

Definition set_abort_on_error v (a : Args) : Args :=
  {| dry_run := dry_run a; list_mode := list_mode a;
     incremental := incremental a; abort_on_error := v;
     buffer_size := buffer_size a; denied_flags_arg := denied_flags_arg a;
     redirect := redirect a; ignore_quota := ignore_quota a;
     ignore_folder_flags := ignore_folder_flags a;
     max_line_length := max_line_length a; max_mail_size := max_mail_size a;
     skip_empty_folders := skip_empty_folders a;
     ssl_no_verify := ssl_no_verify a; source_user := source_user a;
     source_pass := source_pass a; source_server := source_server a;
     source_encryption := source_encryption a; source_port := source_port a;
     source_root := source_root a; source_mailbox := source_mailbox a;
     destination_user := destination_user a;
     destination_pass := destination_pass a;
     destination_server := destination_server a;
     destination_encryption := destination_encryption a;
     destination_port := destination_port a;
     destination_root := destination_root a;
     destination_root_merge := destination_root_merge a;
     destination_no_subscribe := destination_no_subscribe a |}.

Definition set_dry_run v (a : Args) : Args :=
  {| dry_run := v; list_mode := list_mode a; incremental := incremental a;
     abort_on_error := abort_on_error a; buffer_size := buffer_size a;
     denied_flags_arg := denied_flags_arg a; redirect := redirect a;
     ignore_quota := ignore_quota a;
     ignore_folder_flags := ignore_folder_flags a;
     max_line_length := max_line_length a; max_mail_size := max_mail_size a;
     skip_empty_folders := skip_empty_folders a;
     ssl_no_verify := ssl_no_verify a; source_user := source_user a;
     source_pass := source_pass a; source_server := source_server a;
     source_encryption := source_encryption a; source_port := source_port a;
     source_root := source_root a; source_mailbox := source_mailbox a;
     destination_user := destination_user a;
     destination_pass := destination_pass a;
     destination_server := destination_server a;
     destination_encryption := destination_encryption a;
     destination_port := destination_port a;
     destination_root := destination_root a;
     destination_root_merge := destination_root_merge a;
     destination_no_subscribe := destination_no_subscribe a |}.

Definition set_buffer_size v (a : Args) : Args :=
  {| dry_run := dry_run a; list_mode := list_mode a;
     incremental := incremental a; abort_on_error := abort_on_error a;
     buffer_size := v; denied_flags_arg := denied_flags_arg a;
     redirect := redirect a; ignore_quota := ignore_quota a;
     ignore_folder_flags := ignore_folder_flags a;
     max_line_length := max_line_length a; max_mail_size := max_mail_size a;
     skip_empty_folders := skip_empty_folders a;
     ssl_no_verify := ssl_no_verify a; source_user := source_user a;
     source_pass := source_pass a; source_server := source_server a;
     source_encryption := source_encryption a; source_port := source_port a;
     source_root := source_root a; source_mailbox := source_mailbox a;
     destination_user := destination_user a;
     destination_pass := destination_pass a;
     destination_server := destination_server a;
     destination_encryption := destination_encryption a;
     destination_port := destination_port a;
     destination_root := destination_root a;
     destination_root_merge := destination_root_merge a;
     destination_no_subscribe := destination_no_subscribe a |}.

(** [check_encryption]: [None] is the [ArgumentTypeError]. *)
Definition check_encryption (value : string) : option string :=
  let value := Py.lower value in
  if Py.mem_string value ["ssl"; "tls"; "starttls"; "none"]
  then Some value else None.

Definition default_port (encryption : string) : Z :=
  if Py.mem_string encryption ["starttls"; "none"] then 143 else 993.

(** The long option strings given to [parser.add_argument], in order. *)
Definition option_strings : list string :=
  ["--dry-run"; "--list"; "--incremental"; "--abort-on-error";
   "--buffer-size"; "--denied-flags"; "--redirect"; "--ignore-quota";
   "--ignore-folder-flags"; "--max-line-length"; "--max-mail-size";
   "--no-colors"; "--skip-empty-folders"; "--ssl-no-verify";
   "--source-user"; "--source-pass"; "--source-server";
   "--source-encryption"; "--source-port"; "--source-root";
   "--source-mailbox";
   "--destination-user"; "--destination-pass"; "--destination-server";
   "--destination-encryption"; "--destination-port"; "--destination-root";
   "--destination-root-merge"; "--destination-no-subscribe"].

(** argparse derives the attribute name from the first long option string:
    the leading [--] is stripped and every [-] becomes [_]. *)
Definition dest_of_option (o : string) : string :=
  Py.replace (String.substring 2 (String.length o - 2) o) "-" "_".

(** The attribute names of the namespace; every declared option has one,
    given or not. *)
Definition namespace_keys : list string := map dest_of_option option_strings.

(** [key in args]: [Namespace.__contains__] looks the key up among the
    attribute names. *)
Definition namespace_contains (key : string) : bool :=
  Py.mem_string key namespace_keys.

(** Lines 141-145: the port defaulting. *)
Definition apply_default_ports (a : Args) : Args :=
  let a :=
    if negb (namespace_contains "source-port")
    then set_source_port (default_port (source_encryption a)) a else a in
  if negb (namespace_contains "destination-port")
  then set_destination_port (default_port (destination_encryption a)) a
  else a.

(** Lines 148-149 and 179-180. *)
Definition SPECIAL_FOLDER_FLAGS : list string :=
  ["\Archive"; "\Junk"; "\Drafts"; "\Trash"; "\Sent"].

Definition denied_flags (a : Args) : list string :=
  ["\recent"] ++
  match denied_flags_arg a with
  | None => []
  | Some EmptyString => []
  | Some s => map (fun flag => "\" ++ flag) (Py.split "," (Py.lower s))
  end.

(** The flags handed to APPEND (lines 578-579). *)
Definition append_flags (denied : list string) (flags : list string)
  : list string :=
  filter (fun flag => negb (Py.mem_string (Py.lower flag) denied)) flags.

(* ================================================================= *)
(** ** Data exchanged with the IMAP client library *)

Inductive side := Source | Destination.

(** [Quota] tuples as returned by [get_quota()]. *)
Record Quota := { quota_root : string; resource : string; usage : Z; limit : Z }.

Record Envelope := { subject : option string; message_id : option string }.

(** One row of [fetch(..., ['RFC822.SIZE', 'ENVELOPE'])]; a key the server
    left out is [None]. *)
Record MetaData := { md_size : option Z; md_envelope : option Envelope }.

(** One row of [fetch(..., ['FLAGS', 'RFC822', 'INTERNALDATE'])]. *)
Record FullData := {
  fd_flags : option (list string);
  fd_rfc822 : option string;
  fd_internaldate : option Z
}.

(** One entry of [list_folders()]: flags, delimiter (NIL is [None]), name. *)
Definition FolderRow : Type := (list string * option string * string)%type.

(** What an IMAP call can raise. *)
Inductive failure :=
| ImapError (msg : string)           (* exceptions.IMAPClientError *)
| OtherError (cls msg : string)      (* socket, ssl, ... : other Exception *)
| Interrupt.                         (* KeyboardInterrupt during the call *)

Inductive reply (A : Type) :=
| Ok (a : A)
| Fail (f : failure).
Arguments Fail {A} f.

Inductive exit_point := ExitLogin | ExitQuota | ExitList | ExitNotFound.

Inductive pykey := KInt (z : Z) | KBytes (b : string).

Inductive exn :=
| SystemExit (p : exit_point)        (* exit(), no argument *)
| KeyboardInterrupt
| IMAPClientError (msg : string)
| OtherException (cls msg : string)
| KeyError (k : pykey)
| TypeError
| ZeroDivisionError
| IndexError
| NameError (name : string)
| AttributeError
| UnicodeDecodeError.

Definition exn_of_failure (f : failure) : exn :=
  match f with
  | ImapError m => IMAPClientError m
  | OtherError c m => OtherException c m
  | Interrupt => KeyboardInterrupt
  end.

(** [except Exception] *)
Definition is_Exception (e : exn) : bool :=
  match e with
  | SystemExit _ | KeyboardInterrupt => false
  | _ => true
  end.

(** Values of mixed type stored in an error record. *)
Inductive pyval := VStr (s : string) | VInt (z : Z) | VDate (d : Z).

(** What is written to the terminal, as far as the properties need it. *)
Inductive output :=
| OutAbortLogin
| OutInsufficientQuota (source_usage destination_free : Z)
| OutQuotaIgnoring
| OutAbort
| OutListing (s : side) (rows : list (string * nat * Z))
| OutNotFound (names : list string)
| OutError (e : exn)
| OutFinish
| OutReport.

(** The IMAP commands sent, and the output, in order. *)
Inductive event :=
| EConnect (s : side) (host : string) (port : Z) (use_ssl no_verify : bool)
| EStartTLS (s : side)
| ELogin (s : side) (user password : string)
| EHasCapability (s : side) (cap : string)
| EGetQuota (s : side)
| EListFolders (s : side) (root : string)
| ESelect (s : side) (folder : string)
| ESearch (s : side)
| EFetchMeta (s : side) (uids : list Z) (items : list string)
| EFetchFull (uids : list Z)
| EIdle (s : side)
| EIdleDone (s : side)
| ECreate (folder : string)
| ESubscribe (folder : string)
| EAppend (folder msg : string) (flags : list string) (msg_time : Z)
| ELogout (s : side)
| EPrint (o : output).

(** The two servers and the missing [utils] module.  Every answer may
    depend on everything sent so far. *)
Record World := {
  w_connect : list event -> side -> reply unit;
  w_starttls : list event -> side -> reply unit;
  w_login : list event -> side -> string -> string -> reply unit;
  w_has_capability : list event -> side -> string -> reply bool;
  w_get_quota : list event -> side -> reply (list Quota);
  w_list_folders : list event -> side -> string -> reply (list FolderRow);
  w_select : list event -> side -> string -> reply unit;
  w_search : list event -> side -> reply (list Z);
  w_fetch_meta : list event -> side -> list Z -> reply (list (Z * MetaData));
  w_fetch_full : list event -> list Z -> reply (list (Z * FullData));
  w_idle : list event -> side -> reply unit;
  w_idle_done : list event -> side -> reply unit;
  w_create : list event -> string -> reply unit;
  w_subscribe : list event -> string -> reply unit;
  w_append :
    list event -> string -> string -> list string -> Z -> reply string;
  w_logout : list event -> side -> reply unit;
  decode_mime : string -> string;      (* utils.decode_mime *)
  beautysized : Z -> string            (* utils.beautysized *)
}.

(* ================================================================= *)
(** ** The script's module-level state *)

Inductive decoded_id := IdText (s : string) | IdDecodeFailure (e : exn).

Record ErrorRecord := {
  err_size : pyval;
  err_subject : string;
  err_exception : exn;
  err_folder : string;
  err_date : pyval;
  err_id : decoded_id
}.

Record SkippedFolders := {
  skf_already_exists : nat;
  skf_empty : nat;
  skf_dry_run : nat;
  skf_by_mailbox : nat
}.

Record SkippedMails := {
  skm_already_exists : nat;
  skm_zero_size : nat;
  skm_max_size : nat;
  skm_max_line_length : nat;
  skm_no_envelope : nat
}.

Record Stats := {
  source_mails : nat;
  destination_mails : nat;
  processed : nat;
  errors : list ErrorRecord;
  skipped_folders : SkippedFolders;
  skipped_mails : SkippedMails;
  copied_mails : nat;
  copied_folders : nat
}.

Record SourceMail := { sm_size : Z; sm_subject : string; sm_msg_id : option string }.

Record SourceFolder := {
  sf_flags : list string;
  sf_mails : Dict.t Z SourceMail;
  sf_size : Z;
  sf_buffer : list (list Z)
}.

(** The ['msg_id'] key of a destination entry exists only when it was
    stored, that is in incremental mode. *)
Record DestMail := { dm_size : Z; dm_msg_id : option (option string) }.

Record DestFolder := {
  df_flags : list string;
  df_mails : Dict.t Z DestMail;
  df_size : Z
}.

Record Mem := {
  stats : Stats;
  db_source : sdict SourceFolder;
  db_destination : sdict DestFolder;
  source_delimiter : option string;
  destination_delimiter : option string;
  redirections : sdict string;
  not_found : list string
}.

Record State := { mem : Mem; trace : list event }.

Definition stats0 : Stats :=
  {| source_mails := 0; destination_mails := 0; processed := 0; errors := [];
     skipped_folders := {| skf_already_exists := 0; skf_empty := 0;
                           skf_dry_run := 0; skf_by_mailbox := 0 |};
     skipped_mails := {| skm_already_exists := 0; skm_zero_size := 0;
                         skm_max_size := 0; skm_max_line_length := 0;
                         skm_no_envelope := 0 |};
     copied_mails := 0; copied_folders := 0 |}.

Definition mem0 : Mem :=
  {| stats := stats0; db_source := []; db_destination := [];
     source_delimiter := None; destination_delimiter := None;
     redirections := []; not_found := [] |}.

Definition state0 : State := {| mem := mem0; trace := [] |}.

(** *** Field updates *)

Definition with_stats (f : Stats -> Stats) (m : Mem) : Mem :=
  {| stats := f (stats m); db_source := db_source m;
     db_destination := db_destination m;
     source_delimiter := source_delimiter m;
     destination_delimiter := destination_delimiter m;
     redirections := redirections m; not_found := not_found m |}.

Definition with_db_source (f : sdict SourceFolder -> sdict SourceFolder)
  (m : Mem) : Mem :=
  {| stats := stats m; db_source := f (db_source m);
     db_destination := db_destination m;
     source_delimiter := source_delimiter m;
     destination_delimiter := destination_delimiter m;
     redirections := redirections m; not_found := not_found m |}.

Definition with_db_destination (f : sdict DestFolder -> sdict DestFolder)
  (m : Mem) : Mem :=
  {| stats := stats m; db_source := db_source m;
     db_destination := f (db_destination m);
     source_delimiter := source_delimiter m;
     destination_delimiter := destination_delimiter m;
     redirections := redirections m; not_found := not_found m |}.

Definition set_source_delimiter (d : option string) (m : Mem) : Mem :=
  {| stats := stats m; db_source := db_source m;
     db_destination := db_destination m;
     source_delimiter := d;
     destination_delimiter := destination_delimiter m;
     redirections := redirections m; not_found := not_found m |}.

Definition set_destination_delimiter (d : option string) (m : Mem) : Mem :=
  {| stats := stats m; db_source := db_source m;
     db_destination := db_destination m;
     source_delimiter := source_delimiter m;
     destination_delimiter := d;
     redirections := redirections m; not_found := not_found m |}.

Definition with_redirections (f : sdict string -> sdict string) (m : Mem)
  : Mem :=
  {| stats := stats m; db_source := db_source m;
     db_destination := db_destination m;
     source_delimiter := source_delimiter m;
     destination_delimiter := destination_delimiter m;
     redirections := f (redirections m); not_found := not_found m |}.

Definition with_not_found (f : list string -> list string) (m : Mem) : Mem :=
  {| stats := stats m; db_source := db_source m;
     db_destination := db_destination m;
     source_delimiter := source_delimiter m;
     destination_delimiter := destination_delimiter m;
     redirections := redirections m; not_found := f (not_found m) |}.

Definition with_skipped_mails (f : SkippedMails -> SkippedMails) (s : Stats)
  : Stats :=
  {| source_mails := source_mails s; destination_mails := destination_mails s;
     processed := processed s; errors := errors s;
     skipped_folders := skipped_folders s;
     skipped_mails := f (skipped_mails s);
     copied_mails := copied_mails s; copied_folders := copied_folders s |}.

Definition with_skipped_folders (f : SkippedFolders -> SkippedFolders)
  (s : Stats) : Stats :=
  {| source_mails := source_mails s; destination_mails := destination_mails s;
     processed := processed s; errors := errors s;
     skipped_folders := f (skipped_folders s);
     skipped_mails := skipped_mails s;
     copied_mails := copied_mails s; copied_folders := copied_folders s |}.

Definition incr_source_mails (s : Stats) : Stats :=
  {| source_mails := S (source_mails s);
     destination_mails := destination_mails s;
     processed := processed s; errors := errors s;
     skipped_folders := skipped_folders s; skipped_mails := skipped_mails s;
     copied_mails := copied_mails s; copied_folders := copied_folders s |}.

Definition incr_destination_mails (s : Stats) : Stats :=
  {| source_mails := source_mails s;
     destination_mails := S (destination_mails s);
     processed := processed s; errors := errors s;
     skipped_folders := skipped_folders s; skipped_mails := skipped_mails s;
     copied_mails := copied_mails s; copied_folders := copied_folders s |}.

Definition incr_processed (s : Stats) : Stats :=
  {| source_mails := source_mails s; destination_mails := destination_mails s;
     processed := S (processed s); errors := errors s;
     skipped_folders := skipped_folders s; skipped_mails := skipped_mails s;
     copied_mails := copied_mails s; copied_folders := copied_folders s |}.

Definition incr_copied_mails (s : Stats) : Stats :=
  {| source_mails := source_mails s; destination_mails := destination_mails s;
     processed := processed s; errors := errors s;
     skipped_folders := skipped_folders s; skipped_mails := skipped_mails s;
     copied_mails := S (copied_mails s); copied_folders := copied_folders s |}.

Definition incr_copied_folders (s : Stats) : Stats :=
  {| source_mails := source_mails s; destination_mails := destination_mails s;
     processed := processed s; errors := errors s;
     skipped_folders := skipped_folders s; skipped_mails := skipped_mails s;
     copied_mails := copied_mails s; copied_folders := S (copied_folders s) |}.

Definition append_error (r : ErrorRecord) (s : Stats) : Stats :=
  {| source_mails := source_mails s; destination_mails := destination_mails s;
     processed := processed s; errors := errors s ++ [r];
     skipped_folders := skipped_folders s; skipped_mails := skipped_mails s;
     copied_mails := copied_mails s; copied_folders := copied_folders s |}.

Definition incr_skm_already_exists (k : SkippedMails) : SkippedMails :=
  {| skm_already_exists := S (skm_already_exists k);
     skm_zero_size := skm_zero_size k; skm_max_size := skm_max_size k;
     skm_max_line_length := skm_max_line_length k;
     skm_no_envelope := skm_no_envelope k |}.

Definition incr_skm_zero_size (k : SkippedMails) : SkippedMails :=
  {| skm_already_exists := skm_already_exists k;
     skm_zero_size := S (skm_zero_size k); skm_max_size := skm_max_size k;
     skm_max_line_length := skm_max_line_length k;
     skm_no_envelope := skm_no_envelope k |}.

Definition incr_skm_max_size (k : SkippedMails) : SkippedMails :=
  {| skm_already_exists := skm_already_exists k;
     skm_zero_size := skm_zero_size k; skm_max_size := S (skm_max_size k);
     skm_max_line_length := skm_max_line_length k;
     skm_no_envelope := skm_no_envelope k |}.

Definition incr_skm_max_line_length (k : SkippedMails) : SkippedMails :=
  {| skm_already_exists := skm_already_exists k;
     skm_zero_size := skm_zero_size k; skm_max_size := skm_max_size k;
     skm_max_line_length := S (skm_max_line_length k);
     skm_no_envelope := skm_no_envelope k |}.

Definition incr_skm_no_envelope (k : SkippedMails) : SkippedMails :=
  {| skm_already_exists := skm_already_exists k;
     skm_zero_size := skm_zero_size k; skm_max_size := skm_max_size k;
     skm_max_line_length := skm_max_line_length k;
     skm_no_envelope := S (skm_no_envelope k) |}.

Definition incr_skf_already_exists (k : SkippedFolders) : SkippedFolders :=
  {| skf_already_exists := S (skf_already_exists k); skf_empty := skf_empty k;
     skf_dry_run := skf_dry_run k; skf_by_mailbox := skf_by_mailbox k |}.

Definition incr_skf_empty (k : SkippedFolders) : SkippedFolders :=
  {| skf_already_exists := skf_already_exists k; skf_empty := S (skf_empty k);
     skf_dry_run := skf_dry_run k; skf_by_mailbox := skf_by_mailbox k |}.

Definition incr_skf_by_mailbox (k : SkippedFolders) : SkippedFolders :=
  {| skf_already_exists := skf_already_exists k; skf_empty := skf_empty k;
     skf_dry_run := skf_dry_run k; skf_by_mailbox := S (skf_by_mailbox k) |}.

(* ================================================================= *)
(** ** The monad: state, exceptions and loop control *)

Inductive res (A : Type) :=
| Normal (a : A)
| Raise (e : exn)
| Continue
| Break
| Diverge.
Arguments Raise {A} e.
Arguments Continue {A}.
Arguments Break {A}.
Arguments Diverge {A}.

Definition M (A : Type) : Type := State -> res A * State.

Definition ret {A} (a : A) : M A := fun st => (Normal a, st).

Definition bind {A B} (m : M A) (k : A -> M B) : M B :=
  fun st =>
    match m st with
    | (Normal a, st') => k a st'
    | (Raise e, st') => (Raise e, st')
    | (Continue, st') => (Continue, st')
    | (Break, st') => (Break, st')
    | (Diverge, st') => (Diverge, st')
    end.

Declare Scope py_scope.
Delimit Scope py_scope with py.
Notation "x <- m ;; k" := (bind m (fun x => k))
  (at level 61, m at next level, right associativity) : py_scope.
Notation "m ;; k" := (bind m (fun _ => k))
  (at level 61, right associativity) : py_scope.
Open Scope py_scope.

Definition raise {A} (e : exn) : M A := fun st => (Raise e, st).
Definition continue {A} : M A := fun st => (Continue, st).
Definition diverge {A} : M A := fun st => (Diverge, st).

Definition gets {A} (f : Mem -> A) : M A := fun st => (Normal (f (mem st)), st).

Definition modify (f : Mem -> Mem) : M unit :=
  fun st => (Normal tt, {| mem := f (mem st); trace := trace st |}).

Definition emit (e : event) : M unit :=
  fun st => (Normal tt, {| mem := mem st; trace := trace st ++ [e] |}).

Definition print (o : output) : M unit := emit (EPrint o).

(** An IMAP call: the command is sent, then answered from what was sent
    before it. *)
Definition call {A} (e : event) (answer : list event -> reply A) : M A :=
  fun st =>
    let st' := {| mem := mem st; trace := trace st ++ [e] |} in
    match answer (trace st) with
    | Ok a => (Normal a, st')
    | Fail f => (Raise (exn_of_failure f), st')
    end.

(** [exit()] raises [SystemExit]; the tag records the call site. *)
Definition exit {A} (p : exit_point) : M A := raise (SystemExit p).

(** [try: m  except <sel> as e: h e]; [sel] says which exceptions the
    clause takes. *)
Definition try_except {A} (m : M A) (sel : exn -> bool) (h : exn -> M A)
  : M A :=
  fun st =>
    match m st with
    | (Raise e, st') => if sel e then h e st' else (Raise e, st')
    | r => r
    end.

(** [try: m  finally: c]: [c] runs however [m] ends, and [m]'s way of
    ending stands unless [c] itself ends otherwise. *)
Definition try_finally {A} (m : M A) (c : M unit) : M A :=
  fun st =>
    match m st with
    | (Diverge, st') => (Diverge, st')
    | (r, st') =>
        match c st' with
        | (Normal _, st'') => (r, st'')
        | (Raise e, st'') => (Raise e, st'')
        | (Continue, st'') => (Continue, st'')
        | (Break, st'') => (Break, st'')
        | (Diverge, st'') => (Diverge, st'')
        end
    end.

(** [for x in l: body x] *)
Fixpoint for_each {A} (l : list A) (body : A -> M unit) : M unit :=
  match l with
  | [] => ret tt
  | x :: l' =>
      fun st =>
        match body x st with
        | (Normal _, st') => for_each l' body st'
        | (Continue, st') => for_each l' body st'
        | (Break, st') => (Normal tt, st')
        | (Raise e, st') => (Raise e, st')
        | (Diverge, st') => (Diverge, st')
        end
  end.

Definition when (b : bool) (m : M unit) : M unit := if b then m else ret tt.

(* ================================================================= *)
(** ** Folder mapping (lines 443-462) *)

(** The special-use link: for every source flag in turn, when it is a
    special flag, the first destination folder (in enumeration order)
    carrying it becomes the target; a later source flag overrides an
    earlier one. *)
Fixpoint first_with_flag (flag : string) (dst : sdict DestFolder)
  : option string :=
  match dst with
  | [] => None
  | (name, f) :: dst' =>
      if Py.mem_string flag (df_flags f) then Some name
      else first_with_flag flag dst'
  end.

Fixpoint link_special (flags : list string) (dst : sdict DestFolder)
  (df_name : string) : string :=
  match flags with
  | [] => df_name
  | sf_flag :: flags' =>
      let df_name :=
        if Py.mem_string sf_flag SPECIAL_FOLDER_FLAGS
        then match first_with_flag sf_flag dst with
             | Some name => name
             | None => df_name
             end
        else df_name in
      link_special flags' dst df_name
  end.

(** Lines 445-449. *)
Definition add_destination_root (a : Args) (d_d : string) (df_name : string)
  : string :=
  match destination_root a with
  | EmptyString => df_name
  | root =>
      if (negb (destination_root_merge a)
          || (negb (Py.startswith df_name (root ++ d_d))
              && negb (String.eqb df_name root)))%bool
      then root ++ d_d ++ df_name
      else df_name
  end.

(** Lines 443-462, once both delimiters are strings. *)
Definition map_folder (a : Args) (d_s d_d : string)
  (dst : sdict DestFolder) (redir : sdict string)
  (sf_name : string) (flags : list string) : string :=
  let df_name := Py.replace sf_name d_s d_d in
  let df_name := add_destination_root a d_d df_name in
  let df_name :=
    if negb (ignore_folder_flags a) then link_special flags dst df_name
    else df_name in
  match sget sf_name redir with
  | Some target => target
  | None => df_name
  end.

(* ================================================================= *)
(** ** The script *)

Section Script.

Variable w : World.
Variable args : Args.

(** Python truth of an optional string ([None] and [''] are false). *)
Definition truthy (s : option string) : bool :=
  match s with
  | None | Some EmptyString => false
  | Some _ => true
  end.

Definition is_nil {A} (l : list A) : bool :=
  match l with [] => true | _ => false end.

(** [connect]: [true] stands for a connection object, [false] for
    [None]. *)
Definition connect (s : side) (server : string) (port : Z)
  (encryption : string) : M bool :=
  let use_ssl := Py.mem_string encryption ["tls"; "ssl"] in
  try_except
    (call (EConnect s server port use_ssl (ssl_no_verify args))
          (fun h => w_connect w h s) ;;
     when (String.eqb encryption "starttls")
          (call (EStartTLS s) (fun h => w_starttls w h s)) ;;
     ret true)
    is_Exception
    (fun _ => ret false).

Definition login (connection : bool) (s : side) (user password : string)
  : M bool :=
  if connection then
    try_except
      (call (ELogin s user password) (fun h => w_login w h s user password) ;;
       ret true)
      is_Exception
      (fun _ => ret false)
  else ret false.

(** [client.get_quota()[0]] followed by the line that prints
    [usage / limit * 100]. *)
Definition first_quota (qs : list Quota) : M Quota :=
  match qs with
  | [] => raise IndexError
  | q :: _ => if limit q =? 0 then raise ZeroDivisionError else ret q
  end.

(** Lines 217-255. *)
Definition check_quota : M unit :=
  has_s <- call (EHasCapability Source "QUOTA")
                (fun h => w_has_capability w h Source "QUOTA") ;;
  source_quota <-
    (if has_s : bool then
       qs <- call (EGetQuota Source) (fun h => w_get_quota w h Source) ;;
       q <- first_quota qs ;;
       ret (Some q)
     else ret None) ;;
  has_d <- call (EHasCapability Destination "QUOTA")
                (fun h => w_has_capability w h Destination "QUOTA") ;;
  destination_quota <-
    (if (has_d && negb (ignore_quota args))%bool then
       call (EGetQuota Destination) (fun h => w_get_quota w h Destination) ;;
       qs <- call (EGetQuota Destination)
                  (fun h => w_get_quota w h Destination) ;;
       q <- first_quota qs ;;
       ret (Some q)
     else ret None) ;;
  match source_quota, destination_quota with
  | Some sq, Some dq =>
      let destination_quota_free := limit dq - usage dq in
      if destination_quota_free <? usage sq then
        print (OutInsufficientQuota (usage sq) destination_quota_free) ;;
        if ignore_quota args then print OutQuotaIgnoring
        else print OutAbort ;; exit ExitQuota
      else ret tt
  | _, _ => ret tt
  end.

Definition start_imap_idle (s : side) : M unit :=
  folders <- call (EListFolders s "") (fun h => w_list_folders w h s "") ;;
  match folders with
  | [] => raise IndexError
  | (_, _, some_folder) :: _ =>
      call (ESelect s some_folder) (fun h => w_select w h s some_folder) ;;
      call (EIdle s) (fun h => w_idle w h s)
  end.

Definition end_imap_idle (s : side) : M unit :=
  call (EIdleDone s) (fun h => w_idle_done w h s).

Definition restart_imap_idle (s : side) : M unit :=
  end_imap_idle s ;; start_imap_idle s.

(** [delimiter.decode()] *)
Definition decode_delimiter (delimiter : option string) : M string :=
  match delimiter with
  | None => raise AttributeError
  | Some b =>
      match Py.decode b with
      | Some s => ret s
      | None => raise UnicodeDecodeError
      end
  end.

Definition new_source_folder (flags : list string) : SourceFolder :=
  {| sf_flags := flags; sf_mails := []; sf_size := 0; sf_buffer := [] |}.

Definition add_buffer (b : list Z) (f : SourceFolder) : SourceFolder :=
  {| sf_flags := sf_flags f; sf_mails := sf_mails f; sf_size := sf_size f;
     sf_buffer := sf_buffer f ++ [b] |}.

Definition add_source_mail (mail_id : Z) (m : SourceMail) (f : SourceFolder)
  : SourceFolder :=
  {| sf_flags := sf_flags f; sf_mails := zset mail_id m (sf_mails f);
     sf_size := sf_size f; sf_buffer := sf_buffer f |}.

Definition add_source_size (n : Z) (f : SourceFolder) : SourceFolder :=
  {| sf_flags := sf_flags f; sf_mails := sf_mails f;
     sf_size := sf_size f + n; sf_buffer := sf_buffer f |}.

(** Lines 313-334: one row of the metadata FETCH on the source. *)
Definition enumerate_source_mail (name : string) (row : Z * MetaData)
  : M unit :=
  let '(mail_id, data) := row in
  match md_envelope data with
  | None =>
      modify (with_stats (with_skipped_mails incr_skm_no_envelope)) ;;
      continue
  | Some envelope =>
      let subject :=
        match subject envelope with
        | Some (String _ _ as s) => decode_mime w s
        | _ => "(no subject)"
        end in
      match md_size data with
      | None => raise (KeyError (KBytes "RFC822.SIZE"))
      | Some size =>
          modify (with_db_source (supdate name (add_source_mail mail_id
             {| sm_size := size; sm_subject := subject;
                sm_msg_id := message_id envelope |}))) ;;
          modify (with_db_source (supdate name (add_source_size size))) ;;
          modify (with_stats incr_source_mails) ;;
          n <- gets (fun m => source_mails (stats m)) ;;
          when (Z.of_nat n mod 10000 =? 0) (restart_imap_idle Destination)
      end
  end.

(** Lines 310-336: [while mails: ...].  The loop ends when [mails] is
    empty; [fuel] bounds the iterations of the model, and running out of
    it stands for a loop that does not end. *)
Fixpoint enumerate_source_buffers (fuel : nat) (name : string)
  (mails : list Z) : M unit :=
  match mails with
  | [] => ret tt
  | _ :: _ =>
      match fuel with
      | O => diverge
      | S fuel' =>
          let buffer := Py.take (buffer_size args) mails in
          modify (with_db_source (supdate name (add_buffer buffer))) ;;
          rows <- call (EFetchMeta Source buffer ["RFC822.SIZE"; "ENVELOPE"])
                       (fun h => w_fetch_meta w h Source buffer) ;;
          for_each rows (enumerate_source_mail name) ;;
          enumerate_source_buffers fuel' name
            (Py.drop (buffer_size args) mails)
      end
  end.

(** Lines 287-336: one entry of the source LIST. *)
Definition enumerate_source_folder (row : FolderRow) : M unit :=
  let '(flags, delimiter, name) := row in
  sd <- gets source_delimiter ;;
  when (negb (truthy sd))
       (d <- decode_delimiter delimiter ;;
        modify (set_source_delimiter (Some d))) ;;
  when (negb (is_nil (source_mailbox args))
        && negb (Py.mem_string name (source_mailbox args)))
       continue ;;
  call (ESelect Source name) (fun h => w_select w h Source name) ;;
  mails <- call (ESearch Source) (fun h => w_search w h Source) ;;
  if (is_nil mails && skip_empty_folders args)%bool then continue
  else
    modify (with_db_source (sset name (new_source_folder flags))) ;;
    enumerate_source_buffers (List.length mails) name mails.

Definition enumerate_source : M unit :=
  folders <- call (EListFolders Source (source_root args))
                  (fun h => w_list_folders w h Source (source_root args)) ;;
  for_each folders enumerate_source_folder.

Definition new_destination_folder (flags : list string) : DestFolder :=
  {| df_flags := flags; df_mails := []; df_size := 0 |}.

Definition add_destination_mail (mail_id : Z) (m : DestMail) (f : DestFolder)
  : DestFolder :=
  {| df_flags := df_flags f; df_mails := zset mail_id m (df_mails f);
     df_size := df_size f |}.

Definition add_destination_size (n : Z) (f : DestFolder) : DestFolder :=
  {| df_flags := df_flags f; df_mails := df_mails f;
     df_size := df_size f + n |}.

(** Lines 372-381: one row of the metadata FETCH on the destination. *)
Definition enumerate_destination_mail (name : string) (row : Z * MetaData)
  : M unit :=
  let '(mail_id, data) := row in
  match md_size data with
  | None => raise (KeyError (KBytes "RFC822.SIZE"))
  | Some size =>
      modify (with_db_destination (supdate name (add_destination_mail mail_id
         {| dm_size := size; dm_msg_id := None |}))) ;;
      modify (with_db_destination (supdate name (add_destination_size size))) ;;
      (if incremental args then
         match md_envelope data with
         | None => raise (KeyError (KBytes "ENVELOPE"))
         | Some envelope =>
             modify (with_db_destination (supdate name
               (add_destination_mail mail_id
                  {| dm_size := size;
                     dm_msg_id := Some (message_id envelope) |})))
         end
       else ret tt) ;;
      modify (with_stats incr_destination_mails)
  end.

(** Lines 371-382. *)
Fixpoint enumerate_destination_buffers (fuel : nat) (name : string)
  (mails : list Z) : M unit :=
  match mails with
  | [] => ret tt
  | _ :: _ =>
      match fuel with
      | O => diverge
      | S fuel' =>
          let buffer := Py.take (buffer_size args) mails in
          let items :=
            (["RFC822.SIZE"] ++
             (if incremental args then ["ENVELOPE"] else []))%list in
          rows <- call (EFetchMeta Destination buffer items)
                       (fun h => w_fetch_meta w h Destination buffer) ;;
          for_each rows (enumerate_destination_mail name) ;;
          enumerate_destination_buffers fuel' name
            (Py.drop (buffer_size args) mails)
      end
  end.

(** [name.replace(destination_delimiter, source_delimiter)]: a [None]
    argument is a [TypeError]. *)
Definition replace_opt (s : string) (old new : option string) : M string :=
  match old, new with
  | Some o, Some n => ret (Py.replace s o n)
  | _, _ => raise TypeError
  end.

(** Lines 349-382: one entry of the destination LIST. *)
Definition enumerate_destination_folder (row : FolderRow) : M unit :=
  let '(flags, delimiter, name) := row in
  dd <- gets destination_delimiter ;;
  when (negb (truthy dd))
       (d <- decode_delimiter delimiter ;;
        modify (set_destination_delimiter (Some d))) ;;
  (if negb (is_nil (source_mailbox args)) then
     dd <- gets destination_delimiter ;;
     sd <- gets source_delimiter ;;
     image <- replace_opt name dd sd ;;
     if negb (Py.mem_string image (source_mailbox args)) then
       modify (with_stats (with_skipped_folders incr_skf_by_mailbox)) ;;
       continue
     else ret tt
   else ret tt) ;;
  modify (with_db_destination (sset name (new_destination_folder flags))) ;;
  call (ESelect Destination name) (fun h => w_select w h Destination name) ;;
  mails <- call (ESearch Destination) (fun h => w_search w h Destination) ;;
  enumerate_destination_buffers (List.length mails) name mails.

Definition enumerate_destination : M unit :=
  folders <- call (EListFolders Destination (destination_root args))
               (fun h => w_list_folders w h Destination
                           (destination_root args)) ;;
  for_each folders enumerate_destination_folder.

(** Lines 389-406. *)
Definition list_mode_exit : M unit :=
  if list_mode args then
    src <- gets db_source ;;
    print (OutListing Source
             (map (fun '(name, f) =>
                     (name, List.length (sf_mails f), sf_size f)) src)) ;;
    dst <- gets db_destination ;;
    print (OutListing Destination
             (map (fun '(name, f) =>
                     (name, List.length (df_mails f), df_size f)) dst)) ;;
    exit ExitList
  else ret tt.

(** Lines 413-432: one [--redirect] rule.  The handler of the
    [ValueError] reads the unbound name [e]. *)
Definition parse_redirection (redirection : string) : M unit :=
  match Py.split_once ":" redirection with
  | None => raise (NameError "e")
  | Some (r_source, r_destination) =>
      src <- gets db_source ;;
      (if Py.endswith_char r_source "*" then
         let wildcard_matches :=
           filter (fun f => Py.startswith f (Py.drop_last r_source))
                  (Dict.keys src) in
         if negb (is_nil wildcard_matches) then
           for_each wildcard_matches (fun folder =>
             modify (with_redirections (sset folder r_destination)))
         else modify (with_not_found (fun l => (l ++ [r_source])%list))
       else if negb (smem r_source src) then
         modify (with_not_found (fun l => (l ++ [r_source])%list))
       else ret tt) ;;
      modify (with_redirections (sset r_source r_destination))
  end.

(** Lines 409-436. *)
Definition custom_links : M unit :=
  match redirect args with
  | Some ((_ :: _) as rules) => for_each rules parse_redirection
  | _ => ret tt
  end ;;
  nf <- gets not_found ;;
  if negb (is_nil nf) then print (OutNotFound nf) ;; exit ExitNotFound
  else ret tt.

(** Line 441: [sorted(..., key=lambda x: x.lower())], a stable sort. *)
Fixpoint insert_sorted (x : string) (l : list string) : list string :=
  match l with
  | [] => [x]
  | y :: l' =>
      if String.ltb (Py.lower x) (Py.lower y) then x :: l
      else y :: insert_sorted x l'
  end.

Definition sorted_lower (l : list string) : list string :=
  fold_left (fun acc x => insert_sorted x acc) l [].

Definition msg_id_decoded (msg_id : option string) : decoded_id :=
  match msg_id with
  | None => IdDecodeFailure AttributeError
  | Some b =>
      match Py.decode b with
      | Some s => IdText s
      | None => IdDecodeFailure UnicodeDecodeError
      end
  end.

(** Lines 528-541: the handler of the [KeyError] of the lookup.  The
    arguments are the variables as the [try] block left them. *)
Definition lookup_failed (df_name : string) (e : exn)
  (msg_id : option string) (size : pyval) (subject : string) (date : pyval)
  : M unit :=
  modify (with_stats (append_error
    {| err_size := size; err_subject := subject; err_exception := e;
       err_folder := df_name; err_date := date;
       err_id := msg_id_decoded msg_id |})) ;;
  print (OutError e) ;;
  continue.

(** [m['msg_id'] for m in ....values()]: [None] when an entry has no
    such key. *)
Fixpoint msg_ids (l : list DestMail) : option (list (option string)) :=
  match l with
  | [] => Some []
  | m :: l' =>
      match dm_msg_id m, msg_ids l' with
      | Some i, Some r => Some (i :: r)
      | _, _ => None
      end
  end.

Definition opt_string_eqb (a b : option string) : bool :=
  match a, b with
  | Some x, Some y => String.eqb x y
  | None, None => true
  | _, _ => false
  end.

(** Lines 561-562: the condition of the incremental branch. *)
Definition already_exists (df_name : string) (msg_id : option string)
  : M bool :=
  if incremental args then
    dst <- gets db_destination ;;
    match sget df_name dst with
    | None => ret false
    | Some f =>
        match msg_ids (Dict.values (df_mails f)) with
        | None => raise (KeyError (KBytes "msg_id"))
        | Some ids => ret (existsb (opt_string_eqb msg_id) ids)
        end
    end
  else ret false.

(** [any([len(line) > n for line in msg.split(b'\n')])] *)
Definition any_long_line (n : Z) (msg : string) : bool :=
  existsb (fun line => n <? Z.of_nat (String.length line))
          (Py.split "010" msg).

Definition success_messages : list string :=
  ["append completed"; "(success)"].

Definition is_success (status : string) : bool :=
  existsb (fun msg => Py.contains (Py.lower status) msg) success_messages.

(** Lines 570-610: the [try] / [except IMAPClientError] / [finally] of
    the APPEND. *)
Definition append_mail (df_name : string) (msg_id : option string)
  (size : Z) (subject : string) (flags : list string) (msg : string)
  (date : Z) : M unit :=
  try_finally
    (try_except
       ((match max_line_length args with
         | Some n =>
             if negb (n =? 0) then
               if any_long_line n msg then
                 modify (with_stats
                           (with_skipped_mails incr_skm_max_line_length)) ;;
                 continue
               else ret tt
             else ret tt
         | None => ret tt
         end) ;;
        let to_append := append_flags (denied_flags args) flags in
        status <- call (EAppend df_name msg to_append date)
                    (fun h => w_append w h df_name msg to_append date) ;;
        if is_success status then modify (with_stats incr_copied_mails)
        else
          match Py.decode status with
          | Some text =>
              raise (IMAPClientError ("Unknown success message: " ++ text))
          | None => raise UnicodeDecodeError
          end)
       (fun e => match e with IMAPClientError _ => true | _ => false end)
       (fun e =>
          modify (with_stats (append_error
            {| err_size := VStr (beautysized w size);
               err_subject := subject; err_exception := e;
               err_folder := df_name; err_date := VDate date;
               err_id := msg_id_decoded msg_id |})) ;;
          print (OutError e) ;;
          when (abort_on_error args) (raise KeyboardInterrupt)))
    (modify (with_stats incr_processed)).

(** Lines 549-610: the skip ladder, entered with the values the lookup
    found. *)
Definition skip_ladder (df_name : string) (msg_id : option string)
  (size : Z) (subject : string) (flags : list string) (msg : string)
  (date : Z) : M unit :=
  if size =? 0 then
    modify (with_stats (with_skipped_mails incr_skm_zero_size)) ;;
    modify (with_stats incr_processed)
  else
    too_large <- match max_mail_size args with
                 | Some limit => ret (limit <? size)
                 | None => raise TypeError
                 end ;;
    if too_large : bool then
      modify (with_stats (with_skipped_mails incr_skm_max_size)) ;;
      modify (with_stats incr_processed)
    else
      dup <- already_exists df_name msg_id ;;
      if dup : bool then
        modify (with_stats (with_skipped_mails incr_skm_already_exists)) ;;
        modify (with_stats incr_processed)
      else if dry_run args then ret tt
      else append_mail df_name msg_id size subject flags msg date.

(** Lines 511-610: one row of the FETCH of a buffer. *)
Definition transfer_mail (sf : SourceFolder) (df_name : string)
  (row : Z * FullData) : M unit :=
  let '(mail_id, data) := row in
  n <- gets (fun m => source_mails (stats m)) ;;
  (if Nat.eqb n 0 then raise ZeroDivisionError else ret tt) ;;
  let unknown := "(unknown)" in
  match zget mail_id (sf_mails sf) with
  | None =>
      lookup_failed df_name (KeyError (KInt mail_id))
        (Some unknown) (VStr unknown) unknown (VStr unknown)
  | Some m =>
      let msg_id := sm_msg_id m in
      let size := sm_size m in
      let subject := sm_subject m in
      match fd_flags data with
      | None =>
          lookup_failed df_name (KeyError (KBytes "FLAGS"))
            msg_id (VInt size) subject (VStr unknown)
      | Some flags =>
          match fd_rfc822 data with
          | None =>
              lookup_failed df_name (KeyError (KBytes "RFC822"))
                msg_id (VInt size) subject (VStr unknown)
          | Some msg =>
              match fd_internaldate data with
              | None =>
                  lookup_failed df_name (KeyError (KBytes "INTERNALDATE"))
                    msg_id (VInt size) subject (VStr unknown)
              | Some date =>
                  skip_ladder df_name msg_id size subject flags msg date
              end
          end
      end
  end.

(** Lines 478-503: the destination folder does not exist yet. *)
Definition create_folder (sf : SourceFolder) (df_name : string) : M unit :=
  if negb (dry_run args) then
    if (skip_empty_folders args && is_nil (sf_mails sf))%bool then
      modify (with_stats (with_skipped_folders incr_skf_empty)) ;;
      continue
    else
      try_except
        (call (ECreate df_name) (fun h => w_create w h df_name) ;;
         when (negb (destination_no_subscribe args))
              (call (ESubscribe df_name) (fun h => w_subscribe w h df_name)) ;;
         modify (with_stats incr_copied_folders))
        (fun e => match e with IMAPClientError _ => true | _ => false end)
        (fun e =>
           match e with
           | IMAPClientError text =>
               if Py.contains (Py.lower text) "alreadyexists" then
                 modify (with_stats
                           (with_skipped_folders incr_skf_already_exists))
               else
                 print (OutError e) ;;
                 when (abort_on_error args) (raise KeyboardInterrupt) ;;
                 continue
           | _ => ret tt
           end)
  else ret tt.

(** Lines 442-612: one source folder. *)
Definition transfer_folder (sf_name : string) : M unit :=
  call (ESelect Source sf_name) (fun h => w_select w h Source sf_name) ;;
  src <- gets db_source ;;
  match sget sf_name src with
  | None => raise (KeyError (KBytes sf_name))
  | Some sf =>
      sd <- gets source_delimiter ;;
      dd <- gets destination_delimiter ;;
      match sd, dd with
      | Some d_s, Some d_d =>
          dst <- gets db_destination ;;
          redir <- gets redirections ;;
          let df_name :=
            map_folder args d_s d_d dst redir sf_name (sf_flags sf) in
          (if smem df_name dst then
             modify (with_stats
                       (with_skipped_folders incr_skf_already_exists))
           else create_folder sf df_name) ;;
          if dry_run args then continue
          else
            for_each (sf_buffer sf) (fun buffer =>
              rows <- call (EFetchFull buffer)
                        (fun h => w_fetch_full w h buffer) ;;
              for_each rows (transfer_mail sf df_name))
      | _, _ => raise TypeError
      end
  end.

(** Lines 440-622. *)
Definition transfer : M unit :=
  try_except
    (src <- gets db_source ;;
     for_each (sorted_lower (Dict.keys src)) transfer_folder ;;
     print OutFinish)
    (fun e => match e with KeyboardInterrupt => true | _ => false end)
    (fun _ => print OutAbort).

(** Lines 624-636. *)
Definition logout (s : side) : M unit :=
  try_except
    (call (ELogout s) (fun h => w_logout w h s))
    (fun e => match e with IMAPClientError _ => true | _ => false end)
    (fun e => print (OutError e)).

(** Lines 183-212: connect and log in on both sides; without both logins
    the script stops. *)
Definition open_sessions : M unit :=
  source <- connect Source (source_server args) (source_port args)
              (source_encryption args) ;;
  destination <- connect Destination (destination_server args)
                   (destination_port args) (destination_encryption args) ;;
  source_login_ok <- login source Source (source_user args)
                       (source_pass args) ;;
  destination_login_ok <- login destination Destination
                            (destination_user args)
                            (destination_pass args) ;;
  when (negb (source_login_ok && destination_login_ok))
       (print OutAbortLogin ;; exit ExitLogin).

(** Lines 283-387: enumerate both sides, the other side idling. *)
Definition enumerate : M unit :=
  start_imap_idle Destination ;;
  enumerate_source ;;
  end_imap_idle Destination ;;
  start_imap_idle Source ;;
  enumerate_destination.

(** Lines 183-387. *)
Definition prepare : M unit :=
  open_sessions ;; check_quota ;; enumerate.

(** Lines 409-664: redirections, transfer, logout, report. *)
Definition replicate : M unit :=
  custom_links ;;
  end_imap_idle Source ;;
  transfer ;;
  logout Source ;;
  logout Destination ;;
  print OutReport.

(** The whole script, after [parse_args] and the port defaulting. *)
Definition script : M unit :=
  prepare ;; list_mode_exit ;; replicate.

End Script.

(** A run of the program on parsed arguments. *)
Definition run (w : World) (a : Args) : res unit * State :=
  script w (apply_default_ports a) state0.

(** The exit status the operating system sees: [exit()] without argument
    raises [SystemExit(None)], which like the normal end gives 0; an
    uncaught exception gives a non-zero status; a run that does not end has
    none. *)
Definition exit_status (r : res unit) : option Z :=
  match r with
  | Normal _ => Some 0
  | Raise (SystemExit _) => Some 0
  | Raise KeyboardInterrupt => Some 130
  | Raise _ => Some 1
  | Continue | Break | Diverge => None
  end.

(* ================================================================= *)
(** ** A simple pair of servers, for concrete runs *)

Module Sample.

(** A message as a server holds it. *)
Record Mail := {
  uid : Z;
  size : Z;
  envelope : option Envelope;
  flags : list string;
  body : string;
  date : Z
}.

(** A mailbox: the LIST rows with the messages of each folder. *)
Definition Mailbox : Type := list (FolderRow * list Mail).

Record Server := {
  connects : bool;
  accepts_login : bool;
  quota : option (list Quota);       (* [None]: no QUOTA capability *)
  mailbox : Mailbox
}.

(** The folder selected last on a side. *)
Fixpoint selected (s : side) (h : list event) (cur : option string)
  : option string :=
  match h with
  | [] => cur
  | ESelect Source f :: h' =>
      selected s h' (match s with Source => Some f | _ => cur end)
  | ESelect Destination f :: h' =>
      selected s h' (match s with Destination => Some f | _ => cur end)
  | _ :: h' => selected s h' cur
  end.

Fixpoint folder_mails (name : string) (mb : Mailbox) : list Mail :=
  match mb with
  | [] => []
  | ((_, _, n), ms) :: mb' =>
      if String.eqb n name then ms else folder_mails name mb'
  end.

Definition current_mails (srv : Server) (s : side) (h : list event)
  : list Mail :=
  match selected s h None with
  | Some f => folder_mails f (mailbox srv)
  | None => []
  end.

Definition pick (uids : list Z) (ms : list Mail) : list Mail :=
  filter (fun m => existsb (Z.eqb (uid m)) uids) ms.

Definition ok_if (b : bool) (msg : string) : reply unit :=
  if b then Ok tt else Fail (ImapError msg).

(** Servers that answer from fixed mailboxes; CREATE and APPEND answer
    with the given replies. *)
Definition world (src dst : Server) (create_reply : string -> reply unit)
  (append_reply : string -> string -> reply string) : World :=
  let srv s := match s with Source => src | Destination => dst end in
  {| w_connect := fun _ s => ok_if (connects (srv s)) "connection refused";
     w_starttls := fun _ _ => Ok tt;
     w_login := fun _ s _ _ =>
       ok_if (accepts_login (srv s)) "authentication failed";
     w_has_capability := fun _ s _ =>
       Ok (match quota (srv s) with Some _ => true | None => false end);
     w_get_quota := fun _ s =>
       Ok (match quota (srv s) with Some q => q | None => [] end);
     w_list_folders := fun _ s _ => Ok (map fst (mailbox (srv s)));
     w_select := fun _ _ _ => Ok tt;
     w_search := fun h s => Ok (map uid (current_mails (srv s) s h));
     w_fetch_meta := fun h s uids =>
       Ok (map (fun m => (uid m, {| md_size := Some (size m);
                                    md_envelope := envelope m |}))
               (pick uids (current_mails (srv s) s h)));
     w_fetch_full := fun h uids =>
       Ok (map (fun m => (uid m, {| fd_flags := Some (flags m);
                                    fd_rfc822 := Some (body m);
                                    fd_internaldate := Some (date m) |}))
               (pick uids (current_mails src Source h)));
     w_idle := fun _ _ => Ok tt;
     w_idle_done := fun _ _ => Ok tt;
     w_create := fun _ name => create_reply name;
     w_subscribe := fun _ _ => Ok tt;
     w_append := fun _ folder msg _ _ => append_reply folder msg;
     w_logout := fun _ _ => Ok tt;
     decode_mime := fun s => s;
     beautysized := fun _ => "" |}.

Definition defaults : Args :=
  {| dry_run := false; list_mode := false; incremental := false;
     abort_on_error := false; buffer_size := Some 50;
     denied_flags_arg := None; redirect := None; ignore_quota := false;
     ignore_folder_flags := false; max_line_length := None;
     max_mail_size := None; skip_empty_folders := false;
     ssl_no_verify := false;
     source_user := "alice"; source_pass := "secret";
     source_server := "imap.old.example"; source_encryption := "ssl";
     source_port := 993; source_root := ""; source_mailbox := [];
     destination_user := "alice"; destination_pass := "secret";
     destination_server := "imap.new.example";
     destination_encryption := "ssl"; destination_port := 993;
     destination_root := ""; destination_root_merge := false;
     destination_no_subscribe := false |}.

Definition mail (u sz : Z) (fl : list string) : Mail :=
  {| uid := u; size := sz;
     envelope := Some {| subject := Some "hello";
                         message_id := Some "<1@example>" |};
     flags := fl; body := "Subject: hello"; date := 1700000000 |}.

Definition no_envelope (m : Mail) : Mail :=
  {| uid := uid m; size := size m; envelope := None; flags := flags m;
     body := body m; date := date m |}.

Definition server (mb : Mailbox) : Server :=
  {| connects := true; accepts_login := true; quota := None;
     mailbox := mb |}.

Definition inbox (ms : list Mail) : Mailbox :=
  [(([], Some "/", "INBOX"), ms)].

Definition always_ok : string -> reply unit := fun _ => Ok tt.
Definition completed : string -> string -> reply string :=
  fun _ _ => Ok "[APPENDUID 1 1] Append completed.".

(** A command line that names both ports. *)
Definition explicit_ports : Args :=
  set_source_port 1143 (set_destination_port 1143 defaults).

(** One folder with one message of 1000 bytes on the source, the same
    folder, empty, on the destination. *)
Definition one_mail : World :=
  world (server (inbox [mail 1 1000 ["\Seen"]])) (server (inbox []))
        always_ok completed.

(** The same with a size limit, so that the ladder can be evaluated. *)
Definition limited : Args := set_max_mail_size (Some 10000000) defaults.

(** A destination that answers APPEND with a status the script does not
    know. *)
Definition unrecognised : World :=
  world (server (inbox [mail 1 1000 ["\Seen"]])) (server (inbox []))
        always_ok (fun _ _ => Ok "OK done").

(** A source folder whose second message comes without ENVELOPE. *)
Definition missing_envelope : World :=
  world (server (inbox [mail 1 1000 ["\Seen"]; no_envelope (mail 2 500 [])]))
        (server (inbox [])) always_ok completed.

(** A redirection whose source folder does not exist, alone and together
    with [--list]. *)
Definition unresolved_rule : Args :=
  set_redirect (Some ["Nope:Elsewhere"]) limited.

Definition unresolved_rule_listed : Args :=
  set_list_mode true unresolved_rule.

(** Both servers report a quota: the source uses 10000 KB, the
    destination has 5000 KB left. *)
Definition with_quota (used total : Z) (mb : Mailbox) : Server :=
  {| connects := true; accepts_login := true;
     quota := Some [{| quota_root := ""; resource := "STORAGE";
                       usage := used; limit := total |}];
     mailbox := mb |}.

Definition tight_quota : World :=
  world (with_quota 10000 50000 (inbox [mail 1 1000 []]))
        (with_quota 15000 20000 (inbox [])) always_ok completed.

(** A source that refuses the login. *)
Definition locked_out : World :=
  world {| connects := true; accepts_login := false; quota := None;
           mailbox := inbox [mail 1 1000 []] |}
        (server (inbox [])) always_ok completed.

(** A destination that cannot be reached. *)
Definition unreachable : World :=
  world (server (inbox [mail 1 1000 []]))
        {| connects := false; accepts_login := true; quota := None;
           mailbox := inbox [] |}
        always_ok completed.

(** Servers that answer every FETCH with one row for each UID asked: the
    source holds the messages 1, 2 and 3 in one folder, message 2 comes
    without ENVELOPE, message 3 is empty. *)
Definition uniform : World :=
  {| w_connect := fun _ _ => Ok tt;
     w_starttls := fun _ _ => Ok tt;
     w_login := fun _ _ _ _ => Ok tt;
     w_has_capability := fun _ _ _ => Ok false;
     w_get_quota := fun _ _ => Ok [];
     w_list_folders := fun _ _ _ => Ok [([], Some "/", "INBOX")];
     w_select := fun _ _ _ => Ok tt;
     w_search := fun _ s =>
       Ok (match s with Source => [1; 2; 3] | Destination => [] end);
     w_fetch_meta := fun _ _ uids =>
       Ok (map (fun u =>
                  (u, {| md_size := Some (if u =? 3 then 0 else 1000);
                         md_envelope :=
                           if u =? 2 then None
                           else Some {| subject := Some "hello";
                                        message_id := Some "<1@example>" |} |}))
               uids);
     w_fetch_full := fun _ uids =>
       Ok (map (fun u => (u, {| fd_flags := Some ["\Seen"];
                                fd_rfc822 := Some "Subject: hello";
                                fd_internaldate := Some 1700000000 |}))
               uids);
     w_idle := fun _ _ => Ok tt;
     w_idle_done := fun _ _ => Ok tt;
     w_create := fun _ _ => Ok tt;
     w_subscribe := fun _ _ => Ok tt;
     w_append := fun _ _ _ _ _ => Ok "[APPENDUID 1 1] Append completed.";
     w_logout := fun _ _ => Ok tt;
     decode_mime := fun s => s;
     beautysized := fun _ => "" |}.

(** A destination without the source's folder, where CREATE is denied. *)
Definition no_create : World :=
  world (server (inbox [mail 1 1000 []]))
        (server [(([], Some "/", "Other"), [])])
        (fun _ => Fail (ImapError "NO permission denied")) completed.

(** [--denied-flags Seen,recent] *)
Definition denying : Args := set_denied_flags_arg (Some "Seen,recent") limited.

(** A destination that refuses every APPEND, with [--abort-on-error]. *)
Definition refusing : World :=
  world (server (inbox [mail 1 1000 []; mail 2 1000 []])) (server (inbox []))
        always_ok (fun _ _ => Fail (ImapError "NO over quota")).

Definition stop_at_error : Args := set_abort_on_error true limited.

End Sample.


(* ================================================================= *)
(** ** Vocabulary of the properties *)

(** A string that [lower] leaves alone. *)
Definition lowered (s : string) : Prop := Py.lower s = s.

(** The rewrite of a one-character delimiter, character by character. *)
Fixpoint subst_char (c : ascii) (new : string) (s : string) : string :=
  match s with
  | EmptyString => EmptyString
  | String a s' =>
      if Ascii.eqb a c then new ++ subst_char c new s'
      else String a (subst_char c new s')
  end.

(** [name] is a destination folder that carries a special-use flag of the
    source folder. *)
Definition shares_special (flags : list string) (dst : sdict DestFolder)
  (name : string) : Prop :=
  exists fl f, In fl flags /\ In fl SPECIAL_FOLDER_FLAGS /\
               In (name, f) dst /\ In fl (df_flags f).

(** [st'] continues the trace of [st] with events that all satisfy [P]. *)
Definition extends (P : event -> Prop) (st st' : State) : Prop :=
  exists new, trace st' = (trace st ++ new)%list /\ Forall P new.

(** A computation that only sends events satisfying [P] and only raises
    exceptions satisfying [E], from whatever state it starts. *)
Definition safe (P : event -> Prop) (E : exn -> Prop) {A} (m : M A) : Prop :=
  forall st r st', m st = (r, st') ->
    extends P st st' /\ (forall e, r = Raise e -> E e).

(** The events of connecting, logging in and checking the quota. *)
Definition session_event (e : event) : Prop :=
  match e with
  | EConnect _ _ _ _ _ | EStartTLS _ | ELogin _ _ _ | EHasCapability _ _
  | EGetQuota _
  | EPrint OutAbortLogin | EPrint (OutInsufficientQuota _ _)
  | EPrint OutQuotaIgnoring | EPrint OutAbort => True
  | _ => False
  end.

(** The events of the part of the script before the list-mode exit. *)
Definition prepare_event (e : event) : Prop :=
  match e with
  | EListFolders _ _ | ESelect _ _ | ESearch _ | EFetchMeta _ _ _
  | EIdle _ | EIdleDone _ => True
  | _ => session_event e
  end.

(** The two listings printed in list mode. *)
Definition listing_event (e : event) : Prop :=
  match e with
  | EPrint (OutListing _ _) => True
  | _ => False
  end.

(** What connecting, logging in and checking the quota can raise. *)
Definition session_exn (e : exn) : Prop :=
  match e with
  | SystemExit ExitLogin | SystemExit ExitQuota | KeyboardInterrupt
  | IMAPClientError _ | OtherException _ _ | IndexError
  | ZeroDivisionError => True
  | _ => False
  end.

(** A computation that ends by returning or raising: no [continue] or
    [break] escapes it and it has no loop that could go on for ever. *)
Definition plain {A} (m : M A) : Prop :=
  forall st r st', m st = (r, st') ->
    (exists a, r = Normal a) \/ (exists e, r = Raise e).

(** CREATE, SUBSCRIBE and APPEND: the commands that change the
    destination. *)
Definition is_write (e : event) : bool :=
  match e with
  | ECreate _ | ESubscribe _ | EAppend _ _ _ _ => true
  | _ => false
  end.

Definition read_only (e : event) : Prop := is_write e = false.

(** The [flags] argument of an APPEND holds no flag whose lowercase form
    is denied. *)
Definition append_filtered (denied : list string) (e : event) : Prop :=
  match e with
  | EAppend _ _ flags _ =>
      forall f d, In f flags -> In d denied -> Py.lower f <> Py.lower d
  | _ => True
  end.

Definition any_exn (e : exn) : Prop := True.

(** What the part of the script before the list-mode exit can raise:
    anything but the two later [exit()] calls. *)
Definition prepare_exn (e : exn) : Prop :=
  match e with
  | SystemExit ExitList | SystemExit ExitNotFound => False
  | _ => True
  end.

(** The line-length workaround of lines 572-576 skips the message. *)
Definition exceeds_line_length (a : Args) (msg : string) : bool :=
  match max_line_length a with
  | Some n => (negb (n =? 0) && any_long_line n msg)%bool
  | None => false
  end.

(** The error entry of lines 596-601 for a failed APPEND. *)
Definition append_error_record (w : World) (df_name : string)
  (msg_id : option string) (size : Z) (subject : string) (date : Z) (e : exn)
  : ErrorRecord :=
  {| err_size := VStr (beautysized w size); err_subject := subject;
     err_exception := e; err_folder := df_name; err_date := VDate date;
     err_id := msg_id_decoded msg_id |}.

(** The state after a failed APPEND: the command and the error line are in
    the trace, the entry is logged, the message counts as processed. *)
Definition after_append_failure (w : World) (df_name : string)
  (msg_id : option string) (size : Z) (subject : string) (date : Z)
  (command : event) (e : exn) (st : State) : State :=
  {| mem := with_stats
              (fun s => incr_processed
                          (append_error
                             (append_error_record w df_name msg_id size
                                                  subject date e) s))
              (mem st);
     trace := (trace st ++ [command; EPrint (OutError e)])%list |}.

(** The lookup of lines 519-526 finds everything it reads. *)
Definition lookup_succeeds (sf : SourceFolder) (mail_id : Z) (data : FullData)
  : bool :=
  match zget mail_id (sf_mails sf), fd_flags data, fd_rfc822 data,
        fd_internaldate data with
  | Some _, Some _, Some _, Some _ => true
  | _, _, _, _ => false
  end.

(** The error entry for a UID that is not in the manifest. *)
Definition unknown_record (df_name : string) (mail_id : Z) : ErrorRecord :=
  {| err_size := VStr "(unknown)"; err_subject := "(unknown)";
     err_exception := KeyError (KInt mail_id); err_folder := df_name;
     err_date := VStr "(unknown)"; err_id := IdText "(unknown)" |}.

(** The rows of the two listings of list mode. *)
Definition source_listing (m : Mem) : list (string * nat * Z) :=
  map (fun '(name, f) => (name, List.length (sf_mails f), sf_size f))
      (db_source m).

Definition destination_listing (m : Mem) : list (string * nat * Z) :=
  map (fun '(name, f) => (name, List.length (df_mails f), df_size f))
      (db_destination m).

(** No user interrupt arrives while the sessions are opened. *)
Definition no_interrupt_in_setup (w : World) : Prop :=
  (forall h s, w_connect w h s <> Fail Interrupt) /\
  (forall h s, w_starttls w h s <> Fail Interrupt) /\
  (forall h s user password, w_login w h s user password <> Fail Interrupt).

(** One of the servers refuses the connection, or the login. *)
Definition refused (w : World) : Prop :=
  exists s,
    (forall h, exists f, w_connect w h s = Fail f) \/
    (forall h user password, exists f, w_login w h s user password = Fail f).

(** A [--redirect] rule that line 423 or 425 puts on the not-found list. *)
Definition unresolved (src : sdict SourceFolder) (rule : string) : bool :=
  match Py.split_once ":" rule with
  | Some (r_source, _) =>
      if Py.endswith_char r_source "*" then
        is_nil (filter (fun f => Py.startswith f (Py.drop_last r_source))
                       (Dict.keys src))
      else negb (smem r_source src)
  | None => false
  end.

(* ----------------------------------------------------------------- *)
(** *** Counting messages *)

(** The rows the transfer fetches for a folder: the UIDs of its buffers. *)
Definition rows_of (f : SourceFolder) : nat :=
  list_sum (map (@List.length Z) (sf_buffer f)).

Definition buffered (db : sdict SourceFolder) : nat :=
  list_sum (map (fun entry => rows_of (snd entry)) db).

Definition rows_of_name (db : sdict SourceFolder) (name : string) : nat :=
  match sget name db with
  | Some f => rows_of f
  | None => 0%nat
  end.

(** Metadata rows seen by the source enumeration: counted in
    [source_mails], or under [no_envelope]. *)
Definition enumerated (s : Stats) : nat :=
  (source_mails s + skm_no_envelope (skipped_mails s))%nat.

(** Rows the transfer has dealt with: copied, skipped by a rule of the
    ladder, or logged as an error. *)
Definition accounted (s : Stats) : nat :=
  (copied_mails s
   + (skm_zero_size (skipped_mails s) + skm_max_size (skipped_mails s)
      + skm_max_line_length (skipped_mails s)
      + skm_already_exists (skipped_mails s))
   + List.length (errors s))%nat.

(** The part of the memory the count depends on. *)
Definition core (m : Mem)
  : sdict SourceFolder * (nat * SkippedMails * nat * list ErrorRecord) :=
  (db_source m,
   (source_mails (stats m), skipped_mails (stats m), copied_mails (stats m),
    errors (stats m))).

(** [f] of the memory is the same after [m] as before, and [m] does not
    end in a [break]. *)
Definition keeps {B A} (f : Mem -> B) (m : M A) : Prop :=
  forall st r st', m st = (r, st') -> f (mem st') = f (mem st) /\ r <> Break.

(** Postconditions by the way a computation ends: [N] when it returns,
    [C] at a [continue], [R] at an exception; no [break] occurs. *)
Definition post {A} (N : A -> Mem -> Prop) (C : Mem -> Prop)
  (R : exn -> Mem -> Prop) (r : res A) (m : Mem) : Prop :=
  match r with
  | Normal a => N a m
  | Continue => C m
  | Raise e => R e m
  | Break => False
  | Diverge => True
  end.

Definition triple {A} (P : Mem -> Prop) (m : M A) (N : A -> Mem -> Prop)
  (C : Mem -> Prop) (R : exn -> Mem -> Prop) : Prop :=
  forall st r st', P (mem st) -> m st = (r, st') -> post N C R r (mem st').

Definition any_raise : exn -> Mem -> Prop := fun _ _ => True.
Definition never : Mem -> Prop := fun _ => False.

(** Servers and options under which every source message is transferred:
    a FETCH answers with one row for each UID asked, the source lists no
    folder twice, and no CREATE or SUBSCRIBE fails with an IMAP error other
    than "already exists". *)
Record well_behaved (w : World) (a : Args) : Prop := {
  wb_meta : forall h uids rows,
      w_fetch_meta w h Source uids = Ok rows ->
      List.length rows = List.length uids;
  wb_full : forall h uids rows,
      w_fetch_full w h uids = Ok rows -> List.length rows = List.length uids;
  wb_list : forall h rows,
      w_list_folders w h Source (source_root a) = Ok rows ->
      NoDup (map (fun row : FolderRow => snd row) rows);
  wb_create : forall h name text,
      w_create w h name = Fail (ImapError text) ->
      Py.contains (Py.lower text) "alreadyexists" = true;
  wb_subscribe : forall h name text,
      w_subscribe w h name = Fail (ImapError text) ->
      Py.contains (Py.lower text) "alreadyexists" = true
}.

(** The source enumeration has counted every buffered UID once. *)
Definition enumeration_done (m : Mem) : Prop :=
  enumerated (stats m) = buffered (db_source m) /\
  accounted (stats m) = 0%nat /\
  NoDup (Dict.keys (db_source m)).

(** During the enumeration of folder [name]: [e] rows counted, [b] UIDs
    buffered, the folders [ks] in the table. *)
Definition enumerating (name : string) (e b : nat) (ks : list string)
  (m : Mem) : Prop :=
  enumerated (stats m) = e /\ buffered (db_source m) = b /\
  accounted (stats m) = 0%nat /\
  Dict.keys (db_source m) = ks /\ NoDup ks /\ In name ks.

(** Between two entries of the source LIST, [seen] being the names of the
    entries handled so far. *)
Definition between_folders (seen : list string) (m : Mem) : Prop :=
  enumeration_done m /\
  forall k, In k (Dict.keys (db_source m)) -> In k seen.

(** During the transfer: the manifest is [db], [e] rows were enumerated and
    [n] rows have been dealt with. *)
Definition transferring (db : sdict SourceFolder) (e n : nat) (m : Mem)
  : Prop :=
  db_source m = db /\ enumerated (stats m) = e /\ accounted (stats m) = n.

(** A computation that never goes on for ever. *)
Definition ends {A} (m : M A) : Prop :=
  forall st r st', m st = (r, st') -> r <> Diverge.

(** [--buffer-size] leaves the slices [mails[:n]] non-empty. *)
Definition buffer_size_ok (a : Args) : Prop :=
  match buffer_size a with
  | None => True
  | Some n => 0 < n
  end.

(* ================================================================= *)
(** ** Terminal colours (lines 24-37) *)

Definition ESC : ascii := ascii_of_nat 27.
Definition CR : ascii := ascii_of_nat 13.

Definition colors : sdict string :=
  [("red", String ESC "[31m");
   ("green", String ESC "[32m");
   ("cyan", String ESC "[36m")].

(** [colorize]; [no_colors] is [args.no_colors], [None] is the [KeyError]
    of [colors[color]]. *)
Definition colorize (no_colors : bool) (s : string) (color : option string)
  (bold clear : bool) : option string :=
  if no_colors then Some s
  else
    let s := if clear then String CR (String ESC "[2K") ++ s else s in
    let s := if bold then String ESC "[1m" ++ s else s in
    match color with
    | Some (String _ _ as c) =>
        match sget c colors with
        | Some code => Some ((code ++ s) ++ String ESC "[0m")
        | None => None
        end
    | _ => Some (s ++ String ESC "[0m")
    end.

(** [c] does not occur in [s]. *)
Fixpoint absent (c : ascii) (s : string) : Prop :=
  match s with
  | EmptyString => True
  | String a s' => a <> c /\ absent c s'
  end.

(** Case-insensitive order of line 441: [x] does not come after [y]. *)
Definition lower_le (x y : string) : Prop :=
  String.ltb (Py.lower y) (Py.lower x) = false.

(** The commands [connect] sends on side [s]: the connection itself and,
    for STARTTLS, the upgrade. *)
Definition hello (a : Args) (s : side) (server : string) (port : Z)
  (encryption : string) : event :=
  EConnect s server port (Py.mem_string encryption ["tls"; "ssl"])
           (ssl_no_verify a).

Definition upgrade (s : side) (encryption : string) : list event :=
  if String.eqb encryption "starttls" then [EStartTLS s] else [].

(** A source that cannot be reached. *)
Definition unreachable_source : World :=
  Sample.world
    {| Sample.connects := false; Sample.accepts_login := true;
       Sample.quota := None;
       Sample.mailbox := Sample.inbox [Sample.mail 1 1000 []] |}
    (Sample.server (Sample.inbox [])) Sample.always_ok Sample.completed.

(** The commands that change the destination or fetch message bodies. *)
Definition moves_mail (e : event) : bool :=
  match e with
  | ECreate _ | ESubscribe _ | EAppend _ _ _ _ | EFetchFull _ => true
  | _ => false
  end.

(** What the transfer counts. *)
Definition transfer_counters (m : Mem)
  : nat * nat * nat * list ErrorRecord :=
  (copied_mails (stats m), copied_folders (stats m), processed (stats m),
   errors (stats m)).

(** The items each metadata FETCH asks for (lines 313 and 367-372). *)
Definition fetch_items_ok (a : Args) (e : event) : Prop :=
  match e with
  | EFetchMeta Source _ items => items = ["RFC822.SIZE"; "ENVELOPE"]
  | EFetchMeta Destination _ items =>
      items = if incremental a then ["RFC822.SIZE"; "ENVELOPE"]
              else ["RFC822.SIZE"]
  | _ => True
  end.

Definition is_subscribe (e : event) : bool :=
  match e with ESubscribe _ => true | _ => false end.

Definition is_logout (e : event) : bool :=
  match e with ELogout _ => true | _ => false end.

Definition is_print (e : event) : bool :=
  match e with EPrint _ => true | _ => false end.

Definition is_exit (e : exn) : bool :=
  match e with SystemExit _ => true | _ => false end.

(** What the quota gate sends and prints when it compares the two
    quotas. *)
Definition quota_gate_event (e : event) : bool :=
  match e with
  | EGetQuota Destination | EPrint (OutInsufficientQuota _ _)
  | EPrint OutQuotaIgnoring => true
  | _ => false
  end.

(** A destination account without any folder. *)
Definition empty_destination : World :=
  Sample.world (Sample.server (Sample.inbox [Sample.mail 1 1000 []]))
               (Sample.server []) Sample.always_ok Sample.completed.

(** A destination where the source's folder is still to be created, and
    the default options with a size limit and without SUBSCRIBE. *)
Definition fresh_destination : World :=
  Sample.world (Sample.server (Sample.inbox [Sample.mail 1 1000 []]))
               (Sample.server [(([], Some "/", "Other"), [])])
               Sample.always_ok Sample.completed.

Definition without_subscribe : Args :=
  {| dry_run := false; list_mode := false; incremental := false;
     abort_on_error := false; buffer_size := Some 50;
     denied_flags_arg := None; redirect := None; ignore_quota := false;
     ignore_folder_flags := false; max_line_length := None;
     max_mail_size := Some 10000000; skip_empty_folders := false;
     ssl_no_verify := false;
     source_user := "alice"; source_pass := "secret";
     source_server := "imap.old.example"; source_encryption := "ssl";
     source_port := 993; source_root := ""; source_mailbox := [];
     destination_user := "alice"; destination_pass := "secret";
     destination_server := "imap.new.example";
     destination_encryption := "ssl"; destination_port := 993;
     destination_root := ""; destination_root_merge := false;
     destination_no_subscribe := true |}.

(** A source whose first folder comes with a NIL hierarchy delimiter. *)
Definition flat_source : World :=
  Sample.world
    (Sample.server [(([], None, "INBOX"), [Sample.mail 1 1000 []])])
    (Sample.server (Sample.inbox [])) Sample.always_ok Sample.completed.

(** The elements of [l] whose lowercase form is [k], in their order. *)
Definition same_key (k : string) (l : list string) : list string :=
  filter (fun y => String.eqb (Py.lower y) k) l.

(** [--destination-root Archive --destination-root-merge] *)
Definition under_archive : Args :=
  {| dry_run := false; list_mode := false; incremental := false;
     abort_on_error := false; buffer_size := Some 50;
     denied_flags_arg := None; redirect := None; ignore_quota := false;
     ignore_folder_flags := false; max_line_length := None;
     max_mail_size := Some 10000000; skip_empty_folders := false;
     ssl_no_verify := false;
     source_user := "alice"; source_pass := "secret";
     source_server := "imap.old.example"; source_encryption := "ssl";
     source_port := 993; source_root := ""; source_mailbox := [];
     destination_user := "alice"; destination_pass := "secret";
     destination_server := "imap.new.example";
     destination_encryption := "ssl"; destination_port := 993;
     destination_root := "Archive"; destination_root_merge := true;
     destination_no_subscribe := false |}.

(** [I] holds after [m], however [m] ends, when it held before. *)
Definition invariant (I : Mem -> Prop) {A} (m : M A) : Prop :=
  forall st r st', I (mem st) -> m st = (r, st') -> I (mem st').

(** Every folder of the manifest was asked for with [--source-mailbox]. *)
Definition manifest_within (a : Args) (m : Mem) : Prop :=
  Forall (fun k => In k (source_mailbox a)) (Dict.keys (db_source m)).

(** A command line for the examples: [--source-mailbox], [--incremental],
    [--abort-on-error], [--skip-empty-folders], [--max-line-length] and
    [--redirect] as given, a size limit of 10 MB, the defaults elsewhere. *)
Definition options (mailboxes : list string)
  (incr abort skip_empty : bool) (line_length : option Z)
  (rules : option (list string)) : Args :=
  {| dry_run := false; list_mode := false; incremental := incr;
     abort_on_error := abort; buffer_size := Some 50;
     denied_flags_arg := None; redirect := rules; ignore_quota := false;
     ignore_folder_flags := false; max_line_length := line_length;
     max_mail_size := Some 10000000; skip_empty_folders := skip_empty;
     ssl_no_verify := false;
     source_user := "alice"; source_pass := "secret";
     source_server := "imap.old.example"; source_encryption := "ssl";
     source_port := 993; source_root := ""; source_mailbox := mailboxes;
     destination_user := "alice"; destination_pass := "secret";
     destination_server := "imap.new.example";
     destination_encryption := "ssl"; destination_port := 993;
     destination_root := ""; destination_root_merge := false;
     destination_no_subscribe := false |}.

(** A source with two folders. *)
Definition two_folders : World :=
  Sample.world
    (Sample.server [(([], Some "/", "INBOX"), [Sample.mail 1 1000 []]);
                    (([], Some "/", "Lists"), [Sample.mail 1 2000 []])])
    (Sample.server (Sample.inbox [])) Sample.always_ok Sample.completed.

(** The buffers recorded for folder [name], if it is in the manifest. *)
Definition buffers_of (name : string) (m : Mem) : option (list (list Z)) :=
  option_map sf_buffer (sget name (db_source m)).

(** A slice [mails[:buffer_size]]: not empty, and no longer than the
    buffer size. *)
Definition fits_buffer (a : Args) (b : list Z) : Prop :=
  b <> [] /\
  match buffer_size a with
  | Some n => Z.of_nat (List.length b) <= n
  | None => True
  end.

(** The script's state when the source folder INBOX has just been entered
    in the manifest. *)
Definition inbox_open : State :=
  {| mem := with_db_source (sset "INBOX" (new_source_folder [])) mem0;
     trace := [] |}.

(** The script's state with the given source folders in the manifest. *)
Definition listed (names : list string) : State :=
  {| mem := with_db_source
              (fun _ => map (fun n => (n, new_source_folder [])) names) mem0;
     trace := [] |}.

(** A source whose only message comes without ENVELOPE. *)
Definition only_without_envelope : World :=
  Sample.world
    (Sample.server (Sample.inbox [Sample.no_envelope (Sample.mail 1 1000 [])]))
    (Sample.server (Sample.inbox [])) Sample.always_ok Sample.completed.

(** CREATE succeeds and SUBSCRIBE is refused. *)
Definition no_subscription : World :=
  {| w_connect := fun _ _ => Ok tt;
     w_starttls := fun _ _ => Ok tt;
     w_login := fun _ _ _ _ => Ok tt;
     w_has_capability := fun _ _ _ => Ok false;
     w_get_quota := fun _ _ => Ok [];
     w_list_folders := fun _ s _ =>
       Ok [([], Some "/", match s with Source => "INBOX"
                                     | Destination => "Other" end)];
     w_select := fun _ _ _ => Ok tt;
     w_search := fun _ s =>
       Ok (match s with Source => [1] | Destination => [] end);
     w_fetch_meta := fun _ _ uids =>
       Ok (map (fun u => (u, {| md_size := Some 1000;
                                md_envelope :=
                                  Some {| subject := Some "hello";
                                          message_id := Some "<1@example>" |} |}))
               uids);
     w_fetch_full := fun _ uids =>
       Ok (map (fun u => (u, {| fd_flags := Some ["\Seen"];
                                fd_rfc822 := Some "Subject: hello";
                                fd_internaldate := Some 1700000000 |}))
               uids);
     w_idle := fun _ _ => Ok tt;
     w_idle_done := fun _ _ => Ok tt;
     w_create := fun _ _ => Ok tt;
     w_subscribe := fun _ _ => Fail (ImapError "NO subscription refused");
     w_append := fun _ _ _ _ _ => Ok "[APPENDUID 1 1] Append completed.";
     w_logout := fun _ _ => Ok tt;
     decode_mime := fun s => s;
     beautysized := fun _ => "" |}.

(** The memory after a message was skipped as already existing. *)
Definition skipped_as_existing (m : Mem) : Mem :=
  with_stats incr_processed
    (with_stats (with_skipped_mails incr_skm_already_exists) m).

(** A destination folder that holds one message with the given
    Message-ID. *)
Definition holding (folder : string) (msg_id : option string) : State :=
  {| mem := with_db_destination
              (fun _ => [(folder,
                          {| df_flags := [];
                             df_mails := [(1, {| dm_size := 1000;
                                                 dm_msg_id := Some msg_id |})];
                             df_size := 1000 |})]) mem0;
     trace := [] |}.

(** The script's state once one source message has been counted. *)
Definition one_counted : State :=
  {| mem := with_stats incr_source_mails mem0; trace := [] |}.

(** The error entries written by the handler of a failed APPEND (lines
    588-607): those with an [IMAPClientError]. *)
Definition is_append_failure (r : ErrorRecord) : bool :=
  match err_exception r with
  | IMAPClientError _ => true
  | _ => false
  end.

Definition append_failures (m : Mem) : nat :=
  List.length (filter is_append_failure (errors (stats m))).

(** No failed APPEND so far, and at most one when an exception leaves. *)
Definition aborting {A} (m : M A) : Prop :=
  triple (fun x => append_failures x = 0%nat) m
         (fun _ x => append_failures x = 0%nat)
         (fun x => append_failures x = 0%nat)
         (fun _ x => (append_failures x <= 1)%nat).

(** A source with the QUOTA capability that reports no limit. *)
Definition unlimited_source : World :=
  Sample.world (Sample.with_quota 10000 0 (Sample.inbox [Sample.mail 1 1000 []]))
               (Sample.server (Sample.inbox []))
               Sample.always_ok Sample.completed.

(** Source folders the transfer has counted: as copied, as already
    existing, or as skipped because empty. *)
Definition folders_done (m : Mem) : nat :=
  (copied_folders (stats m)
   + skf_already_exists (skipped_folders (stats m))
   + skf_empty (skipped_folders (stats m)))%nat.

(** At most [n] folders counted, the manifest being [db]. *)
Definition folders_counted (db : sdict SourceFolder) (n : nat) (m : Mem)
  : Prop :=
  (folders_done m <= n)%nat /\ db_source m = db.

(** No more folders counted than the manifest holds. *)
Definition folders_within (m : Mem) : Prop :=
  (folders_done m <= List.length (db_source m))%nat.

(** What the folder count depends on. *)
Definition folder_core (m : Mem) : nat * sdict SourceFolder :=
  (folders_done m, db_source m).

(* ================================================================= *)
(** ** The IDLE discipline *)

(** The connection a command goes to; printing goes to none. *)
Definition side_of (e : event) : option side :=
  match e with
  | EConnect s _ _ _ _ | EStartTLS s | ELogin s _ _ | EHasCapability s _
  | EGetQuota s | EListFolders s _ | ESelect s _ | ESearch s
  | EFetchMeta s _ _ | EIdle s | EIdleDone s | ELogout s => Some s
  | EFetchFull _ => Some Source
  | ECreate _ | ESubscribe _ | EAppend _ _ _ _ => Some Destination
  | EPrint _ => None
  end.

(** Which connections are idling: the source, the destination. *)
Definition idling (s : side) (i : bool * bool) : bool :=
  match s with Source => fst i | Destination => snd i end.

Definition set_idling (s : side) (b : bool) (i : bool * bool) : bool * bool :=
  match s with Source => (b, snd i) | Destination => (fst i, b) end.

(** One command: IDLE is entered on a connection that is not idling and
    left with DONE on one that is; any other command needs a connection
    that is not idling.  [None]: the command is out of place. *)
Definition idle_step (i : bool * bool) (e : event) : option (bool * bool) :=
  match e with
  | EIdle s => if idling s i then None else Some (set_idling s true i)
  | EIdleDone s => if idling s i then Some (set_idling s false i) else None
  | _ =>
      match side_of e with
      | Some s => if idling s i then None else Some i
      | None => Some i
      end
  end.

Fixpoint idle_run (i : bool * bool) (t : list event) : option (bool * bool) :=
  match t with
  | [] => Some i
  | e :: t' =>
      match idle_step i e with
      | Some i' => idle_run i' t'
      | None => None
      end
  end.

(** The trace so far keeps the discipline and leaves the connections
    in [i]. *)
Definition idle_at (i : bool * bool) (st : State) : Prop :=
  idle_run (false, false) (trace st) = Some i.

(** From [P], the computation [m] keeps the discipline and leaves the
    connections in [N] when it returns, in [C] at a [continue], in a state
    of [X] when it raises or does not end; it does not [break]. *)
Definition flows {A} (P : bool * bool) (m : M A) (N C : bool * bool)
  (X : bool * bool -> Prop) : Prop :=
  forall st r st', idle_at P st -> m st = (r, st') ->
    exists i, idle_at i st' /\
              match r with
              | Normal _ => i = N
              | Continue => i = C
              | Raise _ | Diverge => X i
              | Break => False
              end.

(** The subject stored for a message (lines 317-320). *)
Definition stored_subject (w : World) (envelope : Envelope) : string :=
  match subject envelope with
  | Some (String _ _ as s) => decode_mime w s
  | _ => "(no subject)"
  end.

(** A source with an empty folder next to INBOX. *)
Definition with_empty_folder : World :=
  Sample.world
    (Sample.server [(([], Some "/", "INBOX"), [Sample.mail 1 1000 []]);
                    (([], Some "/", "Empty"), [])])
    (Sample.server (Sample.inbox [])) Sample.always_ok Sample.completed.
(* ================================================================= *)
(** * Properties *)

(** ** Strings *)

Example replace_delims :
  Py.replace "Work.Projects.Foo" "." "/" = "Work/Projects/Foo".
Proof. reflexivity. Qed.

Example replace_empty_old : Py.replace "abc" "" "-" = "-a-b-c-".
Proof. reflexivity. Qed.

Example replace_nonoverlap : Py.replace "aaa" "aa" "b" = "ba".
Proof. reflexivity. Qed.

Example split_commas : Py.split "," "seen,recent" = ["seen"; "recent"].
Proof. reflexivity. Qed.

Example split_empty : Py.split "," "" = [""].
Proof. reflexivity. Qed.

Example take_negative : Py.take (Some (-1)) [1; 2; 3] = [1; 2].
Proof. reflexivity. Qed.

Lemma lower_ascii_idem (c : ascii) :
  Py.lower_ascii (Py.lower_ascii c) = Py.lower_ascii c.
Proof. destruct c as [[] [] [] [] [] [] [] []]; reflexivity. Qed.

Lemma lower_idem (s : string) : Py.lower (Py.lower s) = Py.lower s.
Proof.
  induction s as [|c s IH]; simpl; [reflexivity|].
  now rewrite lower_ascii_idem, IH.
Qed.


Lemma lowered_cons (c : ascii) (s : string) :
  lowered (String c s) <-> Py.lower_ascii c = c /\ lowered s.
Proof.
  unfold lowered; simpl; split.
  - intros H; injection H; auto.
  - intros [-> ->]; reflexivity.
Qed.

Lemma split_lowered (c : ascii) (s : string) :
  lowered s -> Forall lowered (Py.split c s).
Proof.
  induction s as [|a s IH]; simpl; intros H.
  - repeat constructor.
  - apply lowered_cons in H as [Ha Hs]. specialize (IH Hs).
    destruct (Ascii.eqb a c).
    + constructor; [reflexivity | exact IH].
    + destruct (Py.split c s) as [|h t].
      * constructor; [|constructor]. apply lowered_cons; split; [exact Ha | reflexivity].
      * inversion IH; subst. constructor; [|assumption].
        apply lowered_cons; auto.
Qed.

Lemma mem_string_In (x : string) (l : list string) :
  Py.mem_string x l = true <-> In x l.
Proof.
  unfold Py.mem_string. rewrite existsb_exists. split.
  - intros [y [Hy E]]. apply String.eqb_eq in E. now subst.
  - intros H. exists x. split; [exact H | apply String.eqb_refl].
Qed.

Lemma mem_string_not_In (x : string) (l : list string) :
  Py.mem_string x l = false <-> ~ In x l.
Proof.
  rewrite <- mem_string_In. destruct (Py.mem_string x l); split; congruence.
Qed.


Lemma replace_one_char (c : ascii) (new s : string) :
  Py.replace s (String c EmptyString) new = subst_char c new s.
Proof.
  unfold Py.replace.
  induction s as [|a s IH]; [reflexivity|].
  cbn [Py.replace_from Py.startswith subst_char String.length Nat.sub].
  rewrite andb_true_r.
  destruct (Ascii.eqb a c); now rewrite IH.
Qed.

(** ** Denied flags *)

Lemma denied_flags_lowered (a : Args) :
  Forall lowered (denied_flags a).
Proof.
  unfold denied_flags. apply Forall_app. split.
  - repeat constructor.
  - destruct (denied_flags_arg a) as [[|c s]|]; try constructor.
    apply Forall_forall. intros d Hd. apply in_map_iff in Hd as [t [<- Ht]].
    pose proof (split_lowered "," (lower_idem (String c s))) as Hall.
    rewrite Forall_forall in Hall. specialize (Hall t Ht).
    unfold lowered in *. simpl. now rewrite Hall.
Qed.

Lemma append_flags_In (denied flags : list string) (f : string) :
  In f (append_flags denied flags) <->
  In f flags /\ ~ In (Py.lower f) denied.
Proof.
  unfold append_flags. rewrite filter_In, negb_true_iff, mem_string_not_In.
  reflexivity.
Qed.

(** ** Folder mapping *)


Lemma first_with_flag_some fl dst name :
  first_with_flag fl dst = Some name ->
  exists f, In (name, f) dst /\ In fl (df_flags f).
Proof.
  induction dst as [|[n f] dst IH]; simpl; [discriminate|].
  destruct (Py.mem_string fl (df_flags f)) eqn:E.
  - intros [= <-]. exists f. split; [now left | now apply mem_string_In].
  - intros H. destruct (IH H) as [f' [Hin Hfl]]. exists f'. auto.
Qed.

Lemma first_with_flag_none fl dst :
  first_with_flag fl dst = None ->
  forall name f, In (name, f) dst -> ~ In fl (df_flags f).
Proof.
  induction dst as [|[n f] dst IH]; simpl; [tauto|].
  destruct (Py.mem_string fl (df_flags f)) eqn:E; [discriminate|].
  intros H name f' [[= <- <-]|Hin].
  - now apply mem_string_not_In.
  - now apply (IH H name).
Qed.

Lemma shares_special_cons fl flags dst name :
  shares_special flags dst name -> shares_special (fl :: flags) dst name.
Proof.
  intros [x [f [H1 H2]]]. exists x, f. split; [now right | exact H2].
Qed.

Lemma link_special_keeps_or_links flags dst d :
  link_special flags dst d = d \/
  shares_special flags dst (link_special flags dst d).
Proof.
  revert d. induction flags as [|fl flags IH]; intros d;
    cbn [link_special]; [now left|].
  destruct (Py.mem_string fl SPECIAL_FOLDER_FLAGS) eqn:Esp.
  - destruct (first_with_flag fl dst) as [name|] eqn:Efw.
    + destruct (IH name) as [-> | H].
      * right. destruct (first_with_flag_some _ _ Efw) as [f [Hin Hfl]].
        exists fl, f. repeat split; auto; [now left | now apply mem_string_In].
      * right. now apply shares_special_cons.
    + destruct (IH d) as [-> | H]; [now left | right].
      now apply shares_special_cons.
  - destruct (IH d) as [-> | H]; [now left | right].
    now apply shares_special_cons.
Qed.

Lemma link_special_links flags dst d :
  (exists name, shares_special flags dst name) ->
  shares_special flags dst (link_special flags dst d).
Proof.
  revert d. induction flags as [|fl flags IH]; intros d [name Hs].
  - destruct Hs as [x [f [[] _]]].
  - destruct Hs as [x [f [Hx [Hsp [Hin Hfl]]]]]. cbn [link_special].
    destruct Hx as [<- | Hx].
    + apply mem_string_In in Hsp. rewrite Hsp.
      destruct (first_with_flag fl dst) as [n|] eqn:Efw.
      * destruct (link_special_keeps_or_links flags dst n) as [-> | H].
        -- destruct (first_with_flag_some _ _ Efw) as [f' [Hin' Hfl']].
           exists fl, f'. repeat split; auto; [now left | now apply mem_string_In].
        -- now apply shares_special_cons.
      * exfalso. exact (first_with_flag_none _ _ Efw name f Hin Hfl).
    + apply shares_special_cons. apply IH. exists name, x, f. auto.
Qed.

Lemma link_special_no_link flags dst d :
  ~ (exists name, shares_special flags dst name) ->
  link_special flags dst d = d.
Proof.
  intros H. destruct (link_special_keeps_or_links flags dst d) as [E | Hs];
    [exact E | exfalso; apply H; eauto].
Qed.

(** C2. The destination name of a source folder [S]: an explicit
    redirection for [S] wins; otherwise, with folder flags in use, the name
    of a destination folder sharing a special-use flag with [S] when there
    is one; otherwise [S] with the source delimiter rewritten to the
    destination delimiter, prefixed with root and delimiter when a root is
    configured and merging is off or the rewritten name is neither the root
    nor below it. *)
Theorem folder_mapping_precedence :
  forall (a : Args) (d_s d_d : string) (dst : sdict DestFolder)
         (redir : sdict string) (S : string) (flags : list string),
    let rewritten := Py.replace S d_s d_d in
    let R := destination_root a in
    let prefixed :=
      if (negb (String.eqb R "")
          && (negb (destination_root_merge a)
              || (negb (String.eqb rewritten R)
                  && negb (Py.startswith rewritten (R ++ d_d)))))%bool
      then R ++ d_d ++ rewritten else rewritten in
    let F := map_folder a d_s d_d dst redir S flags in
    (forall target, sget S redir = Some target -> F = target) /\
    (sget S redir = None -> ignore_folder_flags a = false ->
     (exists name, shares_special flags dst name) ->
     shares_special flags dst F) /\
    (sget S redir = None ->
     ignore_folder_flags a = true \/
     ~ (exists name, shares_special flags dst name) ->
     F = prefixed) /\
    (forall c, d_s = String c EmptyString -> rewritten = subst_char c d_d S).
Proof.
  intros a d_s d_d dst redir S flags rewritten R prefixed F.
  assert (Hroot : add_destination_root a d_d rewritten = prefixed).
  { unfold add_destination_root, prefixed, R.
    destruct (destination_root a) as [|c r] eqn:E; [reflexivity|].
    cbn [String.eqb negb andb].
    rewrite (andb_comm (negb (Py.startswith _ _))). reflexivity. }
  unfold F, map_folder. fold rewritten. rewrite Hroot.
  repeat split.
  - intros target ->. reflexivity.
  - intros -> -> Hex. cbn [negb]. now apply link_special_links.
  - intros -> [-> | Hno]; cbn [negb]; [reflexivity|].
    destruct (ignore_folder_flags a); cbn [negb]; [reflexivity|].
    now apply link_special_no_link.
  - intros c ->. apply replace_one_char.
Qed.

Lemma folder_mapping_witness :
  shares_special ["\HasNoChildren"; "\Sent"]
    [("INBOX", {| df_flags := []; df_mails := []; df_size := 0 |});
     ("Sent Items", {| df_flags := ["\Sent"]; df_mails := []; df_size := 0 |})]
    (map_folder Sample.defaults "." "/"
       [("INBOX", {| df_flags := []; df_mails := []; df_size := 0 |});
        ("Sent Items", {| df_flags := ["\Sent"]; df_mails := []; df_size := 0 |})]
       [] "Gesendet" ["\HasNoChildren"; "\Sent"]).
Proof.
  apply (proj1 (proj2 (folder_mapping_precedence Sample.defaults "." "/"
           [("INBOX", {| df_flags := []; df_mails := []; df_size := 0 |});
            ("Sent Items",
             {| df_flags := ["\Sent"]; df_mails := []; df_size := 0 |})]
           [] "Gesendet" ["\HasNoChildren"; "\Sent"]))).
  - reflexivity.
  - reflexivity.
  - exists "Sent Items", "\Sent",
      {| df_flags := ["\Sent"]; df_mails := []; df_size := 0 |}.
    simpl. tauto.
Defined.

Example mapping_rewrites_delimiter :
  map_folder Sample.defaults "." "/" [] [] "Work.Projects.Foo" [] =
  "Work/Projects/Foo".
Proof. reflexivity. Qed.

Example mapping_links_sent :
  map_folder Sample.defaults "." "/"
    [("Sent Items", {| df_flags := ["\Sent"]; df_mails := []; df_size := 0 |})]
    [] "Gesendet" ["\Sent"] = "Sent Items".
Proof. reflexivity. Qed.

Example mapping_redirection_wins :
  map_folder Sample.defaults "." "/"
    [("Sent Items", {| df_flags := ["\Sent"]; df_mails := []; df_size := 0 |})]
    [("Gesendet", "Archive/Sent")] "Gesendet" ["\Sent"] = "Archive/Sent".
Proof. reflexivity. Qed.

(** ** Ports *)

Lemma namespace_has_no_dashed_key :
  namespace_contains "source-port" = false /\
  namespace_contains "destination-port" = false.
Proof. split; reflexivity. Qed.

Lemma default_ports_always (a : Args) :
  source_port (apply_default_ports a) = default_port (source_encryption a) /\
  destination_port (apply_default_ports a) =
    default_port (destination_encryption a).
Proof. split; reflexivity. Qed.

(** C6. With [--source-port 1143 --destination-port 1143] and the default
    [ssl] encryption the script replaces both ports by 993 and connects
    there: the port given on the command line is not used. *)
Theorem explicit_port_overridden :
  source_port Sample.explicit_ports = 1143 /\
  destination_port Sample.explicit_ports = 1143 /\
  source_port (apply_default_ports Sample.explicit_ports) = 993 /\
  destination_port (apply_default_ports Sample.explicit_ports) = 993 /\
  firstn 2 (trace (snd (run Sample.one_mail Sample.explicit_ports))) =
    [EConnect Source "imap.old.example" 993 true false;
     EConnect Destination "imap.new.example" 993 true false].
Proof. repeat split; vm_compute; reflexivity. Qed.

(** ** The size limit *)

Lemma skip_ladder_without_limit (w : World) (a : Args) (df_name : string)
  (msg_id : option string) (size : Z) (subject : string)
  (flags : list string) (msg : string) (date : Z) (st : State) :
  max_mail_size a = None -> size <> 0 ->
  skip_ladder w a df_name msg_id size subject flags msg date st =
  (Raise TypeError, st).
Proof.
  intros Hnone Hsize. unfold skip_ladder.
  apply Z.eqb_neq in Hsize. rewrite Hsize, Hnone. reflexivity.
Qed.

Lemma skip_ladder_over_limit (w : World) (a : Args) (df_name : string)
  (msg_id : option string) (size limit : Z) (subject : string)
  (flags : list string) (msg : string) (date : Z) (st : State) :
  max_mail_size a = Some limit -> size <> 0 -> limit < size ->
  skip_ladder w a df_name msg_id size subject flags msg date st =
  (Normal tt,
   {| mem := with_stats
               (fun s => incr_processed
                           (with_skipped_mails incr_skm_max_size s))
               (mem st);
      trace := trace st |}).
Proof.
  intros Hlimit Hsize Hover. unfold skip_ladder.
  apply Z.eqb_neq in Hsize. apply Z.ltb_lt in Hover.
  rewrite Hsize, Hlimit. unfold bind, ret, modify. now rewrite Hover.
Qed.

(** C5. Without [--max-mail-size], a source folder with one message of
    1000 bytes: the comparison of the ladder raises [TypeError], nothing is
    appended or counted, and the run ends there with a non-zero status. *)
Theorem no_size_limit_fails :
  max_mail_size Sample.defaults = None /\
  fst (run Sample.one_mail Sample.defaults) = Raise TypeError /\
  exit_status (fst (run Sample.one_mail Sample.defaults)) = Some 1 /\
  (forall folder msg flags date,
      ~ In (EAppend folder msg flags date)
           (trace (snd (run Sample.one_mail Sample.defaults)))) /\
  copied_mails (stats (mem (snd (run Sample.one_mail Sample.defaults)))) = 0%nat /\
  processed (stats (mem (snd (run Sample.one_mail Sample.defaults)))) = 0%nat.
Proof.
  repeat split; try (vm_compute; reflexivity).
  intros folder msg flags date. vm_compute.
  intuition discriminate.
Qed.

(* ================================================================= *)
(** ** Traces: what a computation may send and raise *)

Lemma extends_refl P st : extends P st st.
Proof. exists []. split; [now rewrite app_nil_r | constructor]. Qed.

Lemma extends_trans P st1 st2 st3 :
  extends P st1 st2 -> extends P st2 st3 -> extends P st1 st3.
Proof.
  intros [n1 [E1 F1]] [n2 [E2 F2]]. exists (n1 ++ n2)%list. split.
  - now rewrite E2, E1, app_assoc.
  - apply Forall_app; auto.
Qed.

Lemma extends_one (P : event -> Prop) st e :
  P e -> extends P st {| mem := mem st; trace := (trace st ++ [e])%list |}.
Proof. intros H. exists [e]. split; [reflexivity | now constructor]. Qed.

Lemma extends_mem P st m :
  extends P st {| mem := m; trace := trace st |}.
Proof. exists []. split; [simpl; now rewrite app_nil_r | constructor]. Qed.

Lemma extends_weaken (P Q : event -> Prop) st st' :
  (forall e, P e -> Q e) -> extends P st st' -> extends Q st st'.
Proof.
  intros H [n [E F]]. exists n. split; [exact E|].
  eapply Forall_impl; eauto.
Qed.

Section SafeRules.

Variable P : event -> Prop.

Lemma safe_weaken (E E' : exn -> Prop) A (m : M A) :
  (forall e, E e -> E' e) -> safe P E m -> safe P E' m.
Proof.
  intros H Hm st r st' Hrun. destruct (Hm _ _ _ Hrun) as [Hx He].
  split; [exact Hx | intros e ->; apply H, He; reflexivity].
Qed.

Lemma safe_ret E A (a : A) : safe P E (ret a).
Proof.
  intros st r st' [= <- <-]. split; [apply extends_refl | discriminate].
Qed.

Lemma safe_raise (E : exn -> Prop) A (e : exn) : E e -> safe P E (@raise A e).
Proof.
  intros He st r st' [= <- <-]. split; [apply extends_refl|].
  now intros e' [= <-].
Qed.

Lemma safe_exit (E : exn -> Prop) A p :
  E (SystemExit p) -> safe P E (@exit A p).
Proof. apply safe_raise. Qed.

Lemma safe_continue E A : safe P E (@continue A).
Proof.
  intros st r st' [= <- <-]. split; [apply extends_refl | discriminate].
Qed.

Lemma safe_diverge E A : safe P E (@diverge A).
Proof.
  intros st r st' [= <- <-]. split; [apply extends_refl | discriminate].
Qed.

Lemma safe_gets E A (f : Mem -> A) : safe P E (gets f).
Proof.
  intros st r st' [= <- <-]. split; [apply extends_refl | discriminate].
Qed.

Lemma safe_modify E (f : Mem -> Mem) : safe P E (modify f).
Proof.
  intros st r st' [= <- <-]. split; [apply extends_mem | discriminate].
Qed.

Lemma safe_emit E (e : event) : P e -> safe P E (emit e).
Proof.
  intros He st r st' [= <- <-]. split; [now apply extends_one | discriminate].
Qed.

Lemma safe_print E (o : output) : P (EPrint o) -> safe P E (print o).
Proof. apply safe_emit. Qed.

Lemma safe_call (E : exn -> Prop) A (e : event)
  (answer : list event -> reply A) :
  P e -> (forall f, E (exn_of_failure f)) -> safe P E (call e answer).
Proof.
  intros He Hf st r st'. unfold call.
  destruct (answer (trace st)) as [a|f]; intros [= <- <-];
    (split; [now apply extends_one|]).
  - discriminate.
  - intros e' [= <-]. apply Hf.
Qed.

Lemma safe_bind E A B (m : M A) (k : A -> M B) :
  safe P E m -> (forall a, safe P E (k a)) -> safe P E (bind m k).
Proof.
  intros Hm Hk st r st'. unfold bind.
  destruct (m st) as [ra st1] eqn:Em.
  destruct (Hm _ _ _ Em) as [Hx He].
  destruct ra as [a|e| | |].
  - intros Hrun. destruct (Hk a _ _ _ Hrun) as [Hx' He'].
    split; [eapply extends_trans; eauto | exact He'].
  - intros [= <- <-]. split; [exact Hx|].
    intros e' [= <-]. now apply He.
  - intros [= <- <-]. split; [exact Hx | discriminate].
  - intros [= <- <-]. split; [exact Hx | discriminate].
  - intros [= <- <-]. split; [exact Hx | discriminate].
Qed.

Lemma safe_try_except (E1 E : exn -> Prop) A (m : M A) (sel : exn -> bool)
  (h : exn -> M A) :
  safe P E1 m ->
  (forall e, E1 e -> sel e = true -> safe P E (h e)) ->
  (forall e, E1 e -> sel e = false -> E e) ->
  safe P E (try_except m sel h).
Proof.
  intros Hm Hh Hpass st r st'. unfold try_except.
  destruct (m st) as [ra st1] eqn:Em.
  destruct (Hm _ _ _ Em) as [Hx He].
  destruct ra as [a|e| | |]; try (intros [= <- <-]; split;
                                  [exact Hx | discriminate]).
  specialize (He e eq_refl).
  destruct (sel e) eqn:Es.
  - intros Hrun. destruct (Hh e He Es _ _ _ Hrun) as [Hx' He'].
    split; [eapply extends_trans; eauto | exact He'].
  - intros [= <- <-]. split; [exact Hx|].
    intros e' [= <-]. now apply Hpass.
Qed.

Lemma safe_try_finally E A (m : M A) (c : M unit) :
  safe P E m -> safe P E c -> safe P E (try_finally m c).
Proof.
  intros Hm Hc st r st'. unfold try_finally.
  destruct (m st) as [ra st1] eqn:Em.
  destruct (Hm _ _ _ Em) as [Hx He].
  destruct (c st1) as [rc st2] eqn:Ec.
  destruct (Hc _ _ _ Ec) as [Hx' He'].
  pose proof (extends_trans Hx Hx') as Hx2.
  destruct ra as [a|e| | |]; destruct rc as [u|e'| | |];
    intros [= <- <-];
    (split; [first [exact Hx2 | exact Hx] |
             first [discriminate
                   | intros e0 [= <-]; first [now apply He | now apply He']]]).
Qed.

Lemma safe_for_each E A (l : list A) (body : A -> M unit) :
  (forall x, In x l -> safe P E (body x)) -> safe P E (for_each l body).
Proof.
  induction l as [|x l IH]; intros Hb; cbn [for_each].
  - apply safe_ret.
  - intros st r st'.
    destruct (body x st) as [rb st1] eqn:Eb.
    destruct (Hb x (or_introl eq_refl) _ _ _ Eb) as [Hx He].
    assert (IH' : safe P E (for_each l body))
      by (apply IH; intros y Hy; apply Hb; now right).
    destruct rb as [u|e| | |].
    + intros Hrun. destruct (IH' _ _ _ Hrun) as [Hx' He'].
      split; [eapply extends_trans; eauto | exact He'].
    + intros [= <- <-]. split; [exact Hx|]. intros e' [= <-]. now apply He.
    + intros Hrun. destruct (IH' _ _ _ Hrun) as [Hx' He'].
      split; [eapply extends_trans; eauto | exact He'].
    + intros [= <- <-]. split; [exact Hx | discriminate].
    + intros [= <- <-]. split; [exact Hx | discriminate].
Qed.

Lemma safe_when E (b : bool) (m : M unit) :
  safe P E m -> safe P E (when b m).
Proof. intros H. destruct b; [exact H | apply safe_ret]. Qed.

End SafeRules.

Lemma safe_try_except_same P E A (m : M A) (sel : exn -> bool)
  (h : exn -> M A) :
  safe P E m -> (forall e, safe P E (h e)) -> safe P E (try_except m sel h).
Proof.
  intros Hm Hh. apply safe_try_except with (E1 := E); auto.
Qed.

Lemma prepare_exn_failure (f : failure) : prepare_exn (exn_of_failure f).
Proof. destruct f; exact I. Qed.

Ltac safe_structure :=
  first
    [ apply safe_ret | apply safe_continue | apply safe_diverge
    | apply safe_gets | apply safe_modify
    | apply safe_bind; [|intros ?]
    | apply safe_when
    | apply safe_try_except_same; [|intros ?]
    | apply safe_try_finally
    | apply safe_for_each; intros ? _
    | match goal with
      | |- safe _ _ (if ?b then _ else _) => destruct b
      | |- safe _ _ (match ?x with _ => _ end) => destruct x
      end ].

Lemma session_event_prepare (e : event) : session_event e -> prepare_event e.
Proof. destruct e; simpl; tauto. Qed.

Lemma prepare_event_read_only (e : event) : prepare_event e -> read_only e.
Proof.
  destruct e as [| | | | | | | | | | | | | | | |o]; simpl; try tauto;
    try reflexivity.
Qed.

(** *** Sessions and quota *)

Lemma session_exn_prepare (e : exn) : session_exn e -> prepare_exn e.
Proof. destruct e as [[]| | | | | | | | | |]; simpl; tauto. Qed.

Lemma session_exn_failure (f : failure) : session_exn (exn_of_failure f).
Proof. destruct f; exact I. Qed.

Section SessionSafe.

Variables (w : World) (a : Args).
Variables (P : event -> Prop) (E : exn -> Prop).
Hypothesis P_session : forall e, session_event e -> P e.
Hypothesis E_session : forall e, session_exn e -> E e.

Ltac leaf :=
  first
    [ apply safe_call;
      [ apply P_session; exact I
      | intros ?; apply E_session, session_exn_failure ]
    | apply safe_print; apply P_session; exact I
    | apply safe_raise; apply E_session; exact I
    | apply safe_exit; apply E_session; exact I ].

Ltac go := repeat first [ leaf | safe_structure ].

Lemma safe_connect s server port enc : safe P E (connect w a s server port enc).
Proof. unfold connect. go. Qed.

Lemma safe_login c s user pass : safe P E (login w c s user pass).
Proof. unfold login. go. Qed.

Lemma safe_first_quota qs : safe P E (first_quota qs).
Proof. unfold first_quota. go. Qed.

Lemma safe_check_quota : safe P E (check_quota w a).
Proof. unfold check_quota. go; try apply safe_first_quota. Qed.

Lemma safe_open_sessions : safe P E (open_sessions w a).
Proof.
  unfold open_sessions.
  repeat first [ apply safe_connect | apply safe_login | leaf | safe_structure ].
Qed.

End SessionSafe.

(** *** The part before the list-mode exit *)

Section PrepareSafe.

Variables (w : World) (a : Args).
Variables (P : event -> Prop) (E : exn -> Prop).
Hypothesis P_prepare : forall e, prepare_event e -> P e.
Hypothesis E_prepare : forall e, prepare_exn e -> E e.

Ltac leaf :=
  first
    [ apply safe_call;
      [ apply P_prepare; exact I
      | intros ?; apply E_prepare, prepare_exn_failure ]
    | apply safe_print; apply P_prepare; exact I
    | apply safe_raise; apply E_prepare; exact I
    | apply safe_exit; apply E_prepare; exact I ].

Ltac go := repeat first [ leaf | safe_structure ].

Ltac from_session :=
  first [ intros ? ?; apply P_prepare, session_event_prepare; assumption
        | intros ? ?; apply E_prepare, session_exn_prepare; assumption ].

Lemma safe_start_imap_idle s : safe P E (start_imap_idle w s).
Proof. unfold start_imap_idle. go. Qed.

Lemma safe_end_imap_idle s : safe P E (end_imap_idle w s).
Proof. unfold end_imap_idle. go. Qed.

Lemma safe_restart_imap_idle s : safe P E (restart_imap_idle w s).
Proof.
  unfold restart_imap_idle. apply safe_bind;
    [apply safe_end_imap_idle | intros; apply safe_start_imap_idle].
Qed.

Lemma safe_decode_delimiter d : safe P E (decode_delimiter d).
Proof. unfold decode_delimiter. go. Qed.

Lemma safe_enumerate_source_mail name row :
  safe P E (enumerate_source_mail w name row).
Proof.
  unfold enumerate_source_mail. destruct row as [mail_id data].
  go; try apply safe_restart_imap_idle.
Qed.

Lemma safe_enumerate_source_buffers fuel name mails :
  safe P E (enumerate_source_buffers w a fuel name mails).
Proof.
  revert mails. induction fuel as [|fuel IH]; intros [|u mails];
    cbn [enumerate_source_buffers]; go;
    try first [apply safe_enumerate_source_mail | apply IH].
Qed.

Lemma safe_enumerate_source_folder row :
  safe P E (enumerate_source_folder w a row).
Proof.
  unfold enumerate_source_folder. destruct row as [[fl d] name].
  go; try first [apply safe_decode_delimiter
                | apply safe_enumerate_source_buffers].
Qed.

Lemma safe_enumerate_source : safe P E (enumerate_source w a).
Proof. unfold enumerate_source. go; try apply safe_enumerate_source_folder. Qed.

Lemma safe_enumerate_destination_mail name row :
  safe P E (enumerate_destination_mail a name row).
Proof.
  unfold enumerate_destination_mail. destruct row as [mail_id data]. go.
Qed.

Lemma safe_enumerate_destination_buffers fuel name mails :
  safe P E (enumerate_destination_buffers w a fuel name mails).
Proof.
  revert mails. induction fuel as [|fuel IH]; intros [|u mails];
    cbn [enumerate_destination_buffers]; go;
    try first [apply safe_enumerate_destination_mail | apply IH].
Qed.

Lemma safe_replace_opt s old new : safe P E (replace_opt s old new).
Proof. unfold replace_opt. go. Qed.

Lemma safe_enumerate_destination_folder row :
  safe P E (enumerate_destination_folder w a row).
Proof.
  unfold enumerate_destination_folder. destruct row as [[fl d] name].
  go; try first [apply safe_decode_delimiter | apply safe_replace_opt
                | apply safe_enumerate_destination_buffers].
Qed.

Lemma safe_enumerate_destination : safe P E (enumerate_destination w a).
Proof.
  unfold enumerate_destination. go; try apply safe_enumerate_destination_folder.
Qed.

Lemma safe_enumerate : safe P E (enumerate w a).
Proof.
  unfold enumerate.
  repeat first
    [ apply safe_start_imap_idle | apply safe_end_imap_idle
    | apply safe_enumerate_source | apply safe_enumerate_destination
    | leaf | safe_structure ].
Qed.

Lemma safe_prepare : safe P E (prepare w a).
Proof.
  unfold prepare.
  repeat first
    [ apply safe_open_sessions; from_session
    | apply safe_check_quota; from_session
    | apply safe_enumerate | safe_structure ].
Qed.

End PrepareSafe.

(** *** The part after the list-mode exit *)

Section ReplicateSafe.

Variables (w : World) (a : Args).
Variable P : event -> Prop.
Hypothesis P_read_only : forall e, read_only e -> P e.
Hypothesis P_create : forall name, P (ECreate name).
Hypothesis P_subscribe : forall name, P (ESubscribe name).
Hypothesis P_append : forall folder msg flags date,
    P (EAppend folder msg (append_flags (denied_flags a) flags) date).

Ltac leaf :=
  first
    [ apply safe_call;
      [ first [ apply P_read_only; reflexivity | apply P_create
              | apply P_subscribe | apply P_append ]
      | intros ?; exact I ]
    | apply safe_print; apply P_read_only; reflexivity
    | apply safe_raise; exact I
    | apply safe_exit; exact I ].

Ltac go := repeat first [ leaf | safe_structure ].

Lemma safe_parse_redirection r : safe P any_exn (parse_redirection r).
Proof. unfold parse_redirection. go. Qed.

Lemma safe_custom_links : safe P any_exn (custom_links a).
Proof.
  unfold custom_links.
  repeat first [ apply safe_parse_redirection | leaf | safe_structure ].
Qed.

Lemma safe_lookup_failed df e msg_id size subject date :
  safe P any_exn (lookup_failed df e msg_id size subject date).
Proof. unfold lookup_failed. go. Qed.

Lemma safe_already_exists df msg_id :
  safe P any_exn (already_exists a df msg_id).
Proof. unfold already_exists. go. Qed.

Lemma safe_append_mail df msg_id size subject flags msg date :
  safe P any_exn (append_mail w a df msg_id size subject flags msg date).
Proof. unfold append_mail. go. Qed.

Lemma safe_skip_ladder df msg_id size subject flags msg date :
  safe P any_exn (skip_ladder w a df msg_id size subject flags msg date).
Proof.
  unfold skip_ladder.
  repeat first [ apply safe_already_exists | apply safe_append_mail
               | leaf | safe_structure ].
Qed.

Lemma safe_transfer_mail sf df row :
  safe P any_exn (transfer_mail w a sf df row).
Proof.
  unfold transfer_mail. destruct row as [mail_id data].
  repeat first [ apply safe_lookup_failed | apply safe_skip_ladder
               | leaf | safe_structure ].
Qed.

Lemma safe_create_folder sf df : safe P any_exn (create_folder w a sf df).
Proof. unfold create_folder. go. Qed.

Lemma safe_transfer_folder name : safe P any_exn (transfer_folder w a name).
Proof.
  unfold transfer_folder.
  repeat first [ apply safe_create_folder | apply safe_transfer_mail
               | leaf | safe_structure ].
Qed.

Lemma safe_transfer : safe P any_exn (transfer w a).
Proof.
  unfold transfer.
  repeat first [ apply safe_transfer_folder | leaf | safe_structure ].
Qed.

Lemma safe_logout s : safe P any_exn (logout w s).
Proof. unfold logout. go. Qed.

Lemma safe_replicate : safe P any_exn (replicate w a).
Proof.
  unfold replicate.
  repeat first
    [ apply safe_custom_links | apply safe_transfer | apply safe_logout
    | apply safe_end_imap_idle;
      [intros ? ?; apply P_read_only, prepare_event_read_only; assumption
      | intros; exact I]
    | leaf | safe_structure ].
Qed.

Lemma safe_list_mode_exit : safe P any_exn (list_mode_exit a).
Proof. unfold list_mode_exit. go. Qed.

Lemma safe_script : safe P any_exn (script w a).
Proof.
  unfold script. apply safe_bind.
  - apply safe_prepare;
      [intros ? ?; apply P_read_only, prepare_event_read_only; assumption
      | intros; exact I].
  - intros _. apply safe_bind;
      [apply safe_list_mode_exit | intros _; apply safe_replicate].
Qed.

End ReplicateSafe.

(** Every event of a run satisfies [P] as soon as the events the script
    can send do. *)
Lemma run_trace_Forall (w : World) (a : Args) (P : event -> Prop) :
  (forall e, read_only e -> P e) ->
  (forall name, P (ECreate name)) ->
  (forall name, P (ESubscribe name)) ->
  (forall folder msg flags date,
      P (EAppend folder msg (append_flags (denied_flags a) flags) date)) ->
  Forall P (trace (snd (run w a))).
Proof.
  intros H1 H2 H3 H4. unfold run.
  destruct (script w (apply_default_ports a) state0) as [r st'] eqn:Erun.
  destruct (@safe_script w (apply_default_ports a) P H1 H2 H3 H4 _ _ _ Erun)
    as [[new [Etr Hall]] _].
  simpl in *. now rewrite Etr.
Qed.

(** ** Denied flags *)

Lemma append_flags_disjoint (denied_arg : Args) (flags : list string) f d :
  In f (append_flags (denied_flags denied_arg) flags) ->
  In d (denied_flags denied_arg) -> Py.lower f <> Py.lower d.
Proof.
  intros Hf Hd Heq. apply append_flags_In in Hf as [_ Hnot]. apply Hnot.
  pose proof (denied_flags_lowered denied_arg) as Hall.
  rewrite Forall_forall in Hall. rewrite Heq, (Hall d Hd). exact Hd.
Qed.

(** C4. The effective denied set is [\recent] alone without
    [--denied-flags], and [\recent] followed by the lowercased,
    backslash-prefixed tokens with it; the flags handed to APPEND are
    exactly the message's flags whose lowercase form is not denied; and in
    every run every APPEND sent carries flags disjoint from the denied set,
    compared case-insensitively. *)
Theorem denied_flags_filtering :
  forall (w : World) (a : Args),
    (denied_flags_arg a = None -> denied_flags a = ["\recent"]) /\
    (forall s, denied_flags_arg a = Some s -> s <> "" ->
       denied_flags a =
       "\recent" :: map (fun t => "\" ++ t) (Py.split "," (Py.lower s))) /\
    (forall flags f,
       In f (append_flags (denied_flags a) flags) <->
       In f flags /\ ~ In (Py.lower f) (denied_flags a)) /\
    Forall (append_filtered (denied_flags a)) (trace (snd (run w a))).
Proof.
  intros w a. split; [|split; [|split]].
  - unfold denied_flags. now intros ->.
  - unfold denied_flags. intros s -> Hs. destruct s; [congruence | reflexivity].
  - intros flags f. apply append_flags_In.
  - apply run_trace_Forall.
    + intros [] H; try exact I; discriminate H.
    + intros; exact I.
    + intros; exact I.
    + intros folder msg flags date f d. apply append_flags_disjoint.
Qed.

Lemma denied_flags_witness :
  denied_flags Sample.denying = ["\recent"; "\seen"; "\recent"].
Proof.
  apply (proj1 (proj2 (denied_flags_filtering Sample.one_mail Sample.denying))
           "Seen,recent").
  - reflexivity.
  - discriminate.
Defined.

Example denied_flags_scenario :
  append_flags ["\recent"; "\seen"; "\recent"] ["\Seen"; "\Flagged"; "\Recent"]
  = ["\Flagged"].
Proof. reflexivity. Qed.

(* ================================================================= *)
(** ** One message *)

Lemma is_success_tokens (status : string) :
  is_success status =
  (Py.contains (Py.lower status) "append completed"
   || Py.contains (Py.lower status) "(success)")%bool.
Proof. unfold is_success, success_messages. simpl. now rewrite orb_false_r. Qed.

Lemma append_mail_result (w : World) (a : Args) (df_name : string)
  (msg_id : option string) (size : Z) (subject : string)
  (flags : list string) (msg : string) (date : Z) (st : State) :
  exceeds_line_length a msg = false ->
  let command :=
    EAppend df_name msg (append_flags (denied_flags a) flags) date in
  append_mail w a df_name msg_id size subject flags msg date st =
  match w_append w (trace st) df_name msg
                 (append_flags (denied_flags a) flags) date with
  | Ok status =>
      if is_success status then
        (Normal tt,
         {| mem := with_stats (fun s => incr_processed (incr_copied_mails s))
                              (mem st);
            trace := (trace st ++ [command])%list |})
      else
        match Py.decode status with
        | Some text =>
            (if abort_on_error a then Raise KeyboardInterrupt else Normal tt,
             after_append_failure w df_name msg_id size subject date command
               (IMAPClientError ("Unknown success message: " ++ text)) st)
        | None =>
            (Raise UnicodeDecodeError,
             {| mem := with_stats incr_processed (mem st);
                trace := (trace st ++ [command])%list |})
        end
  | Fail (ImapError text) =>
      (if abort_on_error a then Raise KeyboardInterrupt else Normal tt,
       after_append_failure w df_name msg_id size subject date command
         (IMAPClientError text) st)
  | Fail f =>
      (Raise (exn_of_failure f),
       {| mem := with_stats incr_processed (mem st);
          trace := (trace st ++ [command])%list |})
  end.
Proof.
  intros Hline command.
  assert (Hskip :
    (match max_line_length a with
     | Some n =>
         if negb (n =? 0) then
           if any_long_line n msg then
             modify (with_stats (with_skipped_mails incr_skm_max_line_length)) ;;
             continue
           else ret tt
         else ret tt
     | None => ret tt
     end) = ret tt).
  { unfold exceeds_line_length in Hline.
    destruct (max_line_length a) as [n|]; [|reflexivity].
    destruct (negb (n =? 0)); [|reflexivity].
    simpl in Hline. now rewrite Hline. }
  unfold append_mail. rewrite Hskip.
  unfold try_finally, try_except, bind, ret, call, when, modify, print, emit,
    raise, after_append_failure, append_error_record.
  fold command.
  destruct (w_append w (trace st) df_name msg
              (append_flags (denied_flags a) flags) date)
    as [status|[text|cls text|]]; cbn -[Py.lower Py.contains is_success].
  - destruct (is_success status); cbn.
    + reflexivity.
    + destruct (Py.decode status) as [text|]; cbn; [|reflexivity].
      destruct (abort_on_error a); cbn; rewrite <- app_assoc; reflexivity.
  - destruct (abort_on_error a); cbn; rewrite <- app_assoc; reflexivity.
  - reflexivity.
  - reflexivity.
Qed.



Example append_recognised :
  is_success "[APPENDUID 1 1] Append completed." = true /\
  is_success "OK [APPENDUID 7 42] (Success)" = true /\
  is_success "OK done" = false.
Proof. repeat split. Qed.

(** The APPEND branch counts the message as processed however it ends. *)
Lemma append_mail_processed (w : World) (a : Args) (df_name : string)
  (msg_id : option string) (size : Z) (subject : string)
  (flags : list string) (msg : string) (date : Z) (st st' : State)
  (r : res unit) :
  append_mail w a df_name msg_id size subject flags msg date st = (r, st') ->
  processed (stats (mem st')) = S (processed (stats (mem st))).
Proof.
  destruct (exceeds_line_length a msg) eqn:Hline.
  - unfold append_mail. unfold exceeds_line_length in Hline.
    destruct (max_line_length a) as [n|]; [|discriminate].
    destruct (negb (n =? 0)); [|discriminate]. simpl in Hline. rewrite Hline.
    unfold try_finally, try_except, bind, modify, continue. cbn.
    intros [= <- <-]. reflexivity.
  - rewrite (@append_mail_result w a df_name msg_id size subject flags msg
               date st Hline). cbv zeta.
    destruct (w_append w (trace st) df_name msg
                (append_flags (denied_flags a) flags) date)
      as [status|[text|cls text|]];
      [ destruct (is_success status);
        [| destruct (Py.decode status); [destruct (abort_on_error a)|]]
      | destruct (abort_on_error a) | | ];
      intros [= <- <-]; reflexivity.
Qed.

(** The ladder counts the message as processed whenever it ends without an
    uncaught error. *)
Lemma skip_ladder_processed (w : World) (a : Args) (df_name : string)
  (msg_id : option string) (size : Z) (subject : string)
  (flags : list string) (msg : string) (date : Z) (st st' : State)
  (r : res unit) :
  dry_run a = false ->
  skip_ladder w a df_name msg_id size subject flags msg date st = (r, st') ->
  r = Normal tt \/ r = Continue \/ r = Raise KeyboardInterrupt ->
  processed (stats (mem st')) = S (processed (stats (mem st))).
Proof.
  intros Hdry. unfold skip_ladder.
  destruct (size =? 0).
  { unfold bind, modify. cbn. intros [= <- <-] _. reflexivity. }
  unfold bind at 1.
  destruct (max_mail_size a) as [limit|]; cbn;
    [|intros [= <- <-] [H|[H|H]]; discriminate H].
  destruct (limit <? size).
  { unfold bind, modify. cbn. intros [= <- <-] _. reflexivity. }
  unfold bind at 1.
  destruct (already_exists a df_name msg_id st) as [rd st1] eqn:Edup.
  assert (Hst1 : st1 = st).
  { revert Edup. unfold already_exists, bind, gets, ret, raise.
    destruct (incremental a); cbn; [|now intros [= _ <-]].
    destruct (sget df_name (db_destination (mem st))); [|now intros [= _ <-]].
    destruct (msg_ids _); now intros [= _ <-]. }
  subst st1.
  destruct rd as [dup|e| | |].
  - destruct dup.
    + unfold bind, modify. cbn. intros [= <- <-] _. reflexivity.
    + rewrite Hdry. intros Hrun _. eapply append_mail_processed; eauto.
  - intros [= <- <-] [H|[H|H]]; try discriminate H.
    exfalso. revert Edup. unfold already_exists, bind, gets, ret, raise.
    injection H as ->.
    destruct (incremental a); cbn; [|discriminate].
    destruct (sget df_name (db_destination (mem st))); [|discriminate].
    destruct (msg_ids _); discriminate.
  - intros [= <- <-] _. exfalso. revert Edup.
    unfold already_exists, bind, gets, ret, raise.
    destruct (incremental a); cbn; [|discriminate].
    destruct (sget df_name (db_destination (mem st))); [|discriminate].
    destruct (msg_ids _); discriminate.
  - intros [= <- <-] [H|[H|H]]; discriminate H.
  - intros [= <- <-] [H|[H|H]]; discriminate H.
Qed.

Lemma lookup_failed_result (df_name : string) (e : exn)
  (msg_id : option string) (size : pyval) (subject : string) (date : pyval)
  (st : State) :
  lookup_failed df_name e msg_id size subject date st =
  (Continue,
   {| mem := with_stats (append_error
               {| err_size := size; err_subject := subject;
                  err_exception := e; err_folder := df_name;
                  err_date := date; err_id := msg_id_decoded msg_id |})
               (mem st);
      trace := (trace st ++ [EPrint (OutError e)])%list |}).
Proof. reflexivity. Qed.




(** ** Conservation *)

(** C1, as stated, fails.  Same run: one message copied, one message
    counted under [no_envelope] and logged again as a lookup miss, and
    [source_mails] is 1: the left-hand side is 3. *)
Lemma conservation_fails_without_envelope :
  let s := stats (mem (snd (run Sample.missing_envelope Sample.limited))) in
  fst (run Sample.missing_envelope Sample.limited) = Normal tt /\
  ~ In (EPrint OutAbort)
       (trace (snd (run Sample.missing_envelope Sample.limited))) /\
  copied_mails s = 1%nat /\
  skm_no_envelope (skipped_mails s) = 1%nat /\
  errors s = [unknown_record "INBOX" 2] /\
  source_mails s = 1%nat /\
  (copied_mails s
   + (skm_zero_size (skipped_mails s) + skm_max_size (skipped_mails s)
      + skm_no_envelope (skipped_mails s)
      + skm_max_line_length (skipped_mails s)
      + skm_already_exists (skipped_mails s))
   + List.length (errors s) <> source_mails s)%nat.
Proof.
  vm_compute. repeat split; try discriminate.
  intuition discriminate.
Qed.

(* ================================================================= *)
(** ** List mode *)

Lemma list_mode_exit_result (a : Args) (st : State) :
  list_mode a = true ->
  list_mode_exit a st =
  (Raise (SystemExit ExitList),
   {| mem := mem st;
      trace := (trace st ++ [EPrint (OutListing Source (source_listing (mem st)));
                             EPrint (OutListing Destination
                                       (destination_listing (mem st)))])%list |}).
Proof.
  intros H. unfold list_mode_exit. rewrite H.
  unfold bind, gets, print, emit, exit, raise. cbn.
  now rewrite <- app_assoc.
Qed.

Lemma prepare_trace (w : World) (a : Args) (r : res unit) (st : State) :
  prepare w a state0 = (r, st) ->
  Forall prepare_event (trace st) /\ (forall e, r = Raise e -> prepare_exn e).
Proof.
  intros Hrun.
  destruct (@safe_prepare w a prepare_event prepare_exn
              (fun e H => H) (fun e H => H) _ _ _ Hrun) as [[new [Etr Hall]] He].
  split; [|exact He]. simpl in Etr. now rewrite Etr.
Qed.

(** C10.  With [--list] the run is the preparation (sessions, quota,
    enumeration) followed by the two listings and [exit()]: nothing after
    line 406 is executed.  So the run never ends in the abort for an
    unresolved redirection, never completes the transfer, and no CREATE,
    SUBSCRIBE or APPEND is sent and no unresolved rule reported. *)
Theorem list_mode_stops_before_redirections :
  forall (w : World) (a : Args),
    list_mode a = true ->
    run w a =
      match prepare w (apply_default_ports a) state0 with
      | (Normal _, st) =>
          (Raise (SystemExit ExitList),
           {| mem := mem st;
              trace := (trace st ++
                        [EPrint (OutListing Source (source_listing (mem st)));
                         EPrint (OutListing Destination
                                   (destination_listing (mem st)))])%list |})
      | (r, st) => (r, st)
      end /\
    fst (run w a) <> Raise (SystemExit ExitNotFound) /\
    (forall u, fst (run w a) <> Normal u) /\
    Forall (fun e => is_write e = false /\
                     forall names, e <> EPrint (OutNotFound names))
           (trace (snd (run w a))).
Proof.
  intros w a Hlist.
  assert (Hrun : run w a =
      match prepare w (apply_default_ports a) state0 with
      | (Normal _, st) =>
          (Raise (SystemExit ExitList),
           {| mem := mem st;
              trace := (trace st ++
                        [EPrint (OutListing Source (source_listing (mem st)));
                         EPrint (OutListing Destination
                                   (destination_listing (mem st)))])%list |})
      | (r, st) => (r, st)
      end).
  { unfold run, script. unfold bind at 1.
    destruct (prepare w (apply_default_ports a) state0) as [r st].
    destruct r; try reflexivity.
    unfold bind.
    now rewrite (@list_mode_exit_result (apply_default_ports a) st Hlist). }
  split; [exact Hrun|]. rewrite Hrun.
  destruct (prepare w (apply_default_ports a) state0) as [r st] eqn:Eprep.
  destruct (prepare_trace _ _ Eprep) as [Hall Hexn].
  assert (Hweak : Forall (fun e => is_write e = false /\
                     forall names, e <> EPrint (OutNotFound names)) (trace st)).
  { eapply Forall_impl; [|exact Hall]. intros e He. split.
    - now apply prepare_event_read_only.
    - intros names ->. exact He. }
  destruct r as [u|e| | |]; cbn [fst snd].
  - split; [discriminate|]. split; [discriminate|].
    apply Forall_app. split; [exact Hweak|].
    repeat constructor; discriminate.
  - split; [|split; [discriminate | exact Hweak]].
    intros [= ->]. exact (Hexn _ eq_refl).
  - split; [discriminate|]. split; [discriminate | exact Hweak].
  - split; [discriminate|]. split; [discriminate | exact Hweak].
  - split; [discriminate|]. split; [discriminate | exact Hweak].
Qed.

Lemma list_mode_witness :
  fst (run Sample.one_mail Sample.unresolved_rule_listed)
  <> Raise (SystemExit ExitNotFound).
Proof.
  exact (proj1 (proj2 (list_mode_stops_before_redirections Sample.one_mail
                         Sample.unresolved_rule_listed eq_refl))).
Defined.

Example listed_run_exits_at_listing :
  fst (run Sample.one_mail Sample.unresolved_rule_listed) =
  Raise (SystemExit ExitList).
Proof. vm_compute. reflexivity. Qed.

Example unlisted_run_reports_rule :
  fst (run Sample.one_mail Sample.unresolved_rule) =
  Raise (SystemExit ExitNotFound).
Proof. vm_compute. reflexivity. Qed.

(* ================================================================= *)
(** ** The quota gate *)

Lemma plain_ret A (a : A) : plain (ret a).
Proof. intros st r st' [= <- <-]. left. eauto. Qed.

Lemma plain_raise A (e : exn) : plain (@raise A e).
Proof. intros st r st' [= <- <-]. right. eauto. Qed.

Lemma plain_emit (e : event) : plain (emit e).
Proof. intros st r st' [= <- <-]. left. eauto. Qed.

Lemma plain_call A (e : event) (answer : list event -> reply A) :
  plain (call e answer).
Proof.
  intros st r st'. unfold call.
  destruct (answer (trace st)); intros [= <- <-]; [left | right]; eauto.
Qed.

Lemma plain_bind A B (m : M A) (k : A -> M B) :
  plain m -> (forall a, plain (k a)) -> plain (bind m k).
Proof.
  intros Hm Hk st r st'. unfold bind.
  destruct (m st) as [ra st1] eqn:Em.
  destruct (Hm _ _ _ Em) as [[a ->] | [e ->]].
  - apply Hk.
  - intros [= <- <-]. right. eauto.
Qed.

Lemma plain_try_except A (m : M A) (sel : exn -> bool) (h : exn -> M A) :
  plain m -> (forall e, plain (h e)) -> plain (try_except m sel h).
Proof.
  intros Hm Hh st r st'. unfold try_except.
  destruct (m st) as [ra st1] eqn:Em.
  destruct (Hm _ _ _ Em) as [[a ->] | [e ->]].
  - intros [= <- <-]. left. eauto.
  - destruct (sel e); [apply Hh | intros [= <- <-]; right; eauto].
Qed.

Lemma plain_when (b : bool) (m : M unit) : plain m -> plain (when b m).
Proof. intros H. destruct b; [exact H | apply plain_ret]. Qed.

Ltac plain_go :=
  repeat first
    [ apply plain_ret | apply plain_raise | apply plain_emit
    | apply plain_call
    | apply plain_bind; [|intros ?]
    | apply plain_try_except; [|intros ?]
    | apply plain_when
    | match goal with
      | |- plain (if ?b then _ else _) => destruct b
      | |- plain (match ?x with _ => _ end) => destruct x
      end ].

Lemma plain_connect w a s server port enc :
  plain (connect w a s server port enc).
Proof. unfold connect. plain_go. Qed.

Lemma plain_login w c s user pass : plain (login w c s user pass).
Proof. unfold login. plain_go. Qed.

Lemma plain_open_sessions w a : plain (open_sessions w a).
Proof.
  unfold open_sessions.
  repeat first [ apply plain_connect | apply plain_login | plain_go ].
Qed.

Section QuotaGate.

Variables (w : World) (a : Args) (sq dq : Quota) (rest_s rest_d : list Quota).
Hypothesis both_report :
  forall h s, w_has_capability w h s "QUOTA" = Ok true.
Hypothesis source_quota : forall h, w_get_quota w h Source = Ok (sq :: rest_s).
Hypothesis destination_quota :
  forall h, w_get_quota w h Destination = Ok (dq :: rest_d).
Hypothesis insufficient : limit dq - usage dq < usage sq.
Hypothesis not_ignored : ignore_quota a = false.

(** The quota check never lets the script go on. *)
Lemma check_quota_insufficient (st : State) :
  exists e st',
    check_quota w a st = (Raise e, st') /\
    extends session_event st st' /\
    (limit sq <> 0 -> limit dq <> 0 -> e = SystemExit ExitQuota).
Proof.
  destruct (check_quota w a st) as [r st'] eqn:Erun.
  assert (Hsafe : extends session_event st st').
  { eapply (@safe_check_quota w a session_event any_exn); eauto.
    intros; exact I. }
  revert Erun. unfold check_quota.
  unfold bind at 1. unfold call at 1. rewrite both_report.
  unfold bind at 1. unfold bind at 1. unfold bind at 1.
  unfold call at 1. cbn [trace mem]. rewrite source_quota.
  unfold first_quota.
  destruct (limit sq =? 0) eqn:Els.
  { cbn. intros [= <- <-]. do 2 eexists. split; [reflexivity|].
    split; [exact Hsafe|]. apply Z.eqb_eq in Els. congruence. }
  cbn [ret raise]. unfold bind at 1. unfold call at 1. cbn [trace mem].
  rewrite both_report, not_ignored. cbn [andb negb].
  unfold bind at 1. unfold bind at 1. unfold call at 1. cbn [trace mem].
  rewrite destination_quota.
  unfold bind at 1. unfold bind at 1. unfold call at 1. cbn [trace mem].
  rewrite destination_quota.
  destruct (limit dq =? 0) eqn:Eld.
  { cbn. intros [= <- <-]. do 2 eexists. split; [reflexivity|].
    split; [exact Hsafe|]. apply Z.eqb_eq in Eld. congruence. }
  cbn [ret raise]. unfold bind at 1.
  apply Z.ltb_lt in insufficient. rewrite insufficient.
  cbn. intros [= <- <-]. do 2 eexists. split; [reflexivity|].
  split; [exact Hsafe | reflexivity].
Qed.

End QuotaGate.

Lemma bind_normal A B (m : M A) (k : A -> M B) st a st' :
  m st = (Normal a, st') -> bind m k st = k a st'.
Proof. intros H. unfold bind. now rewrite H. Qed.

Lemma bind_raise A B (m : M A) (k : A -> M B) st e st' :
  m st = (Raise e, st') -> bind m k st = (Raise e, st').
Proof. intros H. unfold bind. now rewrite H. Qed.

Lemma extends_from_start P st :
  extends P state0 st -> Forall P (trace st).
Proof. intros [new [E H]]. simpl in E. now rewrite E. Qed.

Lemma session_event_read_only (e : event) : session_event e -> read_only e.
Proof. intros H. now apply prepare_event_read_only, session_event_prepare. Qed.

(** The run under an insufficient quota. *)
Lemma quota_gate_run (w : World) (a : Args) (sq dq : Quota)
  (rest_s rest_d : list Quota) :
  (forall h s, w_has_capability w h s "QUOTA" = Ok true) ->
  (forall h, w_get_quota w h Source = Ok (sq :: rest_s)) ->
  (forall h, w_get_quota w h Destination = Ok (dq :: rest_d)) ->
  limit dq - usage dq < usage sq ->
  ignore_quota a = false ->
  exists e st,
    run w a = (Raise e, st) /\ Forall session_event (trace st) /\
    (forall st1,
        open_sessions w (apply_default_ports a) state0 = (Normal tt, st1) ->
        limit sq <> 0 -> limit dq <> 0 -> e = SystemExit ExitQuota).
Proof.
  intros Hcap Hqs Hqd Hless Hign.
  set (a' := apply_default_ports a).
  unfold run, script, prepare. fold a'.
  destruct (open_sessions w a' state0) as [r1 st1] eqn:E1.
  assert (Hx1 : extends session_event state0 st1).
  { eapply (@safe_open_sessions w a' session_event any_exn); eauto.
    intros; exact I. }
  destruct (plain_open_sessions w a' state0 E1) as [[[] ->] | [e ->]].
  - destruct (@check_quota_insufficient w a' sq dq rest_s rest_d
                Hcap Hqs Hqd Hless Hign st1) as [e [st2 [Hq [Hx2 He]]]].
    exists e, st2. split.
    + erewrite bind_raise; [reflexivity|].
      erewrite bind_normal; [|exact E1].
      erewrite bind_raise; [reflexivity | exact Hq].
    + split.
      * apply extends_from_start. eapply extends_trans; eauto.
      * intros st Hst. exact He.
  - exists e, st1. split.
    + erewrite bind_raise; [reflexivity|].
      erewrite bind_raise; [reflexivity | exact E1].
    + split; [now apply extends_from_start | discriminate].
Qed.

(** C8.  Both servers report a quota, the destination has less room than
    the source uses, and [--ignore-quota] is not given: the run ends with
    an exception (the [exit()] of line 251 when both sessions are open and
    no limit is zero), and all it has sent are the commands of connecting,
    logging in and reading the quota: no folder is listed, created or
    appended to. *)
Theorem quota_gate_stops_run :
  forall (w : World) (a : Args) (sq dq : Quota) (rest_s rest_d : list Quota),
    (forall h s, w_has_capability w h s "QUOTA" = Ok true) ->
    (forall h, w_get_quota w h Source = Ok (sq :: rest_s)) ->
    (forall h, w_get_quota w h Destination = Ok (dq :: rest_d)) ->
    limit dq - usage dq < usage sq ->
    ignore_quota a = false ->
    (exists e, fst (run w a) = Raise e) /\
    Forall session_event (trace (snd (run w a))) /\
    Forall (fun e => is_write e = false) (trace (snd (run w a))) /\
    (forall st, open_sessions w (apply_default_ports a) state0 = (Normal tt, st) ->
                limit sq <> 0 -> limit dq <> 0 ->
                fst (run w a) = Raise (SystemExit ExitQuota)).
Proof.
  intros w a sq dq rest_s rest_d Hcap Hqs Hqd Hless Hign.
  destruct (quota_gate_run w a Hcap Hqs Hqd Hless Hign)
    as [e [st [-> [Hall He]]]]. cbn [fst snd].
  split; [eauto|]. split; [exact Hall|]. split.
  - eapply Forall_impl; [|exact Hall]. exact session_event_read_only.
  - intros st1 H1 H2 H3. f_equal. eapply He; eauto.
Qed.

Lemma quota_gate_witness :
  (exists e, fst (run Sample.tight_quota Sample.limited) = Raise e) /\
  Forall (fun e => is_write e = false)
         (trace (snd (run Sample.tight_quota Sample.limited))).
Proof.
  destruct (@quota_gate_stops_run Sample.tight_quota Sample.limited
              {| quota_root := ""; resource := "STORAGE";
                 usage := 10000; limit := 50000 |}
              {| quota_root := ""; resource := "STORAGE";
                 usage := 15000; limit := 20000 |} [] [])
    as [H1 [_ [H3 _]]].
  - intros h []; reflexivity.
  - reflexivity.
  - reflexivity.
  - reflexivity.
  - reflexivity.
  - exact (conj H1 H3).
Defined.

Example abort_on_error_completes :
  fst (run Sample.refusing Sample.stop_at_error) = Normal tt /\
  In (EPrint OutAbort) (trace (snd (run Sample.refusing Sample.stop_at_error))) /\
  processed (stats (mem (snd (run Sample.refusing Sample.stop_at_error)))) = 1%nat /\
  exit_status (fst (run Sample.refusing Sample.stop_at_error)) = Some 0.
Proof. vm_compute. intuition. Qed.

Example zero_buffer_size_never_ends :
  fst (run Sample.one_mail (set_buffer_size (Some 0) Sample.limited)) = Diverge.
Proof. vm_compute. reflexivity. Qed.

Example dry_run_sends_no_write :
  fst (run Sample.one_mail (set_dry_run true Sample.limited)) = Normal tt /\
  forallb (fun e => negb (is_write e))
          (trace (snd (run Sample.one_mail (set_dry_run true Sample.limited))))
  = true.
Proof. split; vm_compute; reflexivity. Qed.

Example quota_scenario_aborts :
  fst (run Sample.tight_quota Sample.limited) = Raise (SystemExit ExitQuota) /\
  fst (run Sample.tight_quota (set_ignore_quota true Sample.limited)) =
  Normal tt.
Proof. split; vm_compute; reflexivity. Qed.

(* ================================================================= *)
(** ** The ways the script stops *)

Section Setup.

Variables (w : World) (a : Args).
Hypothesis quiet : no_interrupt_in_setup w.

Lemma setup_failure_is_Exception A (r : reply A) :
  r <> Fail Interrupt ->
  forall f, r = Fail f -> is_Exception (exn_of_failure f) = true.
Proof. intros H [| |] ->; try reflexivity. now contradiction H. Qed.

Lemma connect_returns s server port enc st :
  exists b st',
    connect w a s server port enc st = (Normal b, st') /\
    ((forall h, exists f, w_connect w h s = Fail f) -> b = false).
Proof.
  destruct quiet as [Hc [Ht _]].
  unfold connect, try_except, bind, call, when, ret.
  destruct (w_connect w (trace st) s) as [[]|f] eqn:Ec.
  - destruct (String.eqb enc "starttls").
    + cbn [trace mem].
      match goal with
      | |- context [w_starttls w ?h s] =>
          destruct (w_starttls w h s) as [[]|f] eqn:Et
      end.
      * do 2 eexists. split; [reflexivity|].
        intros Hr. destruct (Hr (trace st)) as [f Hf]. congruence.
      * rewrite (setup_failure_is_Exception (Ht _ s) Et).
        do 2 eexists. split; reflexivity.
    + do 2 eexists. split; [reflexivity|].
      intros Hr. destruct (Hr (trace st)) as [f Hf]. congruence.
  - rewrite (setup_failure_is_Exception (Hc _ s) Ec).
    do 2 eexists. split; reflexivity.
Qed.

Lemma login_returns c s user password st :
  exists b st',
    login w c s user password st = (Normal b, st') /\
    (c = false -> b = false) /\
    ((forall h u p, exists f, w_login w h s u p = Fail f) -> b = false).
Proof.
  destruct quiet as [_ [_ Hl]].
  unfold login. destruct c.
  - unfold try_except, bind, call, ret.
    destruct (w_login w (trace st) s user password) as [[]|f] eqn:El.
    + do 2 eexists. split; [reflexivity|]. split; [discriminate|].
      intros Hr. destruct (Hr (trace st) user password) as [f Hf]. congruence.
    + rewrite (setup_failure_is_Exception (Hl _ s user password) El).
      do 2 eexists. repeat split; reflexivity.
  - do 2 eexists. repeat split; reflexivity.
Qed.

(** A refused connection or login ends the script at line 212. *)
Lemma open_sessions_refused st :
  refused w ->
  exists st', open_sessions w a st = (Raise (SystemExit ExitLogin), st').
Proof.
  intros [s Hs]. unfold open_sessions.
  destruct (connect_returns Source (source_server a) (source_port a)
              (source_encryption a) st) as [c1 [st1 [E1 R1]]].
  destruct (connect_returns Destination (destination_server a)
              (destination_port a) (destination_encryption a) st1)
    as [c2 [st2 [E2 R2]]].
  destruct (login_returns c1 Source (source_user a) (source_pass a) st2)
    as [l1 [st3 [E3 [N1 L1]]]].
  destruct (login_returns c2 Destination (destination_user a)
              (destination_pass a) st3) as [l2 [st4 [E4 [N2 L2]]]].
  rewrite (@bind_normal _ _ _ _ _ _ _ E1), (@bind_normal _ _ _ _ _ _ _ E2), (@bind_normal _ _ _ _ _ _ _ E3),
    (@bind_normal _ _ _ _ _ _ _ E4).
  assert (Hfalse : (l1 && l2)%bool = false).
  { destruct s, Hs as [H|H].
    - rewrite N1; [reflexivity | now apply R1].
    - rewrite L1; [reflexivity | exact H].
    - rewrite N2; [apply andb_false_r | now apply R2].
    - rewrite L2; [apply andb_false_r | exact H]. }
  rewrite Hfalse. cbn. eexists. reflexivity.
Qed.

End Setup.

Lemma parse_redirection_result (rule r_source r_destination : string)
  (st : State) :
  Py.split_once ":" rule = Some (r_source, r_destination) ->
  exists st',
    parse_redirection rule st = (Normal tt, st') /\
    db_source (mem st') = db_source (mem st) /\
    trace st' = trace st /\
    exists more, not_found (mem st') = (not_found (mem st) ++ more)%list /\
                 (unresolved (db_source (mem st)) rule = true -> more <> []).
Proof.
  intros Hsplit. unfold parse_redirection, unresolved. rewrite Hsplit.
  unfold bind at 1. cbn [gets]. unfold bind at 1.
  destruct (Py.endswith_char r_source "*").
  - set (matches := filter _ (Dict.keys (db_source (mem st)))).
    destruct matches as [|m ms] eqn:Em; cbn [negb is_nil].
    + cbn. eexists. split; [reflexivity|]. repeat split.
      exists [r_source]. split; [reflexivity | discriminate].
    + assert (Hloop : forall l st0, exists st1,
                 for_each l (fun folder =>
                   modify (with_redirections (sset folder r_destination))) st0
                 = (Normal tt, st1) /\
                 db_source (mem st1) = db_source (mem st0) /\
                 trace st1 = trace st0 /\
                 not_found (mem st1) = not_found (mem st0)).
      { induction l as [|x l IH]; intros st0; cbn [for_each].
        - eexists. repeat split.
        - cbn [modify]. destruct (IH {| mem := with_redirections
                     (sset x r_destination) (mem st0); trace := trace st0 |})
            as [st1 [E1 [D1 [T1 N1]]]].
          exists st1. split; [exact E1|]. repeat split; assumption. }
      destruct (Hloop (m :: ms) st) as [st1 [E1 [D1 [T1 N1]]]].
      rewrite E1. cbn. eexists. split; [reflexivity|]. cbn.
      repeat split; try assumption.
      exists []. split; [now rewrite app_nil_r | discriminate].
  - destruct (smem r_source (db_source (mem st))); cbn.
    + eexists. split; [reflexivity|]. repeat split.
      exists []. split; [now rewrite app_nil_r | discriminate].
    + eexists. split; [reflexivity|]. repeat split.
      exists [r_source]. split; [reflexivity | discriminate].
Qed.

Lemma parse_redirections_result (rules : list string) (st : State) :
  (forall rule, In rule rules -> Py.split_once ":" rule <> None) ->
  exists st',
    for_each rules parse_redirection st = (Normal tt, st') /\
    db_source (mem st') = db_source (mem st) /\
    trace st' = trace st /\
    exists more, not_found (mem st') = (not_found (mem st) ++ more)%list /\
                 ((exists rule, In rule rules /\
                      unresolved (db_source (mem st)) rule = true) ->
                  more <> []).
Proof.
  revert st. induction rules as [|rule rules IH]; intros st Hparse.
  - exists st. split; [reflexivity|]. repeat split.
    exists []. split; [now rewrite app_nil_r|]. intros [rule [[] _]].
  - destruct (Py.split_once ":" rule) as [[s d]|] eqn:Esplit;
      [|exfalso; eapply Hparse; [now left | exact Esplit]].
    destruct (@parse_redirection_result rule s d st Esplit)
      as [st1 [E1 [D1 [T1 [m1 [N1 U1]]]]]].
    destruct (IH st1) as [st2 [E2 [D2 [T2 [m2 [N2 U2]]]]]].
    { intros r Hr. apply Hparse. now right. }
    exists st2. cbn [for_each]. rewrite E1. split; [exact E2|].
    split; [congruence|]. split; [congruence|].
    exists (m1 ++ m2)%list. split; [rewrite N2, N1; now rewrite app_assoc|].
    intros [r [[<- | Hin] Hun]].
    + specialize (U1 Hun). destruct m1; [congruence | discriminate].
    + assert (m2 <> []) by (apply U2; exists r; split; [exact Hin | congruence]).
      destruct m1, m2; simpl; congruence.
Qed.

(** An unresolved rule ends the script at line 436. *)
Lemma custom_links_unresolved (a : Args) (rules : list string) (st : State) :
  redirect a = Some rules ->
  (forall rule, In rule rules -> Py.split_once ":" rule <> None) ->
  (exists rule, In rule rules /\ unresolved (db_source (mem st)) rule = true) ->
  exists st', custom_links a st = (Raise (SystemExit ExitNotFound), st').
Proof.
  intros Hred Hparse Hun. unfold custom_links. rewrite Hred.
  destruct rules as [|r rules]; [destruct Hun as [x [[] _]]|].
  destruct (@parse_redirections_result (r :: rules) st Hparse)
    as [st1 [E1 [_ [_ [more [N1 U1]]]]]].
  rewrite (@bind_normal _ _ _ _ _ _ _ E1). unfold bind at 1. cbn [gets].
  rewrite N1. specialize (U1 Hun).
  destruct (not_found (mem st) ++ more)%list eqn:Enf.
  - apply app_eq_nil in Enf. tauto.
  - cbn. eexists. reflexivity.
Qed.

(** An abort inside the transfer is caught there (lines 617-618). *)
Lemma transfer_catches_abort (w : World) (a : Args) (st st' : State)
  (r : res unit) :
  transfer w a st = (r, st') -> r <> Raise KeyboardInterrupt.
Proof.
  unfold transfer, try_except.
  destruct (bind _ _ st) as [r1 st1].
  destruct r1 as [u|e| | |]; try (intros [= <- <-]; discriminate).
  destruct e; cbn; intros [= <- <-]; discriminate.
Qed.




(* ================================================================= *)
(** ** Conservation of messages *)

(** *** Frames *)

Section KeepsRules.

Variables (B : Type) (f : Mem -> B).

Lemma keeps_ret A (a : A) : keeps f (ret a).
Proof. intros st r st' [= <- <-]. split; [reflexivity | discriminate]. Qed.

Lemma keeps_raise A (e : exn) : keeps f (@raise A e).
Proof. intros st r st' [= <- <-]. split; [reflexivity | discriminate]. Qed.

Lemma keeps_continue A : keeps f (@continue A).
Proof. intros st r st' [= <- <-]. split; [reflexivity | discriminate]. Qed.

Lemma keeps_diverge A : keeps f (@diverge A).
Proof. intros st r st' [= <- <-]. split; [reflexivity | discriminate]. Qed.

Lemma keeps_gets A (g : Mem -> A) : keeps f (gets g).
Proof. intros st r st' [= <- <-]. split; [reflexivity | discriminate]. Qed.

Lemma keeps_emit (e : event) : keeps f (emit e).
Proof. intros st r st' [= <- <-]. split; [reflexivity | discriminate]. Qed.

Lemma keeps_modify (g : Mem -> Mem) :
  (forall m, f (g m) = f m) -> keeps f (modify g).
Proof. intros H st r st' [= <- <-]. split; [apply H | discriminate]. Qed.

Lemma keeps_call A (e : event) (answer : list event -> reply A) :
  keeps f (call e answer).
Proof.
  intros st r st'. unfold call.
  destruct (answer (trace st)); intros [= <- <-];
    (split; [reflexivity | discriminate]).
Qed.

Lemma keeps_bind A C (m : M A) (k : A -> M C) :
  keeps f m -> (forall a, keeps f (k a)) -> keeps f (bind m k).
Proof.
  intros Hm Hk st r st'. unfold bind.
  destruct (m st) as [ra st1] eqn:Em. destruct (Hm _ _ _ Em) as [H1 Hb].
  destruct ra; try (intros [= <- <-]; split; [exact H1 | congruence]).
  intros Hrun. destruct (Hk _ _ _ _ Hrun) as [H2 Hb2].
  split; [congruence | exact Hb2].
Qed.

Lemma keeps_try_except A (m : M A) (sel : exn -> bool) (h : exn -> M A) :
  keeps f m -> (forall e, keeps f (h e)) -> keeps f (try_except m sel h).
Proof.
  intros Hm Hh st r st'. unfold try_except.
  destruct (m st) as [ra st1] eqn:Em. destruct (Hm _ _ _ Em) as [H1 Hb].
  destruct ra as [x|e| | |];
    try (intros [= <- <-]; split; [exact H1 | congruence]).
  destruct (sel e); [|intros [= <- <-]; split; [exact H1 | congruence]].
  intros Hrun. destruct (Hh _ _ _ _ Hrun) as [H2 Hb2].
  split; [congruence | exact Hb2].
Qed.

Lemma keeps_for_each A (l : list A) (body : A -> M unit) :
  (forall x, keeps f (body x)) -> keeps f (for_each l body).
Proof.
  intros Hb. induction l as [|x l IH]; cbn [for_each].
  - apply keeps_ret.
  - intros st r st'.
    destruct (body x st) as [rb st1] eqn:Eb.
    destruct (Hb _ _ _ _ Eb) as [H1 Hnb].
    destruct rb; try (intros [= <- <-]; split; [exact H1 | congruence]);
      try congruence;
      intros Hrun; destruct (IH _ _ _ Hrun) as [H2 Hb2];
      (split; [congruence | exact Hb2]).
Qed.

Lemma keeps_when (b : bool) (m : M unit) : keeps f m -> keeps f (when b m).
Proof. intros H. destruct b; [exact H | apply keeps_ret]. Qed.

End KeepsRules.

Ltac keeps_structure :=
  first
    [ apply keeps_ret | apply keeps_raise | apply keeps_continue
    | apply keeps_diverge | apply keeps_gets | apply keeps_emit
    | apply keeps_call
    | apply keeps_modify; intros ?; reflexivity
    | apply keeps_bind; [|intros ?]
    | apply keeps_when
    | apply keeps_try_except; [|intros ?]
    | apply keeps_for_each; intros ?
    | match goal with
      | |- keeps _ (if ?b then _ else _) => destruct b
      | |- keeps _ (match ?x with _ => _ end) => destruct x
      end ].

Ltac keeps_go := repeat keeps_structure.

(** Sessions, quota, idling and logout leave the memory alone. *)
Lemma keeps_open_sessions w a : keeps (fun m => m) (open_sessions w a).
Proof. unfold open_sessions, connect, login, print, exit. keeps_go. Qed.

Lemma keeps_check_quota w a : keeps (fun m => m) (check_quota w a).
Proof. unfold check_quota, first_quota, print, exit. keeps_go. Qed.

Lemma keeps_start_imap_idle w s : keeps (fun m => m) (start_imap_idle w s).
Proof. unfold start_imap_idle. keeps_go. Qed.

Lemma keeps_end_imap_idle w s : keeps (fun m => m) (end_imap_idle w s).
Proof. unfold end_imap_idle. keeps_go. Qed.

Lemma keeps_restart_imap_idle w s :
  keeps (fun m => m) (restart_imap_idle w s).
Proof.
  unfold restart_imap_idle. apply keeps_bind;
    [apply keeps_end_imap_idle | intros; apply keeps_start_imap_idle].
Qed.

Lemma keeps_logout w s : keeps (fun m => m) (logout w s).
Proof. unfold logout, print. keeps_go. Qed.

(** The destination enumeration and the redirections leave the source
    manifest and the mail counters alone. *)
Lemma keeps_enumerate_destination_buffers w a fuel name mails :
  keeps core (enumerate_destination_buffers w a fuel name mails).
Proof.
  revert mails. induction fuel as [|fuel IH]; intros [|u mails];
    cbn [enumerate_destination_buffers]; try solve [keeps_go].
  apply keeps_bind; [apply keeps_call | intros rows].
  apply keeps_bind; [|intros _; apply IH].
  apply keeps_for_each. intros [mail_id data].
  unfold enumerate_destination_mail. keeps_go.
Qed.

Lemma keeps_enumerate_destination w a : keeps core (enumerate_destination w a).
Proof.
  unfold enumerate_destination. apply keeps_bind; [apply keeps_call|].
  intros folders. apply keeps_for_each. intros [[fl d] name].
  unfold enumerate_destination_folder, decode_delimiter, replace_opt.
  repeat first [ apply keeps_enumerate_destination_buffers | keeps_structure ].
Qed.

Lemma keeps_custom_links a : keeps core (custom_links a).
Proof.
  unfold custom_links, print, exit.
  repeat first
    [ keeps_structure
    | match goal with
      | |- keeps _ (parse_redirection _) => unfold parse_redirection
      end ].
Qed.

Lemma keeps_list_mode_exit a : keeps (fun m => m) (list_mode_exit a).
Proof. unfold list_mode_exit, print, exit. keeps_go. Qed.

(** *** Dictionaries and sums *)

Lemma keys_supdate V (k : string) (g : V -> V) (d : sdict V) :
  Dict.keys (supdate k g d) = Dict.keys d.
Proof.
  unfold Dict.keys.
  induction d as [|[k' v] d IH]; [reflexivity|]. cbn [Dict.update].
  destruct (String.eqb k' k); cbn; [reflexivity | now rewrite IH].
Qed.

Lemma keys_sset_new V (k : string) (v : V) (d : sdict V) :
  ~ In k (Dict.keys d) -> Dict.keys (sset k v d) = (Dict.keys d ++ [k])%list.
Proof.
  unfold Dict.keys.
  induction d as [|[k' v'] d IH]; intros Hnot; [reflexivity|].
  cbn [Dict.set]. destruct (String.eqb_spec k' k) as [->|Hne].
  - exfalso. apply Hnot. now left.
  - cbn. rewrite IH; [reflexivity|]. intros H. apply Hnot. now right.
Qed.

Lemma buffered_cons (k : string) (v : SourceFolder) (d : sdict SourceFolder) :
  buffered ((k, v) :: d) = (rows_of v + buffered d)%nat.
Proof. reflexivity. Qed.

Lemma buffered_supdate_same (k : string) (g : SourceFolder -> SourceFolder)
  (d : sdict SourceFolder) :
  (forall f, rows_of (g f) = rows_of f) ->
  buffered (supdate k g d) = buffered d.
Proof.
  intros Hg. induction d as [|[k' v] d IH]; [reflexivity|].
  cbn [Dict.update]. destruct (String.eqb k' k); rewrite !buffered_cons.
  - now rewrite Hg.
  - now rewrite IH.
Qed.

Lemma buffered_supdate_add (k : string) (g : SourceFolder -> SourceFolder)
  (n : nat) (d : sdict SourceFolder) :
  (forall f, rows_of (g f) = (rows_of f + n)%nat) ->
  In k (Dict.keys d) ->
  buffered (supdate k g d) = (buffered d + n)%nat.
Proof.
  intros Hg. induction d as [|[k' v] d IH]; intros Hin; [destruct Hin|].
  cbn [Dict.update]. destruct (String.eqb_spec k' k) as [->|Hne];
    rewrite !buffered_cons.
  - rewrite Hg. lia.
  - rewrite IH; [lia|]. destruct Hin as [H|H]; [contradiction | exact H].
Qed.

Lemma buffered_sset_new (k : string) (v : SourceFolder)
  (d : sdict SourceFolder) :
  ~ In k (Dict.keys d) ->
  buffered (sset k v d) = (buffered d + rows_of v)%nat.
Proof.
  induction d as [|[k' v'] d IH]; intros Hnot.
  - cbn [Dict.set]. rewrite buffered_cons. unfold buffered. cbn. lia.
  - cbn [Dict.set]. destruct (String.eqb_spec k' k) as [->|Hne].
    + exfalso. apply Hnot. now left.
    + rewrite !buffered_cons. rewrite IH; [lia|].
      intros H. apply Hnot. now right.
Qed.

Lemma rows_of_add_buffer (b : list Z) (f : SourceFolder) :
  rows_of (add_buffer b f) = (rows_of f + List.length b)%nat.
Proof.
  unfold rows_of, add_buffer. cbn [sf_buffer].
  rewrite map_app, list_sum_app. cbn. lia.
Qed.

Lemma rows_of_name_head (k : string) (f : SourceFolder)
  (d : sdict SourceFolder) :
  rows_of_name ((k, f) :: d) k = rows_of f.
Proof. unfold rows_of_name. cbn. now rewrite String.eqb_refl. Qed.

Lemma rows_of_name_tail (k x : string) (f : SourceFolder)
  (d : sdict SourceFolder) :
  k <> x -> rows_of_name ((k, f) :: d) x = rows_of_name d x.
Proof.
  intros Hne. unfold rows_of_name. cbn.
  destruct (String.eqb_spec k x); [contradiction | reflexivity].
Qed.

Lemma sum_over_keys (d : sdict SourceFolder) :
  NoDup (Dict.keys d) ->
  list_sum (map (rows_of_name d) (Dict.keys d)) = buffered d.
Proof.
  induction d as [|[k f] d IH]; intros Hnd; [reflexivity|].
  assert (Hk : Dict.keys ((k, f) :: d) = k :: Dict.keys d) by reflexivity.
  rewrite Hk in *. inversion Hnd as [|? ? Hnot Hnd']; subst.
  rewrite buffered_cons, <- (IH Hnd').
  cbn [map list_sum fold_right]. rewrite rows_of_name_head. f_equal.
  change (fold_right Nat.add 0%nat ?l) with (list_sum l).
  f_equal. apply map_ext_in. intros x Hx. apply rows_of_name_tail.
  intros ->. contradiction.
Qed.

Lemma insert_sorted_perm (x : string) (l : list string) :
  Permutation (insert_sorted x l) (x :: l).
Proof.
  induction l as [|y l IH]; cbn; [reflexivity|].
  destruct (String.ltb (Py.lower x) (Py.lower y)); [reflexivity|].
  rewrite IH. apply perm_swap.
Qed.

Lemma sorted_lower_perm (l : list string) : Permutation (sorted_lower l) l.
Proof.
  unfold sorted_lower.
  assert (H : forall acc, Permutation
              (fold_left (fun acc x => insert_sorted x acc) l acc)
              (acc ++ l)%list).
  { induction l as [|x l IH]; intros acc; cbn.
    - now rewrite app_nil_r.
    - rewrite IH, insert_sorted_perm. now apply Permutation_middle. }
  exact (H []).
Qed.

(** *** Rules for triples *)

Section TripleRules.

Lemma triple_weaken A (P P' : Mem -> Prop) (m : M A)
  (N N' : A -> Mem -> Prop) (C C' : Mem -> Prop) (R R' : exn -> Mem -> Prop) :
  triple P' m N' C' R' ->
  (forall x, P x -> P' x) ->
  (forall a x, N' a x -> N a x) ->
  (forall x, C' x -> C x) ->
  (forall e x, R' e x -> R e x) ->
  triple P m N C R.
Proof.
  intros H HP HN HC HR st r st' Hpre Hrun.
  specialize (H st r st' (HP _ Hpre) Hrun).
  destruct r; cbn in *; auto.
Qed.

Lemma triple_ret A (P : Mem -> Prop) (a : A) N C R :
  (forall x, P x -> N a x) -> triple P (ret a) N C R.
Proof. intros H st r st' Hpre [= <- <-]. now apply H. Qed.

Lemma triple_raise A (P : Mem -> Prop) (e : exn) (N : A -> Mem -> Prop) C
  (R : exn -> Mem -> Prop) :
  (forall x, P x -> R e x) -> triple P (raise e) N C R.
Proof. intros H st r st' Hpre [= <- <-]. now apply H. Qed.

Lemma triple_continue A (P : Mem -> Prop) (N : A -> Mem -> Prop)
  (C : Mem -> Prop) R :
  (forall x, P x -> C x) -> triple P continue N C R.
Proof. intros H st r st' Hpre [= <- <-]. now apply H. Qed.

Lemma triple_diverge A (P : Mem -> Prop) (N : A -> Mem -> Prop) C R :
  triple P diverge N C R.
Proof. intros st r st' Hpre [= <- <-]. exact I. Qed.

Lemma triple_modify (P : Mem -> Prop) (g : Mem -> Mem) N C R :
  (forall x, P x -> N tt (g x)) -> triple P (modify g) N C R.
Proof. intros H st r st' Hpre [= <- <-]. now apply H. Qed.

Lemma triple_emit (P : Mem -> Prop) (e : event) N C R :
  (forall x, P x -> N tt x) -> triple P (emit e) N C R.
Proof. intros H st r st' Hpre [= <- <-]. now apply H. Qed.

Lemma triple_call A (P : Mem -> Prop) (e : event)
  (answer : list event -> reply A) (N : A -> Mem -> Prop) C
  (R : exn -> Mem -> Prop) :
  (forall x a, P x -> (exists h, answer h = Ok a) -> N a x) ->
  (forall x f, P x -> (exists h, answer h = Fail f) ->
               R (exn_of_failure f) x) ->
  triple P (call e answer) N C R.
Proof.
  intros HN HR st r st' Hpre. unfold call.
  destruct (answer (trace st)) as [a|f] eqn:Ea; intros [= <- <-]; cbn.
  - apply HN; eauto.
  - apply HR; eauto.
Qed.

Lemma triple_bind A B (P : Mem -> Prop) (m : M A) (k : A -> M B)
  (Mid : A -> Mem -> Prop) N C R :
  triple P m Mid C R ->
  (forall a, triple (Mid a) (k a) N C R) ->
  triple P (bind m k) N C R.
Proof.
  intros Hm Hk st r st' Hpre. unfold bind.
  destruct (m st) as [ra st1] eqn:Em.
  pose proof (Hm _ _ _ Hpre Em) as H1.
  destruct ra as [a|e| | |]; try (intros [= <- <-]; exact H1).
  intros Hrun. exact (Hk a _ _ _ H1 Hrun).
Qed.

(** [gets] followed by its continuation, whatever is read. *)
Lemma triple_gets_any A B (P : Mem -> Prop) (g : Mem -> A) (k : A -> M B)
  N C R :
  (forall v, triple P (k v) N C R) -> triple P (bind (gets g) k) N C R.
Proof.
  intros Hk st r st' Hpre. unfold bind, gets. apply Hk. exact Hpre.
Qed.

(** [gets] of something the precondition determines. *)
Lemma triple_gets_known A B (P : Mem -> Prop) (g : Mem -> A) (v : A)
  (k : A -> M B) N C R :
  (forall x, P x -> g x = v) ->
  triple P (k v) N C R -> triple P (bind (gets g) k) N C R.
Proof.
  intros Hv Hk st r st' Hpre. unfold bind, gets.
  rewrite (Hv _ Hpre). apply Hk. exact Hpre.
Qed.

Lemma triple_try_except A (P : Mem -> Prop) (m : M A) (sel : exn -> bool)
  (h : exn -> M A) N C (R1 R : exn -> Mem -> Prop) :
  triple P m N C R1 ->
  (forall e, sel e = true -> triple (R1 e) (h e) N C R) ->
  (forall e x, sel e = false -> R1 e x -> R e x) ->
  triple P (try_except m sel h) N C R.
Proof.
  intros Hm Hh Hpass st r st' Hpre. unfold try_except.
  destruct (m st) as [ra st1] eqn:Em.
  pose proof (Hm _ _ _ Hpre Em) as H1.
  destruct ra as [a|e| | |]; try (intros [= <- <-]; exact H1).
  destruct (sel e) eqn:Es.
  - intros Hrun. exact (Hh e Es _ _ _ H1 Hrun).
  - intros [= <- <-]. cbn. now apply Hpass.
Qed.

(** [try: m finally: <an update of the memory>] *)
Lemma triple_finally_modify A (P : Mem -> Prop) (m : M A) (g : Mem -> Mem)
  (N1 N : A -> Mem -> Prop) (C1 C : Mem -> Prop)
  (R1 R : exn -> Mem -> Prop) :
  triple P m N1 C1 R1 ->
  (forall a x, N1 a x -> N a (g x)) ->
  (forall x, C1 x -> C (g x)) ->
  (forall e x, R1 e x -> R e (g x)) ->
  triple P (try_finally m (modify g)) N C R.
Proof.
  intros Hm HN HC HR st r st' Hpre. unfold try_finally, modify.
  destruct (m st) as [ra st1] eqn:Em.
  pose proof (Hm _ _ _ Hpre Em) as H1.
  destruct ra as [a|e| | |]; intros [= <- <-]; cbn in *; auto.
Qed.

Lemma triple_when (P : Mem -> Prop) (b : bool) (m : M unit) N C R :
  (b = true -> triple P m N C R) ->
  (b = false -> forall x, P x -> N tt x) ->
  triple P (when b m) N C R.
Proof.
  intros Ht Hf. destruct b; cbn [when].
  - now apply Ht.
  - apply triple_ret. now apply Hf.
Qed.

(** A computation that keeps what [P] depends on keeps [P]. *)
Lemma triple_keeps A B (f : Mem -> B) (P : Mem -> Prop) (m : M A) :
  keeps f m ->
  (forall x y, f x = f y -> P y -> P x) ->
  triple P m (fun _ => P) P (fun _ => P).
Proof.
  intros Hk HP st r st' Hpre Hrun.
  destruct (Hk _ _ _ Hrun) as [Hf Hnb].
  assert (P (mem st')) by (eapply HP; eauto).
  destruct r; cbn; auto.
Qed.

End TripleRules.

(** [for]: an invariant indexed by the elements handled so far. *)
Lemma triple_for_each_from A (J : list A -> Mem -> Prop) (body : A -> M unit)
  (R : exn -> Mem -> Prop) (l done : list A) :
  (forall pre x suf, l = (pre ++ x :: suf)%list ->
     triple (J (done ++ pre)%list) (body x)
            (fun _ => J (done ++ pre ++ [x])%list)
            (J (done ++ pre ++ [x])%list) R) ->
  triple (J done) (for_each l body) (fun _ => J (done ++ l)%list) never R.
Proof.
  revert done. induction l as [|x l IH]; intros done Hbody; cbn [for_each].
  - apply triple_ret. intros m Hm. now rewrite app_nil_r.
  - intros st r st' Hpre.
    destruct (body x st) as [rb st1] eqn:Eb.
    pose proof (Hbody [] x l eq_refl st rb st1) as H1.
    rewrite app_nil_r in H1. specialize (H1 Hpre Eb).
    assert (Hnext : triple (J (done ++ [x])%list) (for_each l body)
                      (fun _ => J (done ++ x :: l)%list) never R).
    { eapply triple_weaken; [apply (IH (done ++ [x])%list)| | | |]; auto.
      - intros pre y suf ->.
        specialize (Hbody (x :: pre) y suf eq_refl).
        rewrite <- !app_assoc. exact Hbody.
      - intros u m Hm. cbn in *. rewrite <- app_assoc in Hm. exact Hm. }
    destruct rb as [u|e| | |]; cbn in H1.
    + intros Hrun. exact (Hnext _ _ _ H1 Hrun).
    + intros [= <- <-]. exact H1.
    + intros Hrun. exact (Hnext _ _ _ H1 Hrun).
    + destruct H1.
    + intros [= <- <-]. exact I.
Qed.

Lemma triple_for_each A (J : list A -> Mem -> Prop) (body : A -> M unit)
  (R : exn -> Mem -> Prop) (l : list A) :
  (forall pre x suf, l = (pre ++ x :: suf)%list ->
     triple (J pre) (body x) (fun _ => J (pre ++ [x])%list)
            (J (pre ++ [x])%list) R) ->
  triple (J []) (for_each l body) (fun _ => J l) never R.
Proof. intros H. exact (@triple_for_each_from A J body R l [] H). Qed.

(** [for]: every element adds its weight to a counter. *)
Lemma triple_for_each_count A (J : nat -> Mem -> Prop) (weight : A -> nat)
  (body : A -> M unit) (R : exn -> Mem -> Prop) (l : list A) (n : nat) :
  (forall k x, In x l ->
     triple (J k) (body x) (fun _ => J (k + weight x)%nat)
            (J (k + weight x)%nat) R) ->
  triple (J n) (for_each l body)
         (fun _ => J (n + list_sum (map weight l))%nat) never R.
Proof.
  intros Hbody.
  pose (K := fun pre : list A => J (n + list_sum (map weight pre))%nat).
  eapply triple_weaken;
    [apply (@triple_for_each A K body R l)| | | |]; auto.
  - intros pre x suf ->. unfold K.
    rewrite map_app, list_sum_app. cbn [map list_sum fold_right].
    replace (n + (list_sum (map weight pre) + (weight x + 0)))%nat
      with (n + list_sum (map weight pre) + weight x)%nat by lia.
    apply Hbody. apply in_or_app. right. now left.
  - intros m Hm. unfold K. cbn. now rewrite Nat.add_0_r.
Qed.

Lemma triple_assume A (phi : Prop) (P : Mem -> Prop) (m : M A) N C R :
  (phi -> triple P m N C R) -> triple (fun x => phi /\ P x) m N C R.
Proof. intros H st r st' [Hphi Hpre]. now apply H. Qed.

Lemma triple_exists A V (P : V -> Mem -> Prop) (m : M A) N C R :
  (forall v, triple (P v) m N C R) -> triple (fun x => exists v, P v x) m N C R.
Proof. intros H st r st' [v Hpre]. now apply (H v). Qed.

Lemma list_sum_ones A (l : list A) :
  list_sum (map (fun _ => 1%nat) l) = List.length l.
Proof. induction l; cbn; [reflexivity | now f_equal]. Qed.

Ltac count :=
  unfold enumerating, transferring, enumeration_done, between_folders,
    enumerated, accounted in *;
  cbn in *; rewrite ?length_app in *; cbn in *;
  intuition (try lia; try congruence).

(** *** The source enumeration counts every buffered UID once *)

Section EnumerationCount.

Variables (w : World) (a : Args).
Hypothesis wb : well_behaved w a.
Hypothesis no_skip : skip_empty_folders a = false.

Lemma enumerating_update name e b ks g m :
  (forall f, rows_of (g f) = rows_of f) ->
  enumerating name e b ks m ->
  enumerating name e b ks (with_db_source (supdate name g) m).
Proof.
  intros Hg [H1 [H2 [H3 [H4 [H5 H6]]]]]. unfold enumerating.
  cbn [db_source stats with_db_source with_stats].
  rewrite buffered_supdate_same, keys_supdate by exact Hg.
  repeat split; assumption.
Qed.

Lemma enumerate_source_mail_counts name e b ks row :
  triple (enumerating name e b ks) (enumerate_source_mail w name row)
         (fun _ => enumerating name (S e) b ks)
         (enumerating name (S e) b ks) any_raise.
Proof.
  unfold enumerate_source_mail. destruct row as [mail_id data].
  destruct (md_envelope data) as [envelope|].
  - destruct (md_size data) as [size|];
      [|apply triple_raise; intros; exact I].
    apply triple_bind with (Mid := fun _ => enumerating name e b ks).
    { apply triple_modify. intros m Hm. now apply enumerating_update. }
    intros _.
    apply triple_bind with (Mid := fun _ => enumerating name e b ks).
    { apply triple_modify. intros m Hm. now apply enumerating_update. }
    intros _.
    apply triple_bind with (Mid := fun _ => enumerating name (S e) b ks).
    { apply triple_modify. intros m Hm. count. }
    intros _. apply triple_gets_any. intros n.
    apply triple_when; [intros _ | intros _ m Hm; exact Hm].
    eapply triple_weaken;
      [apply (@triple_keeps unit Mem (fun m => m)
                (enumerating name (S e) b ks));
       [apply keeps_restart_imap_idle | intros x y -> H; exact H]
      | | | |]; cbn; auto.
    intros; exact I.
  - apply triple_bind with (Mid := fun _ => enumerating name (S e) b ks).
    { apply triple_modify. intros m Hm. count. }
    intros _. apply triple_continue. auto.
Qed.

Lemma enumerate_source_rows_count name e b ks rows :
  triple (enumerating name e b ks)
         (for_each rows (enumerate_source_mail w name))
         (fun _ => enumerating name (e + List.length rows)%nat b ks)
         never any_raise.
Proof.
  eapply triple_weaken;
    [apply (@triple_for_each_count _ (fun k => enumerating name k b ks)
              (fun _ => 1%nat) _ any_raise rows e)| | | |]; cbn; auto.
  - intros k x _. replace (k + 1)%nat with (S k) by lia.
    apply enumerate_source_mail_counts.
  - intros _ m Hm. now rewrite list_sum_ones in Hm.
Qed.

Lemma enumerate_source_buffers_count name ks fuel :
  forall mails e,
    triple (enumerating name e e ks)
           (enumerate_source_buffers w a fuel name mails)
           (fun _ m => exists e', enumerating name e' e' ks m)
           never any_raise.
Proof.
  induction fuel as [|fuel IH]; intros [|u mails] e;
    cbn [enumerate_source_buffers].
  - apply triple_ret. eauto.
  - apply triple_diverge.
  - apply triple_ret. eauto.
  - set (buffer := Py.take (buffer_size a) (u :: mails)).
    apply triple_bind
      with (Mid := fun _ =>
                     enumerating name e (e + List.length buffer)%nat ks).
    { apply triple_modify. intros m [H1 [H2 [H3 [H4 [H5 H6]]]]].
      unfold enumerating. cbn [db_source stats with_db_source with_stats].
      rewrite (@buffered_supdate_add name (add_buffer buffer)
                 (List.length buffer) (db_source m)), keys_supdate;
        [repeat split; auto; lia | intros f; apply rows_of_add_buffer
        | now rewrite H4].  }
    intros _.
    apply triple_bind
      with (Mid := fun rows m =>
                     List.length rows = List.length buffer /\
                     enumerating name e (e + List.length buffer)%nat ks m).
    { apply triple_call.
      - intros m rows Hm [h Hh]. split; [|exact Hm].
        exact (wb_meta wb _ _ Hh).
      - intros; exact I. }
    intros rows. apply triple_assume. intros Hlen.
    apply triple_bind
      with (Mid := fun _ => enumerating name (e + List.length buffer)%nat
                                        (e + List.length buffer)%nat ks).
    { eapply triple_weaken;
        [apply (@enumerate_source_rows_count name e
                  (e + List.length buffer)%nat ks rows)| | | |];
        cbn; auto.
      intros _ m Hm. now rewrite Hlen in Hm. }
    intros _. apply IH.
Qed.

Lemma between_folders_more seen name m :
  between_folders seen m -> between_folders (seen ++ [name]) m.
Proof.
  intros [H1 H2]. split; [exact H1|].
  intros k Hk. apply in_or_app. left. now apply H2.
Qed.

Lemma enumerate_source_folder_counts seen flags delimiter name :
  ~ In name seen ->
  triple (between_folders seen)
         (enumerate_source_folder w a (flags, delimiter, name))
         (fun _ => between_folders (seen ++ [name]))
         (between_folders (seen ++ [name])) any_raise.
Proof.
  intros Hnew. unfold enumerate_source_folder.
  apply triple_gets_any. intros sd.
  apply triple_bind with (Mid := fun _ => between_folders seen).
  { apply triple_when; [intros _ | intros _ m Hm; exact Hm].
    unfold decode_delimiter.
    destruct delimiter as [d|]; [|apply triple_raise; intros; exact I].
    destruct (Py.decode d); [|apply triple_raise; intros; exact I].
    apply triple_bind with (Mid := fun _ => between_folders seen);
      [apply triple_ret; auto | intros decoded].
    apply triple_modify. intros m Hm. exact Hm. }
  intros _.
  apply triple_bind with (Mid := fun _ => between_folders seen).
  { apply triple_when; [intros _ | intros _ m Hm; exact Hm].
    apply triple_continue. intros m Hm. now apply between_folders_more. }
  intros _.
  apply triple_bind with (Mid := fun _ => between_folders seen).
  { apply triple_call; [intros m u Hm _; exact Hm | intros; exact I]. }
  intros _.
  apply triple_bind with (Mid := fun _ => between_folders seen).
  { apply triple_call; [intros m u Hm _; exact Hm | intros; exact I]. }
  intros mails. rewrite no_skip, andb_false_r.
  apply triple_bind
    with (Mid := fun _ m => exists ks e,
                   (forall k, In k ks -> In k (seen ++ [name])%list) /\
                   enumerating name e e ks m).
  { apply triple_modify. intros m [[H1 [H2 H3]] H4].
    assert (Hnot : ~ In name (Dict.keys (db_source m)))
      by (intros H; apply Hnew; now apply H4).
    exists (Dict.keys (db_source m) ++ [name])%list,
           (enumerated (stats m)).
    split.
    - intros k Hk. apply in_app_or in Hk as [Hk|Hk]; apply in_or_app;
        [left; now apply H4 | now right].
    - unfold enumerating. cbn [db_source stats with_db_source with_stats].
      rewrite buffered_sset_new, keys_sset_new by exact Hnot.
      repeat split; auto.
      + unfold new_source_folder, rows_of. cbn. lia.
      + apply NoDup_app; [exact H3 | repeat constructor; intros [] |].
        intros x Hx [<-|[]]. now apply Hnot.
      + apply in_or_app. right. now left. }
  intros _. apply triple_exists. intros ks. apply triple_exists. intros e.
  apply triple_assume. intros Hks.
  eapply triple_weaken;
    [apply (@enumerate_source_buffers_count name ks (List.length mails)
              mails e)| | | |]; cbn; auto.
  - intros _ m [e' [H1 [H2 [H3 [H4 [H5 H6]]]]]].
    split; [|intros k Hk; apply Hks; now rewrite <- H4].
    unfold enumeration_done. rewrite H4. repeat split; auto. congruence.
  - intros m [].
Qed.

Lemma enumerate_source_counts :
  triple (between_folders []) (enumerate_source w a)
         (fun _ => enumeration_done) never any_raise.
Proof.
  unfold enumerate_source.
  apply triple_bind
    with (Mid := fun rows m =>
                   NoDup (map (fun row : FolderRow => snd row) rows) /\
                   between_folders [] m).
  { apply triple_call.
    - intros m rows Hm [h Hh]. split; [|exact Hm]. exact (wb_list wb _ Hh).
    - intros; exact I. }
  intros rows. apply triple_assume. intros Hnd.
  eapply triple_weaken;
    [apply (@triple_for_each _
              (fun pre => between_folders
                            (map (fun row : FolderRow => snd row) pre))
              _ any_raise rows)| | | |]; cbn; auto.
  - intros pre [[flags delimiter] name] suf ->.
    rewrite map_app. cbn [map snd].
    apply enumerate_source_folder_counts.
    rewrite map_app in Hnd. cbn in Hnd.
    apply NoDup_remove_2 in Hnd. intros H. apply Hnd.
    apply in_or_app. now left.
  - intros _ m [H _]. exact H.
Qed.

End EnumerationCount.

(** *** The transfer deals with every buffered UID once *)

Section TransferCount.

Variables (w : World) (a : Args).
Hypothesis wb : well_behaved w a.
Hypothesis no_dry : dry_run a = false.
Hypothesis no_skip : skip_empty_folders a = false.

Variables (db : sdict SourceFolder) (e : nat).

Lemma append_mail_counts n df msg_id size subject flags msg date :
  triple (transferring db e n)
         (append_mail w a df msg_id size subject flags msg date)
         (fun _ => transferring db e (S n)) (transferring db e (S n))
         any_raise.
Proof.
  unfold append_mail.
  apply triple_finally_modify
    with (N1 := fun _ => transferring db e (S n))
         (C1 := transferring db e (S n)) (R1 := any_raise);
    [|intros u m Hm; count | intros m Hm; count | intros; exact I].
  apply triple_try_except with (R1 := fun _ => transferring db e n).
  - apply triple_bind with (Mid := fun _ => transferring db e n).
    { destruct (max_line_length a) as [limit|];
        [|apply triple_ret; auto].
      destruct (negb (limit =? 0)); [|apply triple_ret; auto].
      destruct (any_long_line limit msg); [|apply triple_ret; auto].
      apply triple_bind with (Mid := fun _ => transferring db e (S n)).
      - apply triple_modify. intros m Hm. count.
      - intros _. apply triple_continue. auto. }
    intros _.
    apply triple_bind with (Mid := fun _ => transferring db e n).
    { apply triple_call; intros; assumption. }
    intros status. destruct (is_success status).
    + apply triple_modify. intros m Hm. count.
    + destruct (Py.decode status); apply triple_raise; auto.
  - intros x Hx.
    apply triple_bind with (Mid := fun _ => transferring db e (S n)).
    { apply triple_modify. intros m Hm. count. }
    intros _.
    apply triple_bind with (Mid := fun _ => transferring db e (S n)).
    { apply triple_emit. auto. }
    intros _. apply triple_when; [intros _ | auto].
    apply triple_raise. intros; exact I.
  - intros; exact I.
Qed.

Lemma skip_ladder_counts n df msg_id size subject flags msg date :
  triple (transferring db e n)
         (skip_ladder w a df msg_id size subject flags msg date)
         (fun _ => transferring db e (S n)) (transferring db e (S n))
         any_raise.
Proof.
  unfold skip_ladder. destruct (size =? 0).
  { apply triple_bind with (Mid := fun _ => transferring db e (S n));
      [|intros _]; apply triple_modify; intros m Hm; count. }
  apply triple_bind with (Mid := fun _ => transferring db e n).
  { destruct (max_mail_size a);
      [apply triple_ret; auto | apply triple_raise; intros; exact I]. }
  intros [|].
  { apply triple_bind with (Mid := fun _ => transferring db e (S n));
      [|intros _]; apply triple_modify; intros m Hm; count. }
  apply triple_bind with (Mid := fun _ => transferring db e n).
  { unfold already_exists. destruct (incremental a);
      [|apply triple_ret; auto].
    apply triple_gets_any. intros dst.
    destruct (sget df dst) as [f|]; [|apply triple_ret; auto].
    destruct (msg_ids _);
      [apply triple_ret; auto | apply triple_raise; intros; exact I]. }
  intros [|].
  { apply triple_bind with (Mid := fun _ => transferring db e (S n));
      [|intros _]; apply triple_modify; intros m Hm; count. }
  rewrite no_dry. apply append_mail_counts.
Qed.

Lemma lookup_failed_counts n df x msg_id size subject date :
  triple (transferring db e n)
         (lookup_failed df x msg_id size subject date)
         (fun _ => transferring db e (S n)) (transferring db e (S n))
         any_raise.
Proof.
  unfold lookup_failed.
  apply triple_bind with (Mid := fun _ => transferring db e (S n)).
  { apply triple_modify. intros m Hm. count. }
  intros _.
  apply triple_bind with (Mid := fun _ => transferring db e (S n)).
  { apply triple_emit. auto. }
  intros _. apply triple_continue. auto.
Qed.

Lemma transfer_mail_counts n sf df row :
  triple (transferring db e n) (transfer_mail w a sf df row)
         (fun _ => transferring db e (S n)) (transferring db e (S n))
         any_raise.
Proof.
  unfold transfer_mail. destruct row as [mail_id data].
  apply triple_gets_any. intros k.
  apply triple_bind with (Mid := fun _ => transferring db e n).
  { destruct (Nat.eqb k 0);
      [apply triple_raise; intros; exact I | apply triple_ret; auto]. }
  intros _.
  destruct (zget mail_id (sf_mails sf)) as [m|];
    [|apply lookup_failed_counts].
  destruct (fd_flags data); [|apply lookup_failed_counts].
  destruct (fd_rfc822 data); [|apply lookup_failed_counts].
  destruct (fd_internaldate data); [|apply lookup_failed_counts].
  apply skip_ladder_counts.
Qed.

Lemma transfer_rows_count n sf df rows :
  triple (transferring db e n) (for_each rows (transfer_mail w a sf df))
         (fun _ => transferring db e (n + List.length rows)%nat)
         never any_raise.
Proof.
  eapply triple_weaken;
    [apply (@triple_for_each_count _ (fun k => transferring db e k)
              (fun _ => 1%nat) _ any_raise rows n)| | | |]; cbn; auto.
  - intros k x _. replace (k + 1)%nat with (S k) by lia.
    apply transfer_mail_counts.
  - intros _ m Hm. now rewrite list_sum_ones in Hm.
Qed.

Lemma already_exists_only (f : failure) :
  (forall text, f = ImapError text ->
                Py.contains (Py.lower text) "alreadyexists" = true) ->
  forall text, exn_of_failure f = IMAPClientError text ->
               Py.contains (Py.lower text) "alreadyexists" = true.
Proof. intros H text. destruct f; cbn; intros [= <-]. now apply H. Qed.

Lemma create_folder_counts n sf df :
  triple (transferring db e n) (create_folder w a sf df)
         (fun _ => transferring db e n) never any_raise.
Proof.
  unfold create_folder. rewrite no_dry, no_skip. cbn [negb andb].
  apply triple_try_except
    with (R1 := fun x m =>
                  (forall text, x = IMAPClientError text ->
                     Py.contains (Py.lower text) "alreadyexists" = true) /\
                  transferring db e n m).
  - apply triple_bind with (Mid := fun _ => transferring db e n).
    { apply triple_call; [intros; assumption|].
      intros m f Hm [h Hh]. split; [|exact Hm].
      apply already_exists_only. intros text ->. exact (wb_create wb _ _ Hh). }
    intros _.
    apply triple_bind with (Mid := fun _ => transferring db e n).
    { apply triple_when; [intros _ | auto].
      apply triple_call; [intros; assumption|].
      intros m f Hm [h Hh]. split; [|exact Hm].
      apply already_exists_only. intros text ->.
      exact (wb_subscribe wb _ _ Hh). }
    intros _. apply triple_modify. intros m Hm. count.
  - intros x Hx. destruct x; try discriminate Hx.
    apply triple_assume. intros Htext. rewrite (Htext _ eq_refl).
    apply triple_modify. intros m Hm. count.
  - intros; exact I.
Qed.

Lemma transfer_folder_counts n name :
  triple (transferring db e n) (transfer_folder w a name)
         (fun _ => transferring db e (n + rows_of_name db name)%nat)
         (transferring db e (n + rows_of_name db name)%nat) any_raise.
Proof.
  unfold transfer_folder.
  apply triple_bind with (Mid := fun _ => transferring db e n).
  { apply triple_call; intros; first [assumption | exact I]. }
  intros _.
  apply triple_gets_known with (v := db); [intros m [H _]; exact H|].
  unfold rows_of_name.
  destruct (sget name db) as [sf|]; [|apply triple_raise; intros; exact I].
  apply triple_gets_any. intros sd. apply triple_gets_any. intros dd.
  destruct sd as [d_s|]; [|apply triple_raise; intros; exact I].
  destruct dd as [d_d|]; [|apply triple_raise; intros; exact I].
  apply triple_gets_any. intros dst. apply triple_gets_any. intros redir.
  apply triple_bind with (Mid := fun _ => transferring db e n).
  { destruct (smem _ dst).
    - apply triple_modify. intros m Hm. count.
    - eapply triple_weaken; [apply (@create_folder_counts n sf _)| | | |];
        cbn; auto. intros m []. }
  intros _. rewrite no_dry.
  eapply triple_weaken;
    [apply (@triple_for_each_count _ (fun k => transferring db e k)
              (@List.length Z) _ any_raise (sf_buffer sf) n)| | | |];
    cbn; auto.
  - intros k buffer _.
    apply triple_bind
      with (Mid := fun rows m =>
                     List.length rows = List.length buffer /\
                     transferring db e k m).
    { apply triple_call; [|intros; exact I].
      intros m rows Hm [h Hh]. split; [exact (wb_full wb _ _ Hh) | exact Hm]. }
    intros rows. apply triple_assume. intros Hlen.
    eapply triple_weaken;
      [apply (@transfer_rows_count k sf _ rows)| | | |]; cbn; auto.
    + intros _ m Hm. now rewrite Hlen in Hm.
    + intros m [].
  - intros m [].
Qed.

Lemma transfer_body_counts :
  NoDup (Dict.keys db) ->
  triple (transferring db e 0)
         (src <- gets db_source ;;
          for_each (sorted_lower (Dict.keys src)) (transfer_folder w a) ;;
          print OutFinish)
         (fun _ => transferring db e (buffered db)) never any_raise.
Proof.
  intros Hnd.
  apply triple_gets_known with (v := db); [intros m [H _]; exact H|].
  apply triple_bind with (Mid := fun _ => transferring db e (buffered db)).
  - eapply triple_weaken;
      [apply (@triple_for_each_count _ (fun k => transferring db e k)
                (rows_of_name db) _ any_raise
                (sorted_lower (Dict.keys db)) 0)| | | |]; cbn; auto.
    + intros k name _. apply transfer_folder_counts.
    + intros _ m Hm.
      rewrite (Permutation_list_sum
                 (Permutation_map (rows_of_name db)
                    (sorted_lower_perm (Dict.keys db)))) in Hm.
      now rewrite sum_over_keys in Hm.
  - intros _. apply triple_emit. auto.
Qed.

(** A transfer that returns has dealt with every buffered UID, or it was
    aborted and says so. *)
Lemma transfer_counts (st st' : State) (u : unit) :
  NoDup (Dict.keys db) ->
  transferring db e 0 (mem st) ->
  transfer w a st = (Normal u, st') ->
  transferring db e (buffered db) (mem st') \/
  In (EPrint OutAbort) (trace st').
Proof.
  intros Hnd Hpre. unfold transfer, try_except.
  destruct (bind _ _ st) as [r1 st1] eqn:Ebody.
  pose proof (transfer_body_counts Hnd st Hpre Ebody) as Hpost.
  destruct r1 as [x|x| | |]; try discriminate.
  - intros [= <- <-]. left. exact Hpost.
  - destruct x; try discriminate.
    cbn. intros [= <- <-]. right. cbn. apply in_or_app. right. now left.
Qed.

End TransferCount.

(** *** The whole run *)

Lemma bind_normal_inv A B (m : M A) (k : A -> M B) st b st' :
  bind m k st = (Normal b, st') ->
  exists x st1, m st = (Normal x, st1) /\ k x st1 = (Normal b, st').
Proof.
  unfold bind. destruct (m st) as [r st1]. destruct r; try discriminate.
  intros H. eauto.
Qed.

Lemma keeps_mem A (m : M A) st r st' :
  keeps (fun x => x) m -> m st = (r, st') -> mem st' = mem st.
Proof. intros H Hrun. exact (proj1 (H _ _ _ Hrun)). Qed.

Lemma keeps_core A (m : M A) st r st' :
  keeps core m -> m st = (r, st') -> core (mem st') = core (mem st).
Proof. intros H Hrun. exact (proj1 (H _ _ _ Hrun)). Qed.

Lemma enumeration_done_core (x y : Mem) :
  core x = core y -> enumeration_done y -> enumeration_done x.
Proof.
  unfold core, enumeration_done, enumerated, accounted.
  intros [= -> -> -> -> ->]. auto.
Qed.

Lemma well_behaved_ports (w : World) (a : Args) :
  well_behaved w a -> well_behaved w (apply_default_ports a).
Proof.
  intros [H1 H2 H3 H4 H5]. constructor; assumption.
Qed.

Lemma trace_kept (P : event -> Prop) st st' e :
  extends P st st' -> In e (trace st) -> In e (trace st').
Proof.
  intros [new [-> _]] H. apply in_or_app. now left.
Qed.

(** A run that completes without an abort has dealt with every buffered
    UID once. *)
Lemma run_accounts (w : World) (a : Args) (final : State) :
  well_behaved w a -> dry_run a = false -> skip_empty_folders a = false ->
  run w a = (Normal tt, final) ->
  ~ In (EPrint OutAbort) (trace final) ->
  accounted (stats (mem final)) = enumerated (stats (mem final)).
Proof.
  intros Hwb Hdry Hskip Hrun Hquiet.
  apply well_behaved_ports in Hwb.
  set (a' := apply_default_ports a) in *.
  unfold run, script in Hrun. fold a' in Hrun.
  apply bind_normal_inv in Hrun as [u1 [sP [Eprep Hrun]]].
  apply bind_normal_inv in Hrun as [u2 [sL [Elist Hrun]]].
  unfold replicate in Hrun.
  apply bind_normal_inv in Hrun as [u3 [sC [Elinks Hrun]]].
  apply bind_normal_inv in Hrun as [u4 [sI [Eidle Hrun]]].
  apply bind_normal_inv in Hrun as [u5 [sT [Etransfer Hrun]]].
  apply bind_normal_inv in Hrun as [u6 [sO [Eout1 Hrun]]].
  apply bind_normal_inv in Hrun as [u7 [sQ [Eout2 Hrun]]].
  unfold prepare in Eprep.
  apply bind_normal_inv in Eprep as [v1 [sA [Eopen Eprep]]].
  apply bind_normal_inv in Eprep as [v2 [sB [Equota Eprep]]].
  unfold enumerate in Eprep.
  apply bind_normal_inv in Eprep as [v3 [sD [Eidle1 Eprep]]].
  apply bind_normal_inv in Eprep as [v4 [sE [Esource Eprep]]].
  apply bind_normal_inv in Eprep as [v5 [sF [Eidle2 Eprep]]].
  apply bind_normal_inv in Eprep as [v6 [sG [Eidle3 Edest]]].
  (* sessions, quota, idling *)
  pose proof (@keeps_mem _ _ _ _ _ (@keeps_open_sessions w a') Eopen) as M1.
  pose proof (@keeps_mem _ _ _ _ _ (@keeps_check_quota w a') Equota) as M2.
  pose proof (@keeps_mem _ _ _ _ _ (@keeps_start_imap_idle w Destination)
                Eidle1) as M3.
  (* the source enumeration *)
  assert (Hdone : enumeration_done (mem sE)).
  { refine (@enumerate_source_counts w a' Hwb Hskip sD _ sE _ Esource).
    rewrite M3, M2, M1. repeat split; try constructor. intros k []. }
  pose proof (@keeps_mem _ _ _ _ _ (@keeps_end_imap_idle w Destination)
                Eidle2) as M4.
  pose proof (@keeps_mem _ _ _ _ _ (@keeps_start_imap_idle w Source)
                Eidle3) as M5.
  pose proof (@keeps_core _ _ _ _ _ (@keeps_enumerate_destination w a')
                Edest) as M6.
  pose proof (@keeps_mem _ _ _ _ _ (@keeps_list_mode_exit a') Elist) as M7.
  pose proof (@keeps_core _ _ _ _ _ (@keeps_custom_links a') Elinks) as M8.
  pose proof (@keeps_mem _ _ _ _ _ (@keeps_end_imap_idle w Source) Eidle)
    as M9.
  assert (Hstart : enumeration_done (mem sI)).
  { apply (@enumeration_done_core _ (mem sE)); [|exact Hdone].
    rewrite M9, M8, M7, M6, M5, M4. reflexivity. }
  destruct Hstart as [Hcount [Hzero Hnd]].
  (* the transfer *)
  destruct (@transfer_counts w a' Hwb Hdry Hskip (db_source (mem sI))
              (enumerated (stats (mem sI))) sI sT u5 Hnd
              (conj eq_refl (conj eq_refl Hzero)) Etransfer)
    as [Hdone9 | Habort].
  - pose proof (@keeps_mem _ _ _ _ _ (@keeps_logout w Source) Eout1) as M10.
    pose proof (@keeps_mem _ _ _ _ _ (@keeps_logout w Destination) Eout2)
      as M11.
    injection Hrun as <-. cbn [mem].
    rewrite M11, M10. destruct Hdone9 as [_ [He Ha]]. congruence.
  - exfalso. apply Hquiet.
    assert (H10 : extends (fun _ => True) sT sO).
    { eapply (@safe_logout w (fun _ => True)); eauto. }
    assert (H11 : extends (fun _ => True) sO sQ).
    { eapply (@safe_logout w (fun _ => True)); eauto. }
    injection Hrun as <-. cbn [trace]. apply in_or_app. left.
    eapply trace_kept; [exact H11|]. eapply trace_kept; [exact H10|].
    exact Habort.
Qed.

(** C1, as the code has it.  A run that completes without abort, with
    neither [--dry-run] nor [--skip-empty-folders], on servers that answer
    every FETCH with one row for each UID asked, list no source folder
    twice and fail no CREATE or SUBSCRIBE other than with "already exists":
    the copied mails, the skipped mails of all five reasons and the error
    entries add up to [source_mails] plus twice [no_envelope] -- a message
    without ENVELOPE is counted under [no_envelope] and again as an error
    of the lookup, and is not in [source_mails].  The equation of the
    claim holds when no message lacks its ENVELOPE. *)
Theorem conservation_of_messages :
  forall (w : World) (a : Args),
    well_behaved w a -> dry_run a = false -> skip_empty_folders a = false ->
    fst (run w a) = Normal tt ->
    ~ In (EPrint OutAbort) (trace (snd (run w a))) ->
    let s := stats (mem (snd (run w a))) in
    let skipped :=
      (skm_zero_size (skipped_mails s) + skm_max_size (skipped_mails s)
       + skm_no_envelope (skipped_mails s)
       + skm_max_line_length (skipped_mails s)
       + skm_already_exists (skipped_mails s))%nat in
    (copied_mails s + skipped + List.length (errors s)
     = source_mails s + 2 * skm_no_envelope (skipped_mails s))%nat /\
    (skm_no_envelope (skipped_mails s) = 0%nat ->
     (copied_mails s + skipped + List.length (errors s) = source_mails s)%nat).
Proof.
  intros w a Hwb Hdry Hskip Hdone Hquiet s skipped.
  destruct (run w a) as [r final] eqn:Erun. cbn [fst snd] in *. subst r.
  pose proof (run_accounts Hwb Hdry Hskip Erun Hquiet) as H.
  unfold accounted, enumerated in H. fold s in H.
  unfold skipped. split; [lia | intros H0; lia].
Qed.

Lemma conservation_witness :
  let s := stats (mem (snd (run Sample.uniform Sample.limited))) in
  (copied_mails s
   + (skm_zero_size (skipped_mails s) + skm_max_size (skipped_mails s)
      + skm_no_envelope (skipped_mails s)
      + skm_max_line_length (skipped_mails s)
      + skm_already_exists (skipped_mails s))
   + List.length (errors s)
   = source_mails s + 2 * skm_no_envelope (skipped_mails s))%nat.
Proof.
  apply (proj1 (conservation_of_messages (w := Sample.uniform)
                  (a := Sample.limited)
    ltac:(constructor;
          [ intros h uids rows [= <-]; apply length_map
          | intros h uids rows [= <-]; apply length_map
          | intros h rows [= <-]; repeat constructor; intros []
          | intros; discriminate
          | intros; discriminate ])
    eq_refl eq_refl
    ltac:(vm_compute; reflexivity)
    ltac:(vm_compute; intuition discriminate))).
Defined.

(** Why the run must not be a dry run, and why no CREATE may fail: in both
    cases a folder is enumerated and then not transferred. *)
Example dry_run_transfers_nothing :
  let s := stats (mem (snd (run Sample.one_mail
                              (set_dry_run true Sample.limited)))) in
  fst (run Sample.one_mail (set_dry_run true Sample.limited)) = Normal tt /\
  source_mails s = 1%nat /\ accounted s = 0%nat /\
  skm_no_envelope (skipped_mails s) = 0%nat.
Proof. vm_compute. repeat split. Qed.

Example failed_create_skips_folder :
  let s := stats (mem (snd (run Sample.no_create Sample.limited))) in
  fst (run Sample.no_create Sample.limited) = Normal tt /\
  source_mails s = 1%nat /\ accounted s = 0%nat /\
  skm_no_envelope (skipped_mails s) = 0%nat.
Proof. vm_compute. repeat split. Qed.

Example conservation_counts :
  let s := stats (mem (snd (run Sample.uniform Sample.limited))) in
  source_mails s = 2%nat /\ copied_mails s = 1%nat /\
  skm_zero_size (skipped_mails s) = 1%nat /\
  skm_no_envelope (skipped_mails s) = 1%nat /\
  List.length (errors s) = 1%nat.
Proof. vm_compute. repeat split. Qed.

(* ================================================================= *)
(** ** Termination of the enumeration loops *)

Lemma ends_ret A (a : A) : ends (ret a).
Proof. intros st r st' [= <- <-]. discriminate. Qed.

Lemma ends_raise A (e : exn) : ends (@raise A e).
Proof. intros st r st' [= <- <-]. discriminate. Qed.

Lemma ends_continue A : ends (@continue A).
Proof. intros st r st' [= <- <-]. discriminate. Qed.

Lemma ends_gets A (g : Mem -> A) : ends (gets g).
Proof. intros st r st' [= <- <-]. discriminate. Qed.

Lemma ends_modify (g : Mem -> Mem) : ends (modify g).
Proof. intros st r st' [= <- <-]. discriminate. Qed.

Lemma ends_emit (e : event) : ends (emit e).
Proof. intros st r st' [= <- <-]. discriminate. Qed.

Lemma ends_call A (e : event) (answer : list event -> reply A) :
  ends (call e answer).
Proof.
  intros st r st'. unfold call.
  destruct (answer (trace st)); intros [= <- <-]; discriminate.
Qed.

Lemma ends_bind A B (m : M A) (k : A -> M B) :
  ends m -> (forall a, ends (k a)) -> ends (bind m k).
Proof.
  intros Hm Hk st r st'. unfold bind.
  destruct (m st) as [ra st1] eqn:Em. pose proof (Hm _ _ _ Em) as H1.
  destruct ra; try (intros [= <- <-]; congruence). apply Hk.
Qed.

Lemma ends_try_except A (m : M A) (sel : exn -> bool) (h : exn -> M A) :
  ends m -> (forall e, ends (h e)) -> ends (try_except m sel h).
Proof.
  intros Hm Hh st r st'. unfold try_except.
  destruct (m st) as [ra st1] eqn:Em. pose proof (Hm _ _ _ Em) as H1.
  destruct ra as [x|e| | |]; try (intros [= <- <-]; congruence).
  destruct (sel e); [apply Hh | intros [= <- <-]; congruence].
Qed.

Lemma ends_try_finally A (m : M A) (c : M unit) :
  ends m -> ends c -> ends (try_finally m c).
Proof.
  intros Hm Hc st r st'. unfold try_finally.
  destruct (m st) as [ra st1] eqn:Em. pose proof (Hm _ _ _ Em) as H1.
  destruct (c st1) as [rc st2] eqn:Ec. pose proof (Hc _ _ _ Ec) as H2.
  destruct ra; try congruence; destruct rc; try congruence;
    intros [= <- <-]; discriminate.
Qed.

Lemma ends_for_each A (l : list A) (body : A -> M unit) :
  (forall x, ends (body x)) -> ends (for_each l body).
Proof.
  intros Hb. induction l as [|x l IH]; cbn [for_each]; [apply ends_ret|].
  intros st r st'.
  destruct (body x st) as [rb st1] eqn:Eb. pose proof (Hb _ _ _ _ Eb) as H1.
  destruct rb; try congruence; try apply IH; intros [= <- <-]; discriminate.
Qed.

Lemma ends_when (b : bool) (m : M unit) : ends m -> ends (when b m).
Proof. intros H. destruct b; [exact H | apply ends_ret]. Qed.

Ltac ends_structure :=
  first
    [ apply ends_ret | apply ends_raise | apply ends_continue
    | apply ends_gets | apply ends_modify | apply ends_emit | apply ends_call
    | apply ends_bind; [|intros ?]
    | apply ends_when
    | apply ends_try_except; [|intros ?]
    | apply ends_try_finally
    | apply ends_for_each; intros ?
    | match goal with
      | |- ends (if ?b then _ else _) => destruct b
      | |- ends (match ?x with _ => _ end) => destruct x
      end ].

Lemma drop_shorter (a : Args) (u : Z) (mails : list Z) (fuel : nat) :
  buffer_size_ok a ->
  (List.length (u :: mails) <= S fuel)%nat ->
  (List.length (Py.drop (buffer_size a) (u :: mails)) <= fuel)%nat.
Proof.
  unfold buffer_size_ok, Py.drop, Py.slice_stop. intros Hok Hlen.
  rewrite length_skipn.
  destruct (buffer_size a) as [n|]; [|lia].
  destruct (n <? 0) eqn:En; [apply Z.ltb_lt in En; lia|].
  cbn [List.length] in *. lia.
Qed.

Section Termination.

Variables (w : World) (a : Args).
Hypothesis size_ok : buffer_size_ok a.

Lemma ends_start_imap_idle s : ends (start_imap_idle w s).
Proof. unfold start_imap_idle. repeat ends_structure. Qed.

Lemma ends_restart_imap_idle s : ends (restart_imap_idle w s).
Proof.
  unfold restart_imap_idle, end_imap_idle.
  repeat first [ apply ends_start_imap_idle | ends_structure ].
Qed.

Lemma ends_enumerate_source_buffers name fuel :
  forall mails, (List.length mails <= fuel)%nat ->
                ends (enumerate_source_buffers w a fuel name mails).
Proof.
  induction fuel as [|fuel IH]; intros [|u mails] Hlen;
    cbn [enumerate_source_buffers]; try apply ends_ret.
  - cbn in Hlen. lia.
  - apply ends_bind; [apply ends_modify | intros _].
    apply ends_bind; [apply ends_call | intros rows].
    apply ends_bind; [|intros _; apply IH; now apply drop_shorter].
    apply ends_for_each. intros [mail_id data]. unfold enumerate_source_mail.
    repeat first [ apply ends_restart_imap_idle | ends_structure ].
Qed.

Lemma ends_enumerate_destination_buffers name fuel :
  forall mails, (List.length mails <= fuel)%nat ->
                ends (enumerate_destination_buffers w a fuel name mails).
Proof.
  induction fuel as [|fuel IH]; intros [|u mails] Hlen;
    cbn [enumerate_destination_buffers]; try apply ends_ret.
  - cbn in Hlen. lia.
  - apply ends_bind; [apply ends_call | intros rows].
    apply ends_bind; [|intros _; apply IH; now apply drop_shorter].
    apply ends_for_each. intros [mail_id data].
    unfold enumerate_destination_mail. repeat ends_structure.
Qed.

Lemma ends_prepare : ends (prepare w a).
Proof.
  unfold prepare, open_sessions, connect, login, check_quota, first_quota,
    enumerate, enumerate_source, enumerate_destination, end_imap_idle,
    print, exit.
  repeat first
    [ apply ends_start_imap_idle
    | ends_structure
    | match goal with
      | |- ends (enumerate_source_folder _ _ ?row) =>
          destruct row as [[? ?] ?];
          unfold enumerate_source_folder, decode_delimiter
      | |- ends (enumerate_destination_folder _ _ ?row) =>
          destruct row as [[? ?] ?];
          unfold enumerate_destination_folder, decode_delimiter, replace_opt
      | |- ends (enumerate_source_buffers _ _ _ _ _) =>
          apply ends_enumerate_source_buffers; apply Nat.le_refl
      | |- ends (enumerate_destination_buffers _ _ _ _ _) =>
          apply ends_enumerate_destination_buffers; apply Nat.le_refl
      end ].
Qed.

Lemma ends_replicate : ends (replicate w a).
Proof.
  unfold replicate, custom_links, end_imap_idle, transfer, logout, print, exit.
  repeat first
    [ ends_structure
    | match goal with
      | |- ends (parse_redirection _) => unfold parse_redirection
      | |- ends (transfer_folder _ _ _) =>
          unfold transfer_folder, create_folder, print
      | |- ends (transfer_mail _ _ _ _ ?row) =>
          destruct row as [? ?];
          unfold transfer_mail, lookup_failed, skip_ladder, already_exists,
            append_mail, print
      end ].
Qed.

(** With a positive (or absent) buffer size the script ends, whatever the
    servers answer: the fuel of the two [while] loops is enough. *)
Lemma script_ends : ends (script w a).
Proof.
  unfold script, list_mode_exit, print, exit.
  repeat first [ apply ends_prepare | apply ends_replicate | ends_structure ].
Qed.

End Termination.

Lemma run_ends (w : World) (a : Args) :
  buffer_size_ok a -> fst (run w a) <> Diverge.
Proof.
  intros Hok. unfold run.
  destruct (script w (apply_default_ports a) state0) as [r st] eqn:Erun.
  exact (@script_ends w (apply_default_ports a) Hok _ _ _ Erun).
Qed.

(* ================================================================= *)
(** * Further properties of the script *)

(** ** Command line and terminal *)

(** X1. [check_encryption] accepts a value exactly when its lowercase form
    is one of ssl, tls, starttls, none, and returns that form; the accepted
    value is accepted again unchanged, its default port is 143 or 993, and
    [connect] wraps the connection in SSL exactly when that port is 993. *)
Theorem check_encryption_accepts :
  forall value : string,
    (check_encryption value = None <->
     ~ In (Py.lower value) ["ssl"; "tls"; "starttls"; "none"]) /\
    (forall e, check_encryption value = Some e ->
       e = Py.lower value /\
       In e ["ssl"; "tls"; "starttls"; "none"] /\
       check_encryption e = Some e /\
       (default_port e = 143 <-> e = "starttls" \/ e = "none") /\
       (default_port e = 993 <-> Py.mem_string e ["tls"; "ssl"] = true)).
Proof.
  intros value. unfold check_encryption.
  destruct (Py.mem_string (Py.lower value) _) eqn:Hmem.
  - apply mem_string_In in Hmem. split.
    + split; [discriminate | intros H; now contradiction H].
    + intros e [= <-]. split; [reflexivity|]. split; [exact Hmem|].
      rewrite lower_idem.
      cbn in Hmem.
      destruct Hmem as [<- | [<- | [<- | [<- | []]]]];
        (split; [reflexivity|]); split; split;
        try reflexivity; try discriminate; try tauto;
        intros [H | H]; discriminate.
  - split.
    + split; [intros _ H | reflexivity].
      apply mem_string_In in H. congruence.
    + discriminate.
Qed.

Lemma check_encryption_witness :
  "starttls" = Py.lower "StartTLS" /\
  In "starttls" ["ssl"; "tls"; "starttls"; "none"] /\
  check_encryption "starttls" = Some "starttls" /\
  (default_port "starttls" = 143 <-> "starttls" = "starttls" \/ "starttls" = "none") /\
  (default_port "starttls" = 993 <->
   Py.mem_string "starttls" ["tls"; "ssl"] = true).
Proof.
  apply (proj2 (check_encryption_accepts "StartTLS") "starttls").
  reflexivity.
Defined.

Lemma append_assoc3 (a b c : string) : ((a ++ b) ++ c = a ++ b ++ c)%string.
Proof. induction a as [|x a IH]; cbn; [reflexivity | now rewrite IH]. Qed.

(** X2. With [--no-colors], [colorize] returns its text unchanged, whatever
    the colour name.  Otherwise a non-empty colour name outside red, green
    and cyan raises [KeyError], and in every other case the result is the
    colour code, the bold code, the clear-line code (each when asked for, in
    this order), the text, and the reset code. *)
Theorem colorize_result :
  forall (s : string) (color : option string) (bold clear : bool),
    colorize true s color bold clear = Some s /\
    (colorize false s color bold clear = None <->
     exists c, color = Some c /\ c <> "" /\ sget c colors = None) /\
    (forall r, colorize false s color bold clear = Some r ->
       r = (match color with
            | Some c => match sget c colors with Some code => code | None => "" end
            | None => ""
            end)
           ++ (if bold then String ESC "[1m" else "")
           ++ (if clear then String CR (String ESC "[2K") else "")
           ++ s ++ String ESC "[0m").
Proof.
  intros s color bold clear. split; [reflexivity|].
  unfold colorize.
  destruct color as [[|c0 c]|].
  - split.
    + split; [discriminate | intros [c [[= <-] [H _]]]; now contradiction H].
    + intros r [= <-]. destruct bold, clear; cbn; reflexivity.
  - destruct (sget (String c0 c) colors) as [code|] eqn:Ecode.
    + split.
      * split; [discriminate | intros [c' [[= <-] [_ H]]]; congruence].
      * intros r [= <-].
        destruct bold, clear; rewrite append_assoc3; reflexivity.
    + split; [|discriminate].
      split; [|reflexivity]. intros _. exists (String c0 c).
      repeat split; [discriminate | exact Ecode].
  - split.
    + split; [discriminate | intros [c [[=] _]]].
    + intros r [= <-]. destruct bold, clear; cbn; reflexivity.
Qed.

Lemma colorize_witness :
  String ESC "[32m" ++ String ESC "[1m" ++ "OK" ++ String ESC "[0m" =
  (match sget "green" colors with Some code => code | None => "" end)
  ++ String ESC "[1m" ++ "" ++ "OK" ++ String ESC "[0m".
Proof.
  apply (proj2 (proj2 (colorize_result "OK" (Some "green") true false))).
  reflexivity.
Defined.

(** ** Connecting and logging in *)

(** X3. [connect] never changes the script's variables and never raises an
    [Exception]: it returns a connection, or [None], or is interrupted.  It
    opens the connection with SSL exactly for ssl and tls, sends STARTTLS
    only for starttls and only after the connection was accepted, and
    returns a connection exactly when every command it sent was accepted. *)
Theorem connect_behaviour :
  forall (w : World) (a : Args) (s : side) (server : string) (port : Z)
         (encryption : string) (st : State),
    let out := connect w a s server port encryption st in
    let first := hello a s server port encryption in
    mem (snd out) = mem st /\
    (fst out = Normal true \/ fst out = Normal false \/
     fst out = Raise KeyboardInterrupt) /\
    (trace (snd out) = (trace st ++ [first])%list \/
     (encryption = "starttls" /\ w_connect w (trace st) s = Ok tt /\
      trace (snd out) = (trace st ++ [first; EStartTLS s])%list)) /\
    (fst out = Normal true <->
     w_connect w (trace st) s = Ok tt /\
     (encryption = "starttls" ->
      w_starttls w (trace st ++ [first])%list s = Ok tt)).
Proof.
  intros w a s server port encryption st. cbv zeta.
  unfold connect, hello, try_except, bind, call, when, ret.
  destruct (w_connect w (trace st) s) as [[]|f] eqn:Ec.
  - destruct (String.eqb encryption "starttls") eqn:Eenc.
    + apply String.eqb_eq in Eenc. cbn [trace mem].
      destruct (w_starttls w _ s) as [[]|f] eqn:Et.
      * cbn. split; [reflexivity|]. split; [now left|].
        split; [right; rewrite <- app_assoc; now repeat split|].
        split; [intros _; split; [reflexivity | intros _; reflexivity]
               | reflexivity].
      * assert (Hno : ~ (Ok tt = Ok tt /\
                         (encryption = "starttls" -> Fail f = Ok tt)))
          by (intros [_ Hbad]; specialize (Hbad Eenc); discriminate).
        destruct f; cbn; (split; [reflexivity|]); (split; [tauto|]);
          (split; [right; rewrite <- app_assoc; now repeat split|]);
          (split; [discriminate | intros Hyes; now contradiction Hno]).
    + apply String.eqb_neq in Eenc. cbn.
      split; [reflexivity|]. split; [now left|]. split; [now left|].
      split; [intros _; split; [reflexivity | intros Heq; now contradiction Eenc]
             | reflexivity].
  - destruct f; cbn; (split; [reflexivity|]); (split; [tauto|]);
      (split; [now left|]);
      (split; [discriminate | intros [Hbad _]; discriminate]).
Qed.

Lemma connect_witness :
  fst (connect Sample.one_mail Sample.defaults Source "imap.old.example" 993
         "ssl" state0) = Normal true.
Proof.
  apply (proj2 (proj2 (proj2 (proj2
           (connect_behaviour Sample.one_mail Sample.defaults Source
              "imap.old.example" 993 "ssl" state0))))).
  split; [reflexivity | discriminate].
Defined.

Example connect_starttls :
  connect Sample.one_mail Sample.defaults Destination "imap.new.example" 143
    "starttls" state0 =
  (Normal true,
   {| mem := mem0;
      trace := [EConnect Destination "imap.new.example" 143 false false;
                EStartTLS Destination] |}).
Proof. reflexivity. Qed.

(** X4. When the source refuses the connection and the destination accepts
    everything, the script still connects to the destination and logs in
    there with the destination password, never sends a LOGIN to the source,
    and only then stops at the [exit()] of line 212. *)
Theorem refused_source_still_contacts_destination :
  forall (w : World) (a : Args) (st : State) (f : failure),
    w_connect w (trace st) Source = Fail f ->
    f <> Interrupt ->
    (forall h, w_connect w h Destination = Ok tt) ->
    (forall h, w_starttls w h Destination = Ok tt) ->
    (forall h user password, w_login w h Destination user password = Ok tt) ->
    open_sessions w a st =
    (Raise (SystemExit ExitLogin),
     {| mem := mem st;
        trace :=
          (trace st
           ++ [hello a Source (source_server a) (source_port a)
                     (source_encryption a)]
           ++ [hello a Destination (destination_server a)
                     (destination_port a) (destination_encryption a)]
           ++ upgrade Destination (destination_encryption a)
           ++ [ELogin Destination (destination_user a) (destination_pass a);
               EPrint OutAbortLogin])%list |}).
Proof.
  intros w a st f Hsrc Hf Hconn Htls Hlogin.
  unfold open_sessions, connect, login, hello, upgrade, try_except, bind,
    call, when, ret, print, emit, exit, raise.
  rewrite Hsrc.
  assert (Hexc : is_Exception (exn_of_failure f) = true)
    by (destruct f; try reflexivity; now contradiction Hf).
  rewrite Hexc. cbn [trace mem]. rewrite Hconn.
  destruct (String.eqb (destination_encryption a) "starttls");
    cbn [trace mem]; rewrite ?Htls; cbn [trace mem]; rewrite Hlogin;
    cbn; rewrite <- ?app_assoc; reflexivity.
Qed.

Lemma refused_source_witness :
  open_sessions unreachable_source Sample.defaults state0 =
  (Raise (SystemExit ExitLogin),
   {| mem := mem0;
      trace :=
        [EConnect Source "imap.old.example" 993 true false;
         EConnect Destination "imap.new.example" 993 true false;
         ELogin Destination "alice" "secret";
         EPrint OutAbortLogin] |}).
Proof.
  apply (@refused_source_still_contacts_destination unreachable_source
           Sample.defaults state0 (ImapError "connection refused")).
  - reflexivity.
  - discriminate.
  - reflexivity.
  - reflexivity.
  - reflexivity.
Defined.

(* ================================================================= *)
(** ** Whole runs: what is sent, whatever the servers answer *)

(** Proofs by the structure of the script: [tac] settles what is asked of
    an event or an exception, [simp] uses what is known of the options. *)
Ltac safe_leaf tac :=
  first
    [ apply safe_call; [tac | let f := fresh "f" in intros f; destruct f; tac]
    | apply safe_print; tac
    | apply safe_emit; tac
    | apply safe_exit; tac
    | apply safe_raise; tac ].

Ltac unfold_script :=
  unfold script, prepare, open_sessions, connect, login, check_quota,
    first_quota, enumerate, start_imap_idle, end_imap_idle,
    restart_imap_idle, enumerate_source, enumerate_source_folder,
    decode_delimiter, enumerate_source_mail, enumerate_destination,
    enumerate_destination_folder, enumerate_destination_mail, replace_opt,
    list_mode_exit, replicate, custom_links, parse_redirection, transfer,
    transfer_folder, create_folder, transfer_mail, lookup_failed,
    skip_ladder, already_exists, append_mail, logout.

Ltac safe_loops :=
  match goal with
  | IH : forall mails, safe _ _ (enumerate_source_buffers _ _ ?n _ mails)
    |- safe _ _ (enumerate_source_buffers _ _ ?n _ _) => apply IH
  | IH : forall mails, safe _ _ (enumerate_destination_buffers _ _ ?n _ mails)
    |- safe _ _ (enumerate_destination_buffers _ _ ?n _ _) => apply IH
  | |- safe _ _ (enumerate_source_buffers _ _ ?n _ ?m) =>
      generalize n; generalize m;
      let m' := fresh "mails" in
      let n' := fresh "fuel" in
      let IH := fresh "IH" in
      intros m' n'; revert m'; induction n' as [|n' IH];
      intros [|? ?]; cbn [enumerate_source_buffers]
  | |- safe _ _ (enumerate_destination_buffers _ _ ?n _ ?m) =>
      generalize n; generalize m;
      let m' := fresh "mails" in
      let n' := fresh "fuel" in
      let IH := fresh "IH" in
      intros m' n'; revert m'; induction n' as [|n' IH];
      intros [|? ?]; cbn [enumerate_destination_buffers]
  end.

Ltac safe_auto tac simp :=
  repeat first
    [ progress simp
    | progress unfold_script
    | safe_leaf tac
    | safe_structure
    | safe_loops ].

Ltac keeps_loops :=
  match goal with
  | IH : forall mails, keeps _ (enumerate_source_buffers _ _ ?n _ mails)
    |- keeps _ (enumerate_source_buffers _ _ ?n _ _) => apply IH
  | IH : forall mails, keeps _ (enumerate_destination_buffers _ _ ?n _ mails)
    |- keeps _ (enumerate_destination_buffers _ _ ?n _ _) => apply IH
  | |- keeps _ (enumerate_source_buffers _ _ ?n _ ?m) =>
      generalize n; generalize m;
      let m' := fresh "mails" in
      let n' := fresh "fuel" in
      let IH := fresh "IH" in
      intros m' n'; revert m'; induction n' as [|n' IH];
      intros [|? ?]; cbn [enumerate_source_buffers]
  | |- keeps _ (enumerate_destination_buffers _ _ ?n _ ?m) =>
      generalize n; generalize m;
      let m' := fresh "mails" in
      let n' := fresh "fuel" in
      let IH := fresh "IH" in
      intros m' n'; revert m'; induction n' as [|n' IH];
      intros [|? ?]; cbn [enumerate_destination_buffers]
  end.

Ltac keeps_auto simp :=
  repeat first
    [ progress simp
    | progress (unfold_script; unfold print, exit)
    | keeps_structure
    | keeps_loops ].

Lemma run_keeps B (f : Mem -> B) (w : World) (a : Args) :
  keeps f (script w (apply_default_ports a)) ->
  f (mem (snd (run w a))) = f mem0.
Proof.
  intros H. unfold run.
  destruct (script w (apply_default_ports a) state0) as [r st] eqn:Erun.
  exact (proj1 (H _ _ _ Erun)).
Qed.

Lemma run_safe (P : event -> Prop) (E : exn -> Prop) (w : World) (a : Args) :
  safe P E (script w (apply_default_ports a)) ->
  Forall P (trace (snd (run w a))) /\
  (forall e, fst (run w a) = Raise e -> E e).
Proof.
  intros H. unfold run.
  destruct (script w (apply_default_ports a) state0) as [r st] eqn:Erun.
  destruct (H _ _ _ Erun) as [Hx He]. split; [|exact He].
  now apply extends_from_start.
Qed.

(** X5. With [--dry-run] the script sends no CREATE, no SUBSCRIBE, no
    APPEND and fetches no message body, whatever the servers answer; at the
    end nothing is counted as copied or processed and no error is
    recorded. *)
Theorem dry_run_moves_nothing :
  forall (w : World) (a : Args),
    dry_run a = true ->
    Forall (fun e => moves_mail e = false) (trace (snd (run w a))) /\
    transfer_counters (mem (snd (run w a))) = (0%nat, 0%nat, 0%nat, []).
Proof.
  intros w a Hdry.
  assert (Hdry' : dry_run (apply_default_ports a) = true) by exact Hdry.
  split.
  - apply (@run_safe (fun e => moves_mail e = false) any_exn).
    safe_auto ltac:(first [reflexivity | exact I])
              ltac:(rewrite Hdry'; cbn [negb]).
  - apply (@run_keeps _ transfer_counters).
    keeps_auto ltac:(rewrite Hdry'; cbn [negb]).
Qed.

Lemma dry_run_witness :
  Forall (fun e => moves_mail e = false)
         (trace (snd (run Sample.one_mail (set_dry_run true Sample.limited)))) /\
  transfer_counters
    (mem (snd (run Sample.one_mail (set_dry_run true Sample.limited)))) =
  (0%nat, 0%nat, 0%nat, []).
Proof.
  apply (dry_run_moves_nothing Sample.one_mail
           (set_dry_run true Sample.limited)).
  reflexivity.
Defined.

(** X6. Two switches, in every run: with [--destination-no-subscribe] no
    SUBSCRIBE is ever sent; and the metadata FETCH asks the source for size
    and envelope, the destination for the size alone, with the envelope
    added exactly in incremental mode. *)
Theorem switches_guard_commands :
  forall (w : World) (a : Args),
    (destination_no_subscribe a = true ->
     Forall (fun e => is_subscribe e = false) (trace (snd (run w a)))) /\
    Forall (fetch_items_ok a) (trace (snd (run w a))).
Proof.
  intros w a. split.
  - intros Hno.
    assert (Hno' : destination_no_subscribe (apply_default_ports a) = true)
      by exact Hno.
    apply (@run_safe (fun e => is_subscribe e = false) any_exn).
    safe_auto ltac:(first [reflexivity | exact I])
              ltac:(rewrite Hno'; cbn [negb]).
  - apply (@run_safe (fetch_items_ok a) any_exn).
    change (fetch_items_ok a) with (fetch_items_ok (apply_default_ports a)).
    generalize (apply_default_ports a). clear a. intros a.
    safe_auto ltac:(first [reflexivity | exact I
                          | cbn; destruct (incremental a); reflexivity])
              ltac:(fail).
Qed.

Lemma switches_witness :
  Forall (fun e => is_subscribe e = false)
         (trace (snd (run fresh_destination without_subscribe))).
Proof.
  apply (proj1 (switches_guard_commands fresh_destination without_subscribe)).
  reflexivity.
Defined.

Example without_subscribe_creates :
  In (ECreate "INBOX") (trace (snd (run fresh_destination without_subscribe))).
Proof. vm_compute. tauto. Qed.

(** ** Leaving the servers *)

Lemma bind_raise_inv A B (m : M A) (k : A -> M B) st e st' :
  bind m k st = (Raise e, st') ->
  m st = (Raise e, st') \/
  exists x st1, m st = (Normal x, st1) /\ k x st1 = (Raise e, st').
Proof.
  unfold bind. destruct (m st) as [r st1]. destruct r; try discriminate.
  - intros H. right. eauto.
  - intros [= <- <-]. now left.
Qed.

Lemma logout_trace (w : World) (s : side) (st st' : State) :
  logout w s st = (Normal tt, st') ->
  exists mid, trace st' = (trace st ++ ELogout s :: mid)%list /\
              Forall (fun e => is_print e = true) mid.
Proof.
  unfold logout, try_except, call, print, emit.
  destruct (w_logout w (trace st) s) as [[]|f].
  - intros [= <-]. exists []. split; [reflexivity | constructor].
  - destruct f; cbn; try discriminate.
    intros [= <-]. eexists [_]. cbn. rewrite <- app_assoc.
    split; [reflexivity | repeat constructor].
Qed.

Section Leaving.

Variables (w : World) (a : Args).

Lemma safe_until_logout :
  safe (fun e => is_logout e = false) any_exn
       (prepare w a ;; list_mode_exit a ;; custom_links a ;;
        end_imap_idle w Source ;; transfer w a).
Proof. safe_auto ltac:(first [reflexivity | exact I]) ltac:(fail). Qed.

Lemma no_exit_after_redirections :
  safe (fun _ => True) (fun e => is_exit e = false)
       (end_imap_idle w Source ;; transfer w a ;; logout w Source ;;
        logout w Destination ;; print OutReport).
Proof. safe_auto ltac:(first [reflexivity | exact I]) ltac:(fail). Qed.

Lemma safe_before_transfer :
  safe (fun e => is_logout e = false) any_exn
       (prepare w a ;; list_mode_exit a ;; custom_links a).
Proof. safe_auto ltac:(first [reflexivity | exact I]) ltac:(fail). Qed.

End Leaving.

Lemma bind_assoc A B C (m : M A) (k : A -> M B) (h : B -> M C) st :
  bind (bind m k) h st = bind m (fun x => bind (k x) h) st.
Proof. unfold bind. destruct (m st) as [[] ?]; reflexivity. Qed.

Lemma script_split_logout (w : World) (a : Args) st :
  script w a st =
  ((prepare w a ;; list_mode_exit a ;; custom_links a ;;
    end_imap_idle w Source ;; transfer w a) ;;
   logout w Source ;; logout w Destination ;; print OutReport) st.
Proof.
  unfold script, replicate, bind.
  destruct (prepare w a st) as [[] ?]; try reflexivity;
    destruct (list_mode_exit a _) as [[] ?]; try reflexivity;
    destruct (custom_links a _) as [[] ?]; try reflexivity;
    destruct (end_imap_idle w Source _) as [[] ?]; try reflexivity;
    destruct (transfer w a _) as [[] ?]; reflexivity.
Qed.

Lemma script_split_exit (w : World) (a : Args) st :
  script w a st =
  ((prepare w a ;; list_mode_exit a ;; custom_links a) ;;
   end_imap_idle w Source ;; transfer w a ;; logout w Source ;;
   logout w Destination ;; print OutReport) st.
Proof.
  unfold script, replicate, bind.
  destruct (prepare w a st) as [[] ?]; try reflexivity;
    destruct (list_mode_exit a _) as [[] ?]; reflexivity.
Qed.

(** X7. A run that completes has logged out of the source and then of the
    destination, after every other command, with nothing but printing in
    between and the report at the end.  A run that stops at an [exit()]
    (failed login, quota, list mode, unresolved redirection) has sent no
    LOGOUT at all: the sessions are left to the servers. *)
Theorem logout_only_when_completed :
  forall (w : World) (a : Args),
    (fst (run w a) = Normal tt ->
     exists before mid1 mid2,
       trace (snd (run w a)) =
         (before ++ ELogout Source :: mid1 ++ ELogout Destination :: mid2
                 ++ [EPrint OutReport])%list /\
       Forall (fun e => is_logout e = false) before /\
       Forall (fun e => is_print e = true) mid1 /\
       Forall (fun e => is_print e = true) mid2) /\
    (forall p, fst (run w a) = Raise (SystemExit p) ->
       Forall (fun e => is_logout e = false) (trace (snd (run w a)))).
Proof.
  intros w a. unfold run. set (a' := apply_default_ports a). split.
  - rewrite script_split_logout.
    destruct (bind _ _ state0) as [r st] eqn:Erun. cbn [fst snd].
    intros ->.
    apply bind_normal_inv in Erun as [u [st1 [E1 Erun]]].
    apply bind_normal_inv in Erun as [u2 [st2 [E2 Erun]]].
    apply bind_normal_inv in Erun as [u3 [st3 [E3 Erun]]].
    destruct u2, u3.
    apply logout_trace in E2 as [mid1 [T2 F2]].
    apply logout_trace in E3 as [mid2 [T3 F3]].
    injection Erun as <-. cbn [trace].
    destruct (@safe_until_logout w a' _ _ _ E1) as [[new [Tn Fn]] _].
    cbn [trace state0 app] in Tn.
    exists (trace st1), mid1, mid2. split.
    + rewrite T3, T2. rewrite <- !app_assoc. reflexivity.
    + rewrite Tn. auto.
  - intros p. rewrite script_split_exit.
    destruct (bind _ _ state0) as [r st] eqn:Erun. cbn [fst snd].
    intros ->.
    apply bind_raise_inv in Erun as [E1 | [u [st1 [E1 Erun]]]].
    + destruct (@safe_before_transfer w a' _ _ _ E1) as [Hx _].
      now apply extends_from_start.
    + destruct (@no_exit_after_redirections w a' _ _ _ Erun) as [_ He].
      specialize (He _ eq_refl). discriminate.
Qed.

Lemma logout_witness :
  (exists before mid1 mid2,
     trace (snd (run Sample.one_mail Sample.limited)) =
       (before ++ ELogout Source :: mid1 ++ ELogout Destination :: mid2
               ++ [EPrint OutReport])%list /\
     Forall (fun e => is_logout e = false) before /\
     Forall (fun e => is_print e = true) mid1 /\
     Forall (fun e => is_print e = true) mid2) /\
  Forall (fun e => is_logout e = false)
         (trace (snd (run Sample.locked_out Sample.limited))).
Proof.
  split.
  - apply (proj1 (logout_only_when_completed Sample.one_mail Sample.limited)).
    vm_compute. reflexivity.
  - apply (proj2 (logout_only_when_completed Sample.locked_out Sample.limited)
             ExitLogin).
    vm_compute. reflexivity.
Defined.

(** ** The quota gate *)

Lemma safe_bind_ret (P : event -> Prop) (E : exn -> Prop) A B (v : A)
  (k : A -> M B) :
  safe P E (k v) -> safe P E (bind (ret v) k).
Proof. intros H st r st' Hrun. exact (H st r st' Hrun). Qed.

Section QuotaIgnored.

Variables (w : World) (a : Args).
Hypothesis ignored : ignore_quota a = true.

Lemma safe_check_quota_ignored :
  safe (fun e => quota_gate_event e = false)
       (fun e => e <> SystemExit ExitQuota) (check_quota w a).
Proof.
  unfold check_quota. rewrite ignored. cbn [negb].
  apply safe_bind; [safe_leaf ltac:(first [reflexivity | discriminate])|].
  intros has_s. apply safe_bind.
  { unfold first_quota.
    safe_auto ltac:(first [reflexivity | discriminate]) ltac:(fail). }
  intros source_quota.
  apply safe_bind; [safe_leaf ltac:(first [reflexivity | discriminate])|].
  intros has_d. rewrite andb_false_r. apply safe_bind_ret.
  destruct source_quota; apply safe_ret.
Qed.

Lemma safe_script_quota_ignored :
  safe (fun e => quota_gate_event e = false)
       (fun e => e <> SystemExit ExitQuota) (script w a).
Proof.
  unfold script, prepare.
  apply safe_bind; [|intros ?].
  - apply safe_bind;
      [safe_auto ltac:(first [reflexivity | discriminate]) ltac:(fail)|].
    intros ?.
    apply safe_bind; [apply safe_check_quota_ignored | intros ?].
    safe_auto ltac:(first [reflexivity | discriminate]) ltac:(fail).
  - safe_auto ltac:(first [reflexivity | discriminate]) ltac:(fail).
Qed.

End QuotaIgnored.


(** Without [--ignore-quota] the word (ignoring) of line 248 cannot be
    printed either: the branch is never reached. *)
Lemma safe_script_never_ignoring (w : World) (a : Args) :
  safe (fun e => e <> EPrint OutQuotaIgnoring) any_exn (script w a).
Proof.
  destruct (ignore_quota a) eqn:Hign.
  - intros st r st' Hrun.
    destruct (@safe_script_quota_ignored w a Hign _ _ _ Hrun) as [Hx _].
    split; [|intros; exact I].
    eapply extends_weaken; [|exact Hx].
    intros e He ->. discriminate.
  - safe_auto ltac:(first [discriminate | exact I])
              ltac:(rewrite Hign; cbn [negb]).
Qed.

(** X8. The branch of line 248 is dead: no run prints the (ignoring)
    notice.  With [--ignore-quota] the destination quota is never asked
    for, the two quotas are never compared, and no run stops at the
    [exit()] of the quota gate (line 251). *)
Theorem ignore_quota_skips_gate :
  forall (w : World) (a : Args),
    Forall (fun e => e <> EPrint OutQuotaIgnoring) (trace (snd (run w a))) /\
    (ignore_quota a = true ->
     Forall (fun e => quota_gate_event e = false) (trace (snd (run w a))) /\
     fst (run w a) <> Raise (SystemExit ExitQuota)).
Proof.
  intros w a. split.
  - apply (@run_safe _ any_exn). apply safe_script_never_ignoring.
  - intros Hign.
    assert (Hign' : ignore_quota (apply_default_ports a) = true) by exact Hign.
    destruct (@run_safe _ _ w a
                (@safe_script_quota_ignored w (apply_default_ports a) Hign'))
      as [Hall He].
    split; [exact Hall|]. intros Hexit. now apply (He _ Hexit).
Qed.

Lemma ignore_quota_witness :
  Forall (fun e => quota_gate_event e = false)
    (trace (snd (run Sample.tight_quota
                     (set_ignore_quota true Sample.limited)))) /\
  fst (run Sample.tight_quota (set_ignore_quota true Sample.limited)) <>
  Raise (SystemExit ExitQuota).
Proof.
  apply (proj2 (ignore_quota_skips_gate Sample.tight_quota
                  (set_ignore_quota true Sample.limited))).
  reflexivity.
Defined.

(** ** Edge cases of the enumeration *)

(** X9. A destination account that lists no folder at all stops the script
    before anything is enumerated: once both sessions are open and the
    quota check has passed, [start_imap_idle] sends LIST, finds no first
    folder and the run ends with an uncaught [IndexError]. *)
Theorem empty_destination_crashes :
  forall (w : World) (a : Args) (st0 st1 : State),
    open_sessions w (apply_default_ports a) state0 = (Normal tt, st0) ->
    check_quota w (apply_default_ports a) st0 = (Normal tt, st1) ->
    w_list_folders w (trace st1) Destination "" = Ok [] ->
    run w a =
    (Raise IndexError,
     {| mem := mem st1;
        trace := (trace st1 ++ [EListFolders Destination ""])%list |}) /\
    exit_status (fst (run w a)) = Some 1.
Proof.
  intros w a st0 st1 Hopen Hquota Hlist.
  assert (Hrun : run w a =
            (Raise IndexError,
             {| mem := mem st1;
                trace := (trace st1 ++ [EListFolders Destination ""])%list |})).
  { unfold run, script, prepare, enumerate.
    erewrite bind_raise; [reflexivity|].
    erewrite bind_normal; [|exact Hopen].
    erewrite bind_normal; [|exact Hquota].
    erewrite bind_raise; [reflexivity|].
    unfold start_imap_idle, bind, call. rewrite Hlist. reflexivity. }
  rewrite Hrun. split; reflexivity.
Qed.

Lemma empty_destination_witness :
  run empty_destination Sample.limited =
  (Raise IndexError,
   {| mem := mem0;
      trace :=
        [EConnect Source "imap.old.example" 993 true false;
         EConnect Destination "imap.new.example" 993 true false;
         ELogin Source "alice" "secret";
         ELogin Destination "alice" "secret";
         EHasCapability Source "QUOTA";
         EHasCapability Destination "QUOTA";
         EListFolders Destination ""] |}) /\
  exit_status (fst (run empty_destination Sample.limited)) = Some 1.
Proof.
  apply (@empty_destination_crashes empty_destination Sample.limited
           {| mem := mem0;
              trace :=
                [EConnect Source "imap.old.example" 993 true false;
                 EConnect Destination "imap.new.example" 993 true false;
                 ELogin Source "alice" "secret";
                 ELogin Destination "alice" "secret"] |}
           {| mem := mem0;
              trace :=
                [EConnect Source "imap.old.example" 993 true false;
                 EConnect Destination "imap.new.example" 993 true false;
                 ELogin Source "alice" "secret";
                 ELogin Destination "alice" "secret";
                 EHasCapability Source "QUOTA";
                 EHasCapability Destination "QUOTA"] |}).
  - reflexivity.
  - reflexivity.
  - reflexivity.
Defined.

(** X10. The hierarchy delimiter is read from the first folder the source
    lists.  When that folder comes with a NIL delimiter, the enumeration
    stops at [delimiter.decode()] with an [AttributeError]: no folder is
    selected and the manifest stays as it was. *)
Theorem nil_delimiter_crashes :
  forall (w : World) (a : Args) (st : State) (flags : list string)
         (name : string) (rest : list FolderRow),
    truthy (source_delimiter (mem st)) = false ->
    w_list_folders w (trace st) Source (source_root a) =
      Ok ((flags, None, name) :: rest) ->
    enumerate_source w a st =
    (Raise AttributeError,
     {| mem := mem st;
        trace := (trace st ++ [EListFolders Source (source_root a)])%list |}).
Proof.
  intros w a st flags name rest Hnone Hlist.
  unfold enumerate_source, bind at 1, call. rewrite Hlist.
  cbn [for_each enumerate_source_folder].
  unfold bind at 1, gets. cbn [mem]. unfold bind at 1.
  rewrite Hnone. reflexivity.
Qed.

Lemma nil_delimiter_witness :
  fst (run flat_source Sample.limited) = Raise AttributeError.
Proof.
  unfold run, script, prepare.
  erewrite bind_raise; [reflexivity|].
  erewrite bind_normal; [|vm_compute; reflexivity].
  erewrite bind_normal; [|vm_compute; reflexivity].
  unfold enumerate.
  erewrite bind_normal; [|vm_compute; reflexivity].
  erewrite bind_raise; [reflexivity|].
  apply (@nil_delimiter_crashes flat_source
           (apply_default_ports Sample.limited) _ [] "INBOX" []).
  - reflexivity.
  - reflexivity.
Defined.

(* ================================================================= *)
(** ** Folder names *)




Lemma subst_char_round_trip (c d : ascii) (s : string) :
  absent d s ->
  subst_char d (String c "") (subst_char c (String d "") s) = s.
Proof.
  induction s as [|x s IH]; cbn [subst_char absent]; [reflexivity|].
  intros [Hx Hs]. destruct (Ascii.eqb x c) eqn:Exc.
  - apply Ascii.eqb_eq in Exc. subst x. cbn [append subst_char].
    rewrite Ascii.eqb_refl. cbn [append]. now rewrite IH.
  - cbn [subst_char]. apply Ascii.eqb_neq in Hx. rewrite Hx.
    now rewrite IH.
Qed.

Lemma subst_char_absent (c d : ascii) (s : string) :
  c <> d -> absent c (subst_char c (String d "") s).
Proof.
  intros Hcd. induction s as [|x s IH]; cbn [subst_char absent]; [exact I|].
  destruct (Ascii.eqb x c) eqn:Exc.
  - cbn [append absent]. split; [congruence | exact IH].
  - cbn [absent]. apply Ascii.eqb_neq in Exc. split; [exact Exc | exact IH].
Qed.

(** X11. Lines 356 and 443 translate folder names between the delimiters
    of the two servers.  For one-character delimiters [c] and [d], a source
    name in which [d] does not occur is translated to the destination and
    back without change, and the translated name no longer holds [c]. *)
Theorem delimiter_round_trip :
  forall (c d : ascii) (S : string),
    absent d S ->
    let D := Py.replace S (String c "") (String d "") in
    Py.replace D (String d "") (String c "") = S /\
    (c <> d -> absent c D).
Proof.
  intros c d S Habs D. unfold D. rewrite !replace_one_char. split.
  - now apply subst_char_round_trip.
  - intros Hcd. now apply subst_char_absent.
Qed.

Lemma delimiter_round_trip_witness :
  Py.replace (Py.replace "Work.Projects.Foo" "." "/") "/" "." =
    "Work.Projects.Foo" /\
  ("."%char <> "/"%char ->
   absent "." (Py.replace "Work.Projects.Foo" "." "/")).
Proof.
  apply (delimiter_round_trip "." "/" "Work.Projects.Foo").
  cbn. repeat split; discriminate.
Defined.

(** A source name that already holds the destination delimiter does not
    come back. *)
Example round_trip_needs_absence :
  Py.replace (Py.replace "a/b.c" "." "/") "/" "." = "a.b.c".
Proof. reflexivity. Qed.

Lemma startswith_app (p s : string) : Py.startswith (p ++ s) p = true.
Proof.
  induction p as [|c p IH]; cbn; [reflexivity|].
  now rewrite Ascii.eqb_refl, IH.
Qed.

(** X12. With [--destination-root-merge] the root is added at most once:
    prefixing a name that went through lines 445-449 changes nothing.
    Without the option every pass adds the root again. *)
Theorem destination_root_merge_idempotent :
  forall (a : Args) (d_d df_name : string),
    (destination_root_merge a = true ->
     add_destination_root a d_d (add_destination_root a d_d df_name) =
     add_destination_root a d_d df_name) /\
    (destination_root_merge a = false ->
     destination_root a <> "" ->
     add_destination_root a d_d (add_destination_root a d_d df_name) =
     destination_root a ++ d_d ++ destination_root a ++ d_d ++ df_name).
Proof.
  intros a d_d df_name. unfold add_destination_root. split.
  - intros Hmerge. rewrite Hmerge. cbn [negb orb].
    destruct (destination_root a) as [|c root]; [reflexivity|].
    destruct (negb (Py.startswith df_name (String c root ++ d_d))
              && negb (String.eqb df_name (String c root)))%bool eqn:E.
    + rewrite <- (append_assoc3 (String c root) d_d df_name).
      now rewrite startswith_app.
    + now rewrite E.
  - intros Hmerge Hroot. rewrite Hmerge. cbn [negb orb].
    destruct (destination_root a) as [|c root]; [now contradiction Hroot|].
    reflexivity.
Qed.

Lemma destination_root_merge_witness :
  add_destination_root under_archive "/"
    (add_destination_root under_archive "/" "INBOX") =
  add_destination_root under_archive "/" "INBOX".
Proof.
  apply (proj1 (destination_root_merge_idempotent under_archive "/" "INBOX")).
  reflexivity.
Defined.

Example root_added_once :
  add_destination_root under_archive "/" "INBOX" = "Archive/INBOX" /\
  add_destination_root under_archive "/" "Archive/INBOX" = "Archive/INBOX" /\
  add_destination_root under_archive "/" "Archive" = "Archive" /\
  add_destination_root under_archive "/" "Archives" = "Archive/Archives".
Proof. repeat split. Qed.

(** ** The order of the transfer *)


Lemma ascii_compare_refl (a : ascii) : Ascii.compare a a = Eq.
Proof. unfold Ascii.compare. apply N.compare_refl. Qed.

Lemma ascii_compare_lt_trans (a b c : ascii) :
  Ascii.compare a b = Lt -> Ascii.compare b c = Lt -> Ascii.compare a c = Lt.
Proof.
  unfold Ascii.compare. rewrite !N.compare_lt_iff. apply N.lt_trans.
Qed.

Lemma string_lt_trans (a b c : string) :
  String.compare a b = Lt -> String.compare b c = Lt ->
  String.compare a c = Lt.
Proof.
  revert b c. induction a as [|x a IH]; intros [|y b] [|z c]; cbn;
    try discriminate; try reflexivity.
  destruct (Ascii.compare x y) eqn:Exy; try discriminate;
    destruct (Ascii.compare y z) eqn:Eyz; try discriminate; intros H1 H2.
  - apply Ascii.compare_eq_iff in Exy, Eyz. subst.
    rewrite ascii_compare_refl. eapply IH; eauto.
  - apply Ascii.compare_eq_iff in Exy. subst. now rewrite Eyz.
  - apply Ascii.compare_eq_iff in Eyz. subst. now rewrite Exy.
  - now rewrite (@ascii_compare_lt_trans _ _ _ Exy Eyz).
Qed.

Lemma string_lt_irrefl (a : string) : String.compare a a <> Lt.
Proof.
  induction a as [|x a IH]; cbn; [discriminate|].
  now rewrite ascii_compare_refl.
Qed.

Lemma ltb_trans (a b c : string) :
  String.ltb a b = true -> String.ltb b c = true -> String.ltb a c = true.
Proof.
  unfold String.ltb.
  destruct (String.compare a b) eqn:E1; try discriminate.
  destruct (String.compare b c) eqn:E2; try discriminate.
  now rewrite (@string_lt_trans _ _ _ E1 E2).
Qed.

Lemma ltb_irrefl (a : string) : String.ltb a a = false.
Proof.
  unfold String.ltb. destruct (String.compare a a) eqn:E; try reflexivity.
  now apply string_lt_irrefl in E.
Qed.

Lemma ltb_asym (a b : string) :
  String.ltb a b = true -> String.ltb b a = false.
Proof.
  intros H. destruct (String.ltb b a) eqn:E; [|reflexivity].
  pose proof (@ltb_trans _ _ _ H E) as Hc. now rewrite ltb_irrefl in Hc.
Qed.

Lemma lower_le_after (x y z : string) :
  String.ltb (Py.lower x) (Py.lower y) = true -> lower_le y z -> lower_le x z.
Proof.
  unfold lower_le. intros Hxy Hyz.
  destruct (String.ltb (Py.lower z) (Py.lower x)) eqn:E; [|reflexivity].
  now rewrite (@ltb_trans _ _ _ E Hxy) in Hyz.
Qed.

Lemma insert_sorted_In (x y : string) (l : list string) :
  In y (insert_sorted x l) -> y = x \/ In y l.
Proof.
  intros H. apply (Permutation_in y (insert_sorted_perm x l)) in H.
  destruct H; auto.
Qed.

Lemma insert_sorted_sorted (x : string) (l : list string) :
  StronglySorted lower_le l -> StronglySorted lower_le (insert_sorted x l).
Proof.
  induction 1 as [|y l Hs IH Hall]; cbn [insert_sorted].
  - repeat constructor.
  - destruct (String.ltb (Py.lower x) (Py.lower y)) eqn:E.
    + constructor; [now constructor|]. constructor.
      * unfold lower_le. now apply ltb_asym.
      * eapply Forall_impl; [|exact Hall].
        intros z Hz. exact (@lower_le_after x y z E Hz).
    + constructor; [exact IH|].
      apply Forall_forall. intros z Hz.
      apply insert_sorted_In in Hz as [-> | Hz]; [exact E|].
      rewrite Forall_forall in Hall. now apply Hall.
Qed.


Lemma same_key_none (k : string) (l : list string) :
  Forall (fun z => Py.lower z <> k) l -> same_key k l = [].
Proof.
  induction 1 as [|z l Hz _ IH]; cbn; [reflexivity|].
  apply String.eqb_neq in Hz. now rewrite Hz.
Qed.

Lemma insert_sorted_same_key (x k : string) (l : list string) :
  StronglySorted lower_le l ->
  same_key k (insert_sorted x l) =
  (same_key k l ++ (if String.eqb (Py.lower x) k then [x] else []))%list.
Proof.
  induction 1 as [|y l Hs IH Hall]; cbn [insert_sorted].
  - cbn. destruct (String.eqb (Py.lower x) k); reflexivity.
  - destruct (String.ltb (Py.lower x) (Py.lower y)) eqn:E.
    + destruct (String.eqb (Py.lower x) k) eqn:Ex.
      * apply String.eqb_eq in Ex.
        assert (Hnone : same_key k (y :: l) = []).
        { apply same_key_none. constructor.
          - intros Hy. rewrite Hy, <- Ex, ltb_irrefl in E. discriminate.
          - eapply Forall_impl; [|exact Hall].
            intros z Hz Hk. unfold lower_le in Hz.
            rewrite Hk, <- Ex, E in Hz. discriminate. }
        unfold same_key in *. cbn [filter]. cbn [filter] in Hnone.
        rewrite Hnone. apply String.eqb_eq in Ex. now rewrite Ex.
      * unfold same_key. cbn [filter]. rewrite Ex. now rewrite app_nil_r.
    + unfold same_key in *. cbn [filter]. rewrite IH.
      destruct (String.eqb (Py.lower y) k); reflexivity.
Qed.

Lemma fold_insert_spec (l acc : list string) :
  StronglySorted lower_le acc ->
  let r := fold_left (fun acc x => insert_sorted x acc) l acc in
  StronglySorted lower_le r /\
  forall k, same_key k r = (same_key k acc ++ same_key k l)%list.
Proof.
  revert acc. induction l as [|x l IH]; intros acc Hacc; cbn [fold_left].
  - split; [exact Hacc|]. intros k. cbn. now rewrite app_nil_r.
  - destruct (IH (insert_sorted x acc) (@insert_sorted_sorted x acc Hacc))
      as [Hs Hk].
    split; [exact Hs|]. intros k. rewrite Hk, insert_sorted_same_key by exact Hacc.
    rewrite <- app_assoc. f_equal. unfold same_key. cbn [filter].
    destruct (String.eqb (Py.lower x) k); reflexivity.
Qed.


Example sorted_lower_example :
  sorted_lower ["Sent"; "inbox"; "INBOX"; "Archive"; "drafts"] =
  ["Archive"; "drafts"; "inbox"; "INBOX"; "Sent"].
Proof. reflexivity. Qed.

(* ================================================================= *)
(** ** The buffer size and the two [while] loops *)

Lemma zero_buffer_never_ends (w : World) (a : Args) (name : string) :
  buffer_size a = Some 0 ->
  (forall h, w_fetch_meta w h Source [] = Ok []) ->
  forall (fuel : nat) (u : Z) (mails : list Z) (st : State),
    fst (enumerate_source_buffers w a fuel name (u :: mails) st) = Diverge.
Proof.
  intros Hzero Hfetch fuel u mails.
  induction fuel as [|fuel IH]; intros st; cbn [enumerate_source_buffers].
  - reflexivity.
  - rewrite Hzero. cbn [Py.take Py.drop Py.slice_stop Z.ltb Z.compare
                         Z.to_nat firstn skipn].
    unfold bind at 1. cbn [modify].
    unfold bind at 1, call. cbn [trace mem]. rewrite Hfetch.
    unfold bind at 1. cbn [for_each ret]. apply IH.
Qed.

(** X14. The loops of lines 310-336 and 371-382 end exactly when the
    slices [mails[:buffer_size]] are not empty.  With a positive buffer
    size, or none, no run goes on for ever, whatever the servers answer.
    With [--buffer-size 0] the loop over a folder that holds a message never
    ends: the slice is empty, [del mails[:0]] removes nothing, and no number
    of iterations empties the list. *)
Theorem buffer_size_decides_termination :
  forall (w : World) (a : Args),
    (buffer_size_ok a -> fst (run w a) <> Diverge) /\
    (buffer_size a = Some 0 ->
     (forall h, w_fetch_meta w h Source [] = Ok []) ->
     forall (iterations : nat) (name : string) (u : Z) (mails : list Z)
            (st : State),
       fst (enumerate_source_buffers w a iterations name (u :: mails) st) =
       Diverge).
Proof.
  intros w a. split.
  - intros Hok. unfold run.
    destruct (script w (apply_default_ports a) state0) as [r st] eqn:Erun.
    exact (@script_ends w (apply_default_ports a) Hok _ _ _ Erun).
  - intros Hzero Hfetch iterations name u mails st.
    now apply zero_buffer_never_ends.
Qed.

Lemma buffer_size_witness :
  fst (run Sample.uniform Sample.limited) <> Diverge /\
  fst (enumerate_source_buffers Sample.uniform
         (set_buffer_size (Some 0) Sample.limited) 1000 "INBOX" [1] state0) =
  Diverge.
Proof.
  split.
  - apply (proj1 (buffer_size_decides_termination Sample.uniform
                    Sample.limited)).
    cbn. lia.
  - apply (proj2 (buffer_size_decides_termination Sample.uniform
                    (set_buffer_size (Some 0) Sample.limited))).
    + reflexivity.
    + intros h. reflexivity.
Defined.

(* ================================================================= *)
(** ** Invariants of the script's variables *)

Section InvariantRules.

Variable I : Mem -> Prop.

Lemma inv_ret A (a : A) : invariant I (ret a).
Proof. intros st r st' H [= <- <-]. exact H. Qed.

Lemma inv_raise A (e : exn) : invariant I (@raise A e).
Proof. intros st r st' H [= <- <-]. exact H. Qed.

Lemma inv_continue A : invariant I (@continue A).
Proof. intros st r st' H [= <- <-]. exact H. Qed.

Lemma inv_diverge A : invariant I (@diverge A).
Proof. intros st r st' H [= <- <-]. exact H. Qed.

Lemma inv_gets A (g : Mem -> A) : invariant I (gets g).
Proof. intros st r st' H [= <- <-]. exact H. Qed.

Lemma inv_emit (e : event) : invariant I (emit e).
Proof. intros st r st' H [= <- <-]. exact H. Qed.

Lemma inv_call A (e : event) (answer : list event -> reply A) :
  invariant I (call e answer).
Proof.
  intros st r st' H. unfold call.
  destruct (answer (trace st)); intros [= <- <-]; exact H.
Qed.

Lemma inv_modify (g : Mem -> Mem) :
  (forall x, I x -> I (g x)) -> invariant I (modify g).
Proof. intros Hg st r st' H [= <- <-]. now apply Hg. Qed.

Lemma inv_bind A B (m : M A) (k : A -> M B) :
  invariant I m -> (forall a, invariant I (k a)) -> invariant I (bind m k).
Proof.
  intros Hm Hk st r st' H. unfold bind.
  destruct (m st) as [ra st1] eqn:Em. pose proof (Hm _ _ _ H Em) as H1.
  destruct ra; try (intros [= <- <-]; exact H1). apply Hk. exact H1.
Qed.

Lemma inv_try_except A (m : M A) (sel : exn -> bool) (h : exn -> M A) :
  invariant I m -> (forall e, invariant I (h e)) ->
  invariant I (try_except m sel h).
Proof.
  intros Hm Hh st r st' H. unfold try_except.
  destruct (m st) as [ra st1] eqn:Em. pose proof (Hm _ _ _ H Em) as H1.
  destruct ra as [x|e| | |]; try (intros [= <- <-]; exact H1).
  destruct (sel e); [apply Hh; exact H1 | intros [= <- <-]; exact H1].
Qed.

Lemma inv_try_finally A (m : M A) (c : M unit) :
  invariant I m -> invariant I c -> invariant I (try_finally m c).
Proof.
  intros Hm Hc st r st' H. unfold try_finally.
  destruct (m st) as [ra st1] eqn:Em. pose proof (Hm _ _ _ H Em) as H1.
  destruct (c st1) as [rc st2] eqn:Ec. pose proof (Hc _ _ _ H1 Ec) as H2.
  destruct ra; destruct rc; intros [= <- <-]; assumption.
Qed.

Lemma inv_for_each A (l : list A) (body : A -> M unit) :
  (forall x, invariant I (body x)) -> invariant I (for_each l body).
Proof.
  intros Hb. induction l as [|x l IH]; cbn [for_each]; [apply inv_ret|].
  intros st r st' H.
  destruct (body x st) as [rb st1] eqn:Eb. pose proof (Hb _ _ _ _ H Eb) as H1.
  destruct rb; try (intros [= <- <-]; exact H1); apply IH; exact H1.
Qed.

Lemma inv_when (b : bool) (m : M unit) : invariant I m -> invariant I (when b m).
Proof. intros H. destruct b; [exact H | apply inv_ret]. Qed.

(** What comes after a [continue], a [raise] or a known value. *)
Lemma inv_after_continue A B (k : A -> M B) : invariant I (bind continue k).
Proof. intros st r st' H [= <- <-]. exact H. Qed.

Lemma inv_after_raise A B (e : exn) (k : A -> M B) :
  invariant I (bind (raise e) k).
Proof. intros st r st' H [= <- <-]. exact H. Qed.

Lemma inv_after_ret A B (v : A) (k : A -> M B) :
  invariant I (k v) -> invariant I (bind (ret v) k).
Proof. intros Hk st r st' H Hrun. exact (Hk st r st' H Hrun). Qed.

End InvariantRules.

Ltac inv_structure tac :=
  first
    [ apply inv_ret | apply inv_raise | apply inv_continue
    | apply inv_diverge | apply inv_gets | apply inv_emit | apply inv_call
    | match goal with
      | |- invariant _ (bind continue _) => apply inv_after_continue
      | |- invariant _ (bind (raise _) _) => apply inv_after_raise
      | |- invariant _ (bind (ret _) _) => apply inv_after_ret; cbv beta
      | |- invariant _ (bind (when ?b _) _) => destruct b eqn:?; cbn [when]
      end
    | apply inv_modify; tac
    | apply inv_bind; [|intros ?]
    | apply inv_when
    | apply inv_try_except; [|intros ?]
    | apply inv_try_finally
    | apply inv_for_each; intros ?
    | match goal with
      | |- invariant _ (if ?b then _ else _) => destruct b eqn:?
      | |- invariant _ (match ?x with _ => _ end) => destruct x eqn:?
      end ].

Ltac inv_loops :=
  match goal with
  | IH : forall mails, invariant _ (enumerate_source_buffers _ _ ?n _ mails)
    |- invariant _ (enumerate_source_buffers _ _ ?n _ _) => apply IH
  | IH : forall mails,
      invariant _ (enumerate_destination_buffers _ _ ?n _ mails)
    |- invariant _ (enumerate_destination_buffers _ _ ?n _ _) => apply IH
  | |- invariant _ (enumerate_source_buffers _ _ ?n _ ?m) =>
      generalize n; generalize m;
      let m' := fresh "mails" in
      let n' := fresh "fuel" in
      let IH := fresh "IH" in
      intros m' n'; revert m'; induction n' as [|n' IH];
      intros [|? ?]; cbn [enumerate_source_buffers]
  | |- invariant _ (enumerate_destination_buffers _ _ ?n _ ?m) =>
      generalize n; generalize m;
      let m' := fresh "mails" in
      let n' := fresh "fuel" in
      let IH := fresh "IH" in
      intros m' n'; revert m'; induction n' as [|n' IH];
      intros [|? ?]; cbn [enumerate_destination_buffers]
  end.

Ltac inv_auto tac simp :=
  repeat first
    [ progress simp
    | progress (unfold_script; unfold print, exit)
    | inv_structure tac
    | inv_loops ].

Lemma run_invariant (I : Mem -> Prop) (w : World) (a : Args) :
  invariant I (script w (apply_default_ports a)) ->
  I mem0 -> I (mem (snd (run w a))).
Proof.
  intros H H0. unfold run.
  destruct (script w (apply_default_ports a) state0) as [r st] eqn:Erun.
  exact (H state0 r st H0 Erun).
Qed.

(** *** [--source-mailbox] *)

Lemma keys_sset_In V (k n : string) (v : V) (d : sdict V) :
  In k (Dict.keys (sset n v d)) -> k = n \/ In k (Dict.keys d).
Proof.
  unfold Dict.keys. induction d as [|[k' v'] d IH]; cbn [Dict.set].
  - cbn. intros [H | []]. now left.
  - destruct (String.eqb k' n); cbn [map fst In].
    + intros H. now right.
    + intros [H | H]; [right; now left|].
      destruct (IH H) as [H1 | H1]; [now left | right; now right].
Qed.

Lemma manifest_within_sset (a : Args) (name : string) (f : SourceFolder)
  (x : Mem) :
  In name (source_mailbox a) ->
  manifest_within a x ->
  manifest_within a (with_db_source (sset name f) x).
Proof.
  unfold manifest_within. cbn [db_source with_db_source].
  rewrite !Forall_forall. intros Hin H k Hk.
  apply keys_sset_In in Hk as [-> | Hk]; auto.
Qed.

Lemma manifest_within_supdate (a : Args) (name : string)
  (g : SourceFolder -> SourceFolder) (x : Mem) :
  manifest_within a x ->
  manifest_within a (with_db_source (supdate name g) x).
Proof.
  unfold manifest_within. cbn [db_source with_db_source].
  now rewrite keys_supdate.
Qed.

Lemma filter_passed (name : string) (l : list string) :
  l <> [] ->
  (negb (is_nil l) && negb (Py.mem_string name l))%bool = false ->
  In name l.
Proof.
  intros Hl H. destruct l as [|x l]; [now contradiction Hl|].
  cbn [is_nil negb andb] in H. apply negb_false_iff in H.
  now apply mem_string_In.
Qed.

Ltac manifest_step :=
  first [ intros ? ?; apply manifest_within_supdate; assumption
        | intros ? ?; assumption
        | intros ? ?; apply manifest_within_sset;
          [eapply filter_passed; eassumption | assumption] ].

Lemma manifest_within_script (w : World) (a : Args) :
  source_mailbox a <> [] ->
  invariant (manifest_within a) (script w a).
Proof.
  intros Hsome.
  inv_auto ltac:(manifest_step) ltac:(fail).
Qed.

(** X15. With [--source-mailbox] the manifest of the source holds only
    folders named by the option, at every end of a run: the transfer, which
    walks the manifest, handles no other folder. *)
Theorem source_mailbox_restricts_manifest :
  forall (w : World) (a : Args),
    source_mailbox a <> [] ->
    forall name,
      In name (Dict.keys (db_source (mem (snd (run w a))))) ->
      In name (source_mailbox a).
Proof.
  intros w a Hsome name Hin.
  assert (H : manifest_within (apply_default_ports a) (mem (snd (run w a)))).
  { apply run_invariant.
    - now apply manifest_within_script.
    - constructor. }
  unfold manifest_within in H. rewrite Forall_forall in H.
  exact (H name Hin).
Qed.

Lemma source_mailbox_witness :
  In "Lists" (Dict.keys (db_source (mem (snd (run two_folders
                (options ["Lists"] false false false None None)))))) /\
  In "Lists" ["Lists"].
Proof.
  assert (H : In "Lists" (Dict.keys (db_source (mem (snd (run two_folders
                (options ["Lists"] false false false None None)))))))
    by (vm_compute; tauto).
  split; [exact H|].
  apply (@source_mailbox_restricts_manifest two_folders
           (options ["Lists"] false false false None None)).
  - discriminate.
  - exact H.
Defined.

Example source_mailbox_example :
  Dict.keys (db_source (mem (snd (run two_folders
     (options ["Lists"] false false false None None))))) = ["Lists"] /\
  Dict.keys (db_source (mem (snd (run two_folders
     (options [] false false false None None))))) = ["INBOX"; "Lists"].
Proof. split; vm_compute; reflexivity. Qed.

(* ================================================================= *)
(** ** The counters of the report *)

Ltac kept := intros ? ?; assumption.

Section ModeCounters.

Variables (w : World) (a : Args).

Lemma dry_run_counter_unused :
  invariant (fun m => skf_dry_run (skipped_folders (stats m)) = 0%nat)
            (script w a).
Proof. inv_auto ltac:(kept) ltac:(fail). Qed.

Lemma empty_counter_needs_mode :
  skip_empty_folders a = false ->
  invariant (fun m => skf_empty (skipped_folders (stats m)) = 0%nat)
            (script w a).
Proof.
  intros H. inv_auto ltac:(kept) ltac:(rewrite H; cbn [andb]; cbv beta iota).
Qed.

Lemma by_mailbox_counter_needs_mode :
  source_mailbox a = [] ->
  invariant (fun m => skf_by_mailbox (skipped_folders (stats m)) = 0%nat)
            (script w a).
Proof.
  intros H.
  inv_auto ltac:(kept) ltac:(rewrite H; cbn [is_nil negb andb]; cbv beta iota).
Qed.

Lemma already_exists_counter_needs_mode :
  incremental a = false ->
  invariant (fun m => skm_already_exists (skipped_mails (stats m)) = 0%nat)
            (script w a).
Proof.
  intros H. inv_auto ltac:(kept) ltac:(first [rewrite H | progress cbv beta iota]).
Qed.

Lemma max_size_counter_needs_mode :
  max_mail_size a = None ->
  invariant (fun m => skm_max_size (skipped_mails (stats m)) = 0%nat)
            (script w a).
Proof.
  intros H. inv_auto ltac:(kept) ltac:(first [rewrite H | progress cbv beta iota]).
Qed.

Lemma line_length_counter_needs_mode :
  max_line_length a = None \/ max_line_length a = Some 0 ->
  invariant (fun m => skm_max_line_length (skipped_mails (stats m)) = 0%nat)
            (script w a).
Proof.
  intros [H | H];
    inv_auto ltac:(kept)
             ltac:(first [rewrite H; cbn [Z.eqb negb]
                         | progress cbv beta iota]).
Qed.

End ModeCounters.

(** X16. The counters the report marks as belonging to one mode stay at 0
    in every run without that mode: [empty] without [--skip-empty-folders],
    [by_mailbox] without [--source-mailbox], [already_exists] (mails)
    without [--incremental], [max_size] without [--max-mail-size],
    [max_line_length] without a non-zero [--max-line-length].  The
    [dry-run] counter of the skipped folders is never incremented at
    all. *)
Theorem mode_counters_need_their_mode :
  forall (w : World) (a : Args),
    let s := stats (mem (snd (run w a))) in
    skf_dry_run (skipped_folders s) = 0%nat /\
    (skip_empty_folders a = false -> skf_empty (skipped_folders s) = 0%nat) /\
    (source_mailbox a = [] -> skf_by_mailbox (skipped_folders s) = 0%nat) /\
    (incremental a = false ->
     skm_already_exists (skipped_mails s) = 0%nat) /\
    (max_mail_size a = None -> skm_max_size (skipped_mails s) = 0%nat) /\
    (max_line_length a = None \/ max_line_length a = Some 0 ->
     skm_max_line_length (skipped_mails s) = 0%nat).
Proof.
  intros w a s. unfold s. clear s.
  split; [|split; [|split; [|split; [|split]]]].
  - apply (@run_invariant
             (fun m => skf_dry_run (skipped_folders (stats m)) = 0%nat));
      [apply dry_run_counter_unused | reflexivity].
  - intros H.
    apply (@run_invariant
             (fun m => skf_empty (skipped_folders (stats m)) = 0%nat));
      [now apply empty_counter_needs_mode | reflexivity].
  - intros H.
    apply (@run_invariant
             (fun m => skf_by_mailbox (skipped_folders (stats m)) = 0%nat));
      [now apply by_mailbox_counter_needs_mode | reflexivity].
  - intros H.
    apply (@run_invariant
             (fun m => skm_already_exists (skipped_mails (stats m)) = 0%nat));
      [now apply already_exists_counter_needs_mode | reflexivity].
  - intros H.
    apply (@run_invariant
             (fun m => skm_max_size (skipped_mails (stats m)) = 0%nat));
      [now apply max_size_counter_needs_mode | reflexivity].
  - intros H.
    apply (@run_invariant
             (fun m => skm_max_line_length (skipped_mails (stats m)) = 0%nat));
      [now apply line_length_counter_needs_mode | reflexivity].
Qed.

Lemma mode_counters_witness :
  skf_empty (skipped_folders
    (stats (mem (snd (run Sample.uniform Sample.defaults))))) = 0%nat /\
  skf_by_mailbox (skipped_folders
    (stats (mem (snd (run Sample.uniform Sample.defaults))))) = 0%nat /\
  skm_already_exists (skipped_mails
    (stats (mem (snd (run Sample.uniform Sample.defaults))))) = 0%nat /\
  skm_max_size (skipped_mails
    (stats (mem (snd (run Sample.uniform Sample.defaults))))) = 0%nat /\
  skm_max_line_length (skipped_mails
    (stats (mem (snd (run Sample.uniform Sample.defaults))))) = 0%nat.
Proof.
  destruct (mode_counters_need_their_mode Sample.uniform Sample.defaults)
    as [_ [H1 [H2 [H3 [H4 H5]]]]].
  split; [apply H1; reflexivity|].
  split; [apply H2; reflexivity|].
  split; [apply H3; reflexivity|].
  split; [apply H4; reflexivity|].
  apply H5. left. reflexivity.
Defined.

(* ================================================================= *)
(** ** The buffers of the source enumeration *)

Lemma buffers_of_supdate (name k : string) (g : SourceFolder -> SourceFolder)
  (x : Mem) :
  (forall f, sf_buffer (g f) = sf_buffer f) ->
  buffers_of name (with_db_source (supdate k g) x) = buffers_of name x.
Proof.
  intros Hg. unfold buffers_of. cbn [db_source with_db_source].
  induction (db_source x) as [|[k' v] d IH]; [reflexivity|].
  cbn [Dict.update Dict.get].
  destruct (String.eqb k' k); cbn [Dict.get];
    destruct (String.eqb k' name); cbn [option_map]; auto.
  now rewrite Hg.
Qed.

Lemma buffers_of_add (name : string) (b : list Z) (x : Mem)
  (old : list (list Z)) :
  buffers_of name x = Some old ->
  buffers_of name (with_db_source (supdate name (add_buffer b)) x) =
  Some (old ++ [b])%list.
Proof.
  unfold buffers_of. cbn [db_source with_db_source].
  induction (db_source x) as [|[k' v] d IH]; [discriminate|].
  cbn [Dict.update Dict.get].
  destruct (String.eqb k' name) eqn:E; cbn [Dict.get]; rewrite E.
  - cbn. now intros [= <-].
  - exact IH.
Qed.

Lemma keeps_buffers_mail (w : World) (name : string) (row : Z * MetaData) :
  keeps (buffers_of name) (enumerate_source_mail w name row).
Proof.
  destruct row as [mail_id data].
  unfold enumerate_source_mail, restart_imap_idle, end_imap_idle,
    start_imap_idle.
  repeat first
    [ apply keeps_modify; intros ?;
      first [reflexivity | apply buffers_of_supdate; reflexivity]
    | keeps_structure ].
Qed.

Lemma take_fits (a : Args) (u : Z) (mails : list Z) :
  buffer_size_ok a -> fits_buffer a (Py.take (buffer_size a) (u :: mails)).
Proof.
  unfold buffer_size_ok, fits_buffer, Py.take, Py.slice_stop.
  destruct (buffer_size a) as [n|].
  - intros Hn. destruct (n <? 0) eqn:E; [apply Z.ltb_lt in E; lia|].
    split.
    + destruct (Z.to_nat n) eqn:En; [lia | discriminate].
    + rewrite length_firstn. lia.
  - intros _. split; [|exact I]. rewrite firstn_all. discriminate.
Qed.

(** X17. The buffers recorded for a folder (lines 310-336) cut the result
    of SEARCH into consecutive slices: with a positive buffer size, or
    none, a loop that ends has appended to the folder's buffers non-empty
    slices of at most [buffer_size] UIDs whose concatenation is the list of
    UIDs, in order.  The transfer fetches these buffers one by one, so it
    asks for every UID exactly once. *)
Theorem buffers_partition_search :
  forall (w : World) (a : Args) (name : string) (fuel : nat)
         (mails : list Z) (st st' : State) (old : list (list Z)),
    buffer_size_ok a ->
    buffers_of name (mem st) = Some old ->
    enumerate_source_buffers w a fuel name mails st = (Normal tt, st') ->
    exists chunks,
      buffers_of name (mem st') = Some (old ++ chunks)%list /\
      concat chunks = mails /\
      Forall (fits_buffer a) chunks.
Proof.
  intros w a name fuel mails st st' old Hok. revert mails st old.
  induction fuel as [|fuel IH]; intros [|u mails] st old Hold;
    cbn [enumerate_source_buffers].
  - intros [= <-]. exists []. rewrite app_nil_r. repeat split; auto.
  - discriminate.
  - intros [= <-]. exists []. rewrite app_nil_r. repeat split; auto.
  - set (buffer := Py.take (buffer_size a) (u :: mails)).
    intros Hrun.
    apply bind_normal_inv in Hrun as [[] [st1 [E1 Hrun]]].
    apply bind_normal_inv in Hrun as [rows [st2 [E2 Hrun]]].
    apply bind_normal_inv in Hrun as [[] [st3 [E3 Hrun]]].
    injection E1 as <-.
    assert (H2 : mem st2 = with_db_source (supdate name (add_buffer buffer))
                                          (mem st)).
    { unfold call in E2. cbn [trace mem] in E2.
      destruct (w_fetch_meta w _ Source buffer); injection E2 as _ <-;
        reflexivity. }
    assert (H3 : buffers_of name (mem st3) = Some (old ++ [buffer])%list).
    { pose proof (@keeps_for_each _ (buffers_of name) _ rows
                    (enumerate_source_mail w name)
                    (keeps_buffers_mail w name) _ _ _ E3) as [Hk _].
      rewrite Hk, H2. now apply buffers_of_add. }
    destruct (IH _ _ _ H3 Hrun) as [chunks [Hb [Hc Hf]]].
    exists (buffer :: chunks). split; [|split].
    + rewrite Hb. now rewrite <- app_assoc.
    + cbn [concat]. rewrite Hc. unfold buffer, Py.take, Py.drop.
      apply firstn_skipn.
    + constructor; [now apply take_fits | exact Hf].
Qed.

Lemma buffers_partition_witness :
  exists chunks,
    buffers_of "INBOX"
      (mem (snd (enumerate_source_buffers Sample.uniform
                   (set_buffer_size (Some 2) Sample.limited) 3 "INBOX"
                   [1; 2; 3] inbox_open))) = Some ([] ++ chunks)%list /\
    concat chunks = [1; 2; 3] /\
    Forall (fits_buffer (set_buffer_size (Some 2) Sample.limited)) chunks.
Proof.
  apply (@buffers_partition_search Sample.uniform
           (set_buffer_size (Some 2) Sample.limited) "INBOX" 3 [1; 2; 3]
           inbox_open
           (snd (enumerate_source_buffers Sample.uniform
                   (set_buffer_size (Some 2) Sample.limited) 3 "INBOX"
                   [1; 2; 3] inbox_open)) []).
  - cbn. lia.
  - reflexivity.
  - vm_compute. reflexivity.
Defined.

Example buffers_of_three :
  buffers_of "INBOX"
    (mem (snd (enumerate_source_buffers Sample.uniform
                 (set_buffer_size (Some 2) Sample.limited) 3 "INBOX"
                 [1; 2; 3] inbox_open))) = Some [[1; 2]; [3]].
Proof. vm_compute. reflexivity. Qed.

(* ================================================================= *)
(** ** Redirection rules *)

Lemma sget_sset_same V (k : string) (v : V) (d : sdict V) :
  sget k (sset k v d) = Some v.
Proof.
  induction d as [|[k' v'] d IH]; cbn [Dict.set Dict.get].
  - now rewrite String.eqb_refl.
  - destruct (String.eqb k' k) eqn:E; cbn [Dict.get]; rewrite E;
      [reflexivity | exact IH].
Qed.

Lemma sget_sset_other V (k k' : string) (v : V) (d : sdict V) :
  k <> k' -> sget k (sset k' v d) = sget k d.
Proof.
  intros Hne. induction d as [|[k0 v0] d IH]; cbn [Dict.set Dict.get].
  - destruct (String.eqb_spec k' k); [congruence | reflexivity].
  - destruct (String.eqb_spec k0 k') as [->|H0]; cbn [Dict.get].
    + destruct (String.eqb_spec k' k); [congruence | reflexivity].
    + destruct (String.eqb k0 k); [reflexivity | exact IH].
Qed.

Lemma redirect_all (d : string) (l : list string) (st : State) :
  exists st',
    for_each l (fun folder => modify (with_redirections (sset folder d))) st
    = (Normal tt, st') /\
    trace st' = trace st /\
    not_found (mem st') = not_found (mem st) /\
    db_source (mem st') = db_source (mem st) /\
    forall k, sget k (redirections (mem st')) =
              if Py.mem_string k l then Some d
              else sget k (redirections (mem st)).
Proof.
  revert st. induction l as [|x l IH]; intros st; cbn [for_each].
  - exists st. repeat split.
  - cbn [modify].
    destruct (IH {| mem := with_redirections (sset x d) (mem st);
                    trace := trace st |}) as [st' [E [T [N [D G]]]]].
    exists st'. split; [exact E|]. repeat split; try assumption.
    intros k. rewrite G. cbn [mem redirections with_redirections].
    cbn [Py.mem_string existsb]. fold (Py.mem_string k l).
    destruct (Py.mem_string k l); [now rewrite orb_true_r|].
    rewrite orb_false_r.
    destruct (String.eqb_spec k x) as [->|Hne].
    + apply sget_sset_same.
    + now apply sget_sset_other.
Qed.

(** X18. A [--redirect] rule [prefix*:target] with at least one match
    (lines 413-432) sends every source folder whose name starts with
    [prefix] to the one folder [target], and enters the pattern itself in
    the table as well; every other entry of the table is left as it was,
    nothing is reported as not found and nothing is sent or printed. *)
Theorem wildcard_redirects_every_match :
  forall (rule r_source r_destination : string) (st : State),
    Py.split_once ":" rule = Some (r_source, r_destination) ->
    Py.endswith_char r_source "*" = true ->
    (exists folder, In folder (Dict.keys (db_source (mem st))) /\
                    Py.startswith folder (Py.drop_last r_source) = true) ->
    exists st',
      parse_redirection rule st = (Normal tt, st') /\
      trace st' = trace st /\
      not_found (mem st') = not_found (mem st) /\
      forall name,
        sget name (redirections (mem st')) =
        if ((smem name (db_source (mem st))
             && Py.startswith name (Py.drop_last r_source))
            || String.eqb name r_source)%bool
        then Some r_destination
        else sget name (redirections (mem st)).
Proof.
  intros rule r_source r_destination st Hsplit Hstar [folder [Hin Hpre]].
  unfold parse_redirection. rewrite Hsplit.
  unfold bind at 1. cbn [gets]. unfold bind at 1. rewrite Hstar.
  set (matches := filter _ (Dict.keys (db_source (mem st)))).
  assert (Hm : In folder matches) by (apply filter_In; auto).
  destruct matches as [|m ms] eqn:Em; [destruct Hm|].
  cbn [negb is_nil]. rewrite <- Em. clear Hm.
  destruct (redirect_all r_destination matches st)
    as [st1 [E1 [T1 [N1 [D1 G1]]]]].
  rewrite E1. cbn [modify]. eexists. split; [reflexivity|].
  cbn [mem trace with_redirections not_found redirections].
  repeat split; try assumption.
  intros name.
  assert (Hmem : Py.mem_string name matches =
                 (smem name (db_source (mem st))
                  && Py.startswith name (Py.drop_last r_source))%bool).
  { apply eq_true_iff_eq. rewrite mem_string_In, andb_true_iff.
    unfold matches. rewrite filter_In. 
    assert (Hk : In name (Dict.keys (db_source (mem st))) <->
                 smem name (db_source (mem st)) = true).
    { unfold Dict.keys, Dict.mem. clear.
      induction (db_source (mem st)) as [|[k v] d IH]; cbn [map fst In Dict.get].
      - split; [intros [] | discriminate].
      - destruct (String.eqb_spec k name) as [->|Hne].
        + split; [reflexivity | now left].
        + rewrite <- IH. split; [intros [H|H]; [congruence | exact H]
                                | now right]. }
    now rewrite Hk. }
  rewrite <- Hmem.
  destruct (String.eqb_spec name r_source) as [->|Hne].
  - rewrite orb_true_r. apply sget_sset_same.
  - rewrite orb_false_r, sget_sset_other by exact Hne. apply G1.
Qed.

Lemma wildcard_witness :
  exists st',
    parse_redirection "Lists/*:Archive"
      (listed ["INBOX"; "Lists/a"; "Lists/b"]) = (Normal tt, st') /\
    trace st' = trace (listed ["INBOX"; "Lists/a"; "Lists/b"]) /\
    not_found (mem st') =
      not_found (mem (listed ["INBOX"; "Lists/a"; "Lists/b"])) /\
    forall name,
      sget name (redirections (mem st')) =
      if ((smem name (db_source (mem (listed ["INBOX"; "Lists/a"; "Lists/b"])))
           && Py.startswith name (Py.drop_last "Lists/*"))
          || String.eqb name "Lists/*")%bool
      then Some "Archive"
      else sget name (redirections
                        (mem (listed ["INBOX"; "Lists/a"; "Lists/b"]))).
Proof.
  apply (@wildcard_redirects_every_match "Lists/*:Archive" "Lists/*"
           "Archive" (listed ["INBOX"; "Lists/a"; "Lists/b"])).
  - reflexivity.
  - reflexivity.
  - exists "Lists/a". split; [cbn; tauto | reflexivity].
Defined.

Example wildcard_table :
  redirections (mem (snd (parse_redirection "Lists/*:Archive"
                            (listed ["INBOX"; "Lists/a"; "Lists/b"])))) =
  [("Lists/a", "Archive"); ("Lists/b", "Archive"); ("Lists/*", "Archive")].
Proof. reflexivity. Qed.

Lemma split_once_absent (c : ascii) (s : string) :
  absent c s -> Py.split_once c s = None.
Proof.
  induction s as [|x s IH]; cbn [absent Py.split_once]; [reflexivity|].
  intros [Hx Hs]. apply Ascii.eqb_neq in Hx. rewrite Hx. now rewrite IH.
Qed.

Lemma parse_prefix (pre rest : list string) (st : State) :
  (forall r, In r pre -> Py.split_once ":" r <> None) ->
  exists st1,
    for_each (pre ++ rest) parse_redirection st =
    for_each rest parse_redirection st1 /\
    trace st1 = trace st.
Proof.
  revert st. induction pre as [|r pre IH]; intros st Hpre.
  - exists st. split; reflexivity.
  - destruct (Py.split_once ":" r) as [[s d]|] eqn:Esplit;
      [|exfalso; eapply Hpre; [now left | exact Esplit]].
    destruct (@parse_redirection_result r s d st Esplit)
      as [st0 [E0 [_ [T0 _]]]].
    destruct (IH st0) as [st1 [E1 T1]].
    { intros r' Hr'. apply Hpre. now right. }
    exists st1. cbn [app for_each]. rewrite E0. split; [exact E1 | congruence].
Qed.

(** X19. A [--redirect] rule without a colon does not reach the message
    of line 428: the handler of the [ValueError] reads the name [e], which
    is not bound, and the run ends with an uncaught [NameError] right after
    the enumeration, with exit status 1 and nothing printed or sent since.
    The rules before it are read without complaint. *)
Theorem redirect_without_colon_crashes :
  forall (w : World) (a : Args) (pre post : list string) (rule : string)
         (st : State),
    prepare w (apply_default_ports a) state0 = (Normal tt, st) ->
    list_mode a = false ->
    redirect a = Some (pre ++ rule :: post)%list ->
    (forall r, In r pre -> Py.split_once ":" r <> None) ->
    absent ":" rule ->
    fst (run w a) = Raise (NameError "e") /\
    trace (snd (run w a)) = trace st /\
    exit_status (fst (run w a)) = Some 1.
Proof.
  intros w a pre post rule st Hprep Hlist Hred Hpre Habs.
  set (a' := apply_default_ports a).
  destruct (@parse_prefix pre (rule :: post) st Hpre) as [st1 [E1 T1]].
  assert (Hlinks : custom_links a' st =
                   (Raise (NameError "e"), st1)).
  { unfold custom_links. change (redirect a') with (redirect a).
    rewrite Hred.
    assert (Hloop : for_each (pre ++ rule :: post) parse_redirection st =
                    (Raise (NameError "e"), st1)).
    { rewrite E1. cbn [for_each].
      unfold parse_redirection at 1. rewrite (@split_once_absent _ _ Habs).
      reflexivity. }
    destruct (pre ++ rule :: post)%list eqn:Elist;
      [destruct pre; discriminate|].
    erewrite bind_raise; [reflexivity | exact Hloop]. }
  assert (Hrun : run w a = (Raise (NameError "e"), st1)).
  { unfold run, script. fold a'.
    erewrite bind_normal; [|exact Hprep].
    erewrite bind_normal;
      [|unfold list_mode_exit; change (list_mode a') with (list_mode a);
        rewrite Hlist; reflexivity].
    unfold replicate. erewrite bind_raise; [reflexivity | exact Hlinks]. }
  rewrite Hrun. repeat split. exact T1.
Qed.

Lemma redirect_without_colon_witness :
  fst (run Sample.one_mail
         (options [] false false false None
                  (Some ["INBOX:Archive"; "Sent=Gesendet"]))) =
    Raise (NameError "e") /\
  trace (snd (run Sample.one_mail
                (options [] false false false None
                         (Some ["INBOX:Archive"; "Sent=Gesendet"])))) =
    trace (snd (prepare Sample.one_mail
                  (apply_default_ports
                     (options [] false false false None
                              (Some ["INBOX:Archive"; "Sent=Gesendet"])))
                  state0)) /\
  exit_status
    (fst (run Sample.one_mail
            (options [] false false false None
                     (Some ["INBOX:Archive"; "Sent=Gesendet"])))) = Some 1.
Proof.
  apply (@redirect_without_colon_crashes Sample.one_mail
           (options [] false false false None
                    (Some ["INBOX:Archive"; "Sent=Gesendet"]))
           ["INBOX:Archive"] [] "Sent=Gesendet").
  - vm_compute. reflexivity.
  - reflexivity.
  - reflexivity.
  - intros r [<- | []]. discriminate.
  - cbn. repeat split; discriminate.
Defined.

(* ================================================================= *)
(** ** The transfer of one message *)

Lemma transfer_mail_no_division_error (w : World) (a : Args)
  (sf : SourceFolder) (df_name : string) (mail_id : Z) (data : FullData) :
  safe (fun _ => True) (fun e => e <> ZeroDivisionError)
       (match zget mail_id (sf_mails sf) with
        | None =>
            lookup_failed df_name (KeyError (KInt mail_id))
              (Some "(unknown)") (VStr "(unknown)") "(unknown)"
              (VStr "(unknown)")
        | Some m =>
            match fd_flags data with
            | None =>
                lookup_failed df_name (KeyError (KBytes "FLAGS"))
                  (sm_msg_id m) (VInt (sm_size m)) (sm_subject m)
                  (VStr "(unknown)")
            | Some flags =>
                match fd_rfc822 data with
                | None =>
                    lookup_failed df_name (KeyError (KBytes "RFC822"))
                      (sm_msg_id m) (VInt (sm_size m)) (sm_subject m)
                      (VStr "(unknown)")
                | Some msg =>
                    match fd_internaldate data with
                    | None =>
                        lookup_failed df_name
                          (KeyError (KBytes "INTERNALDATE"))
                          (sm_msg_id m) (VInt (sm_size m)) (sm_subject m)
                          (VStr "(unknown)")
                    | Some date =>
                        skip_ladder w a df_name (sm_msg_id m) (sm_size m)
                          (sm_subject m) flags msg date
                    end
                end
            end
        end).
Proof. safe_auto ltac:(first [exact I | discriminate]) ltac:(fail). Qed.

(** X20. The progress of line 512 divides by the number of counted source
    messages.  A row of the transfer raises [ZeroDivisionError], before
    anything else is done with it, exactly when no source message was
    counted; once one is counted, no row can raise it. *)
Theorem progress_needs_a_counted_mail :
  forall (w : World) (a : Args) (sf : SourceFolder) (df_name : string)
         (row : Z * FullData) (st : State),
    (source_mails (stats (mem st)) = 0%nat ->
     transfer_mail w a sf df_name row st = (Raise ZeroDivisionError, st)) /\
    (source_mails (stats (mem st)) <> 0%nat ->
     fst (transfer_mail w a sf df_name row st) <> Raise ZeroDivisionError).
Proof.
  intros w a sf df_name [mail_id data] st. unfold transfer_mail. split.
  - intros Hn. unfold bind at 1. cbn [gets]. rewrite Hn. reflexivity.
  - intros Hn. apply Nat.eqb_neq in Hn.
    erewrite bind_normal; [|reflexivity]. cbv beta. rewrite Hn.
    erewrite bind_normal; [|reflexivity].
    match goal with
    | |- fst (?m st) <> _ => destruct (m st) as [r st'] eqn:Erun
    end.
    destruct (@transfer_mail_no_division_error w a sf df_name mail_id data
                _ _ _ Erun) as [_ He].
    cbn [fst]. intros ->. now apply (He ZeroDivisionError).
Qed.

Lemma progress_witness :
  transfer_mail Sample.one_mail Sample.limited (new_source_folder []) "INBOX"
    (1, {| fd_flags := None; fd_rfc822 := None; fd_internaldate := None |})
    state0 = (Raise ZeroDivisionError, state0) /\
  fst (transfer_mail Sample.one_mail Sample.limited (new_source_folder [])
         "INBOX"
         (1, {| fd_flags := None; fd_rfc822 := None;
                fd_internaldate := None |})
         one_counted) <> Raise ZeroDivisionError.
Proof.
  split.
  - apply (proj1 (progress_needs_a_counted_mail Sample.one_mail
                    Sample.limited (new_source_folder []) "INBOX"
                    (1, {| fd_flags := None; fd_rfc822 := None;
                           fd_internaldate := None |}) state0)).
    reflexivity.
  - apply (proj2 (progress_needs_a_counted_mail Sample.one_mail
                    Sample.limited (new_source_folder []) "INBOX"
                    (1, {| fd_flags := None; fd_rfc822 := None;
                           fd_internaldate := None |}) one_counted)).
    discriminate.
Defined.

(** A source whose only message has no ENVELOPE: nothing is counted in
    [source_mails], and the first row of the transfer stops the run. *)
Example uncounted_source_crashes :
  fst (run only_without_envelope Sample.limited) = Raise ZeroDivisionError /\
  source_mails (stats (mem (snd (run only_without_envelope Sample.limited))))
  = 0%nat.
Proof. split; vm_compute; reflexivity. Qed.

Lemma opt_string_eqb_In (x : option string) (l : list (option string)) :
  existsb (opt_string_eqb x) l = true <-> In x l.
Proof.
  rewrite existsb_exists. split.
  - intros [y [Hy E]]. destruct x as [x|], y as [y|]; cbn in E;
      try discriminate; [apply String.eqb_eq in E; now subst | exact Hy].
  - intros H. exists x. split; [exact H|].
    destruct x as [x|]; cbn; [apply String.eqb_refl | reflexivity].
Qed.

(** X21. In incremental mode, a message that is neither empty nor over
    the size limit and whose destination folder was enumerated is skipped
    as already existing (counted, processed, nothing sent) exactly when an
    entry of that folder carries the same Message-ID; two absent
    Message-IDs count as the same.  Otherwise the ladder goes on to the
    APPEND. *)
Theorem incremental_skips_known_message_id :
  forall (w : World) (a : Args) (df_name : string) (msg_id : option string)
         (size : Z) (subject : string) (flags : list string) (msg : string)
         (date : Z) (st : State) (limit : Z) (f : DestFolder)
         (ids : list (option string)),
    incremental a = true ->
    size <> 0 ->
    max_mail_size a = Some limit ->
    size <= limit ->
    sget df_name (db_destination (mem st)) = Some f ->
    msg_ids (Dict.values (df_mails f)) = Some ids ->
    (In msg_id ids ->
     skip_ladder w a df_name msg_id size subject flags msg date st =
     (Normal tt, {| mem := skipped_as_existing (mem st);
                    trace := trace st |})) /\
    (~ In msg_id ids ->
     skip_ladder w a df_name msg_id size subject flags msg date st =
     (if dry_run a then ret tt
      else append_mail w a df_name msg_id size subject flags msg date) st).
Proof.
  intros w a df_name msg_id size subject flags msg date st limit f ids
         Hinc Hsize Hmax Hle Hfolder Hids.
  assert (Hdup : already_exists a df_name msg_id st =
                 (Normal (existsb (opt_string_eqb msg_id) ids), st)).
  { unfold already_exists. rewrite Hinc. unfold bind, gets.
    now rewrite Hfolder, Hids. }
  assert (Hlim : (limit <? size) = false) by (apply Z.ltb_ge; lia).
  unfold skip_ladder.
  apply Z.eqb_neq in Hsize. rewrite Hsize, Hmax.
  erewrite bind_normal; [|reflexivity]. cbv beta. rewrite Hlim.
  erewrite bind_normal; [|exact Hdup]. split.
  - intros Hin. apply opt_string_eqb_In in Hin. rewrite Hin. reflexivity.
  - intros Hnot.
    destruct (existsb (opt_string_eqb msg_id) ids) eqn:E;
      [apply opt_string_eqb_In in E; now contradiction Hnot | reflexivity].
Qed.

Lemma incremental_witness :
  skip_ladder Sample.one_mail (options [] true false false None None)
    "INBOX" None 1000 "hello" [] "Subject: hello" 1700000000
    (holding "INBOX" None) =
  (Normal tt, {| mem := skipped_as_existing (mem (holding "INBOX" None));
                 trace := trace (holding "INBOX" None) |}) /\
  skip_ladder Sample.one_mail (options [] true false false None None)
    "INBOX" None 1000 "hello" [] "Subject: hello" 1700000000
    (holding "INBOX" (Some "<2@example>")) =
  append_mail Sample.one_mail (options [] true false false None None)
    "INBOX" None 1000 "hello" [] "Subject: hello" 1700000000
    (holding "INBOX" (Some "<2@example>")).
Proof.
  split.
  - apply (proj1 (@incremental_skips_known_message_id Sample.one_mail
                    (options [] true false false None None)
                    "INBOX" None 1000 "hello" [] "Subject: hello" 1700000000
                    (holding "INBOX" None) 10000000
                    {| df_flags := [];
                       df_mails := [(1, {| dm_size := 1000;
                                           dm_msg_id := Some None |})];
                       df_size := 1000 |}
                    [None] eq_refl ltac:(discriminate) eq_refl
                    ltac:(discriminate) eq_refl eq_refl)).
    now left.
  - apply (proj2 (@incremental_skips_known_message_id Sample.one_mail
                    (options [] true false false None None)
                    "INBOX" None 1000 "hello" [] "Subject: hello" 1700000000
                    (holding "INBOX" (Some "<2@example>")) 10000000
                    {| df_flags := [];
                       df_mails := [(1, {| dm_size := 1000;
                                           dm_msg_id :=
                                             Some (Some "<2@example>") |})];
                       df_size := 1000 |}
                    [Some "<2@example>"] eq_refl ltac:(discriminate) eq_refl
                    ltac:(discriminate) eq_refl eq_refl)).
    intros [H | []]. discriminate.
Defined.

(* ================================================================= *)
(** ** Creating a destination folder *)

(** X22. What lines 478-503 make of the answers to CREATE and SUBSCRIBE,
    outside dry-run and for a folder that is not skipped as empty.  When
    both succeed (or SUBSCRIBE is switched off) the folder is counted as
    copied.  An IMAP error whose text holds "alreadyexists", in any case,
    counts the folder as skipped and lets the transfer of its messages go
    on.  Any other IMAP error, of CREATE or of SUBSCRIBE, is printed and
    leaves every counter alone: the folder is then passed over, or with
    [--abort-on-error] the transfer is interrupted, also when CREATE itself
    had succeeded. *)
Theorem create_folder_outcome :
  forall (w : World) (a : Args) (sf : SourceFolder) (df_name : string)
         (st : State),
    dry_run a = false ->
    (skip_empty_folders a && is_nil (sf_mails sf))%bool = false ->
    let sent := (trace st ++ [ECreate df_name])%list in
    let stopped (log : list event) : res unit * State :=
      (if abort_on_error a then Raise KeyboardInterrupt else Continue,
       {| mem := mem st; trace := log |}) in
    (w_create w (trace st) df_name = Ok tt ->
     destination_no_subscribe a = true ->
     create_folder w a sf df_name st =
     (Normal tt, {| mem := with_stats incr_copied_folders (mem st);
                    trace := sent |})) /\
    (w_create w (trace st) df_name = Ok tt ->
     destination_no_subscribe a = false ->
     w_subscribe w sent df_name = Ok tt ->
     create_folder w a sf df_name st =
     (Normal tt, {| mem := with_stats incr_copied_folders (mem st);
                    trace := (sent ++ [ESubscribe df_name])%list |})) /\
    (forall text,
        w_create w (trace st) df_name = Fail (ImapError text) ->
        create_folder w a sf df_name st =
        if Py.contains (Py.lower text) "alreadyexists"
        then (Normal tt,
              {| mem := with_stats
                          (with_skipped_folders incr_skf_already_exists)
                          (mem st);
                 trace := sent |})
        else stopped (sent ++ [EPrint (OutError (IMAPClientError text))])%list) /\
    (forall text,
        w_create w (trace st) df_name = Ok tt ->
        destination_no_subscribe a = false ->
        w_subscribe w sent df_name = Fail (ImapError text) ->
        Py.contains (Py.lower text) "alreadyexists" = false ->
        create_folder w a sf df_name st =
        stopped (sent ++ [ESubscribe df_name;
                          EPrint (OutError (IMAPClientError text))])%list).
Proof.
  intros w a sf df_name st Hdry Hskip sent stopped.
  unfold create_folder, stopped, sent. rewrite Hdry, Hskip. cbn [negb].
  unfold try_except, bind, call, when, print, emit, modify, ret, raise,
    continue.
  split; [|split; [|split]].
  - intros -> ->. reflexivity.
  - intros -> ->. cbn [negb trace mem]. intros ->. reflexivity.
  - intros text ->. cbn [exn_of_failure].
    destruct (Py.contains (Py.lower text) "alreadyexists");
      [reflexivity|].
    destruct (abort_on_error a); reflexivity.
  - intros text -> -> Hsub Hother. cbn [negb trace mem]. rewrite Hsub.
    cbn [exn_of_failure]. rewrite Hother.
    destruct (abort_on_error a); cbn; rewrite <- app_assoc; reflexivity.
Qed.

Lemma create_folder_witness :
  create_folder no_subscription Sample.limited (new_source_folder [])
    "INBOX" state0 =
  (Continue,
   {| mem := mem0;
      trace := [ECreate "INBOX"; ESubscribe "INBOX";
                EPrint (OutError (IMAPClientError "NO subscription refused"))]
   |}).
Proof.
  apply (proj2 (proj2 (proj2
           (@create_folder_outcome no_subscription Sample.limited
              (new_source_folder []) "INBOX" state0 eq_refl eq_refl)))
           "NO subscription refused");
    reflexivity.
Defined.

(** The folder exists on the destination afterwards, but the run counts
    it neither as copied nor as skipped and leaves its messages behind. *)
Example refused_subscription_loses_folder :
  fst (run no_subscription Sample.limited) = Normal tt /\
  copied_folders (stats (mem (snd (run no_subscription Sample.limited)))) =
    0%nat /\
  copied_mails (stats (mem (snd (run no_subscription Sample.limited)))) =
    0%nat /\
  errors (stats (mem (snd (run no_subscription Sample.limited)))) = [] /\
  In (ECreate "INBOX") (trace (snd (run no_subscription Sample.limited))).
Proof. vm_compute. intuition. Qed.

(* ================================================================= *)
(** ** Stopping at the first failed APPEND *)

Lemma append_failures_error (r : ErrorRecord) (x : Mem) :
  append_failures (with_stats (append_error r) x) =
  (append_failures x + (if is_append_failure r then 1 else 0))%nat.
Proof.
  unfold append_failures. cbn [stats with_stats errors append_error].
  rewrite filter_app, length_app. cbn [filter].
  destruct (is_append_failure r); reflexivity.
Qed.

Lemma ab_keeps A (m : M A) : keeps append_failures m -> aborting m.
Proof.
  intros Hk. unfold aborting.
  eapply triple_weaken;
    [apply (@triple_keeps A nat append_failures
              (fun x => append_failures x = 0%nat) m Hk) | | | |];
    cbv beta; intros; try assumption; try congruence; lia.
Qed.

Lemma ab_bind A B (m : M A) (k : A -> M B) :
  aborting m -> (forall x, aborting (k x)) -> aborting (bind m k).
Proof.
  intros Hm Hk. unfold aborting.
  apply triple_bind with (Mid := fun _ x => append_failures x = 0%nat);
    assumption.
Qed.

Lemma ab_for_each A (l : list A) (body : A -> M unit) :
  (forall x, aborting (body x)) -> aborting (for_each l body).
Proof.
  intros Hb. unfold aborting.
  eapply triple_weaken;
    [apply (@triple_for_each A (fun _ x => append_failures x = 0%nat) body
              (fun _ x => (append_failures x <= 1)%nat) l) | | | |];
    cbv beta; intros; try assumption; try contradiction.
  apply Hb.
Qed.

Ltac ab_leaf :=
  apply ab_keeps;
  solve [ repeat first
            [ apply keeps_modify; intros ?;
              first [ reflexivity
                    | rewrite append_failures_error; cbn; lia ]
            | keeps_structure ] ].

Section AbortOnError.

Variables (w : World) (a : Args).
Hypothesis stop : abort_on_error a = true.

Lemma ab_append_mail df_name msg_id size subject flags msg date :
  aborting (append_mail w a df_name msg_id size subject flags msg date).
Proof.
  unfold append_mail, aborting.
  apply triple_finally_modify with
    (N1 := fun _ x => append_failures x = 0%nat)
    (C1 := fun x => append_failures x = 0%nat)
    (R1 := fun _ x => (append_failures x <= 1)%nat);
    [|intros; assumption..].
  apply triple_try_except with
    (R1 := fun _ x => append_failures x = 0%nat).
  - apply triple_keeps with (f := append_failures);
      [|intros; congruence].
    repeat first [ apply keeps_modify; intros ?; reflexivity
                 | keeps_structure ].
  - intros e He. rewrite stop. cbn [when].
    apply triple_bind with (Mid := fun _ x => (append_failures x <= 1)%nat).
    + apply triple_modify. intros x Hx. rewrite append_failures_error, Hx.
      destruct (is_append_failure _); cbn; lia.
    + intros _.
      apply triple_bind with (Mid := fun _ x => (append_failures x <= 1)%nat).
      * apply triple_emit. auto.
      * intros _. apply triple_raise. auto.
  - intros e x _ Hx. lia.
Qed.

Ltac ab_structure :=
  first
    [ apply ab_append_mail
    | ab_leaf
    | apply ab_bind; [|intros ?]
    | apply ab_for_each; intros ?
    | match goal with
      | |- aborting (if ?b then _ else _) => destruct b
      | |- aborting (match ?x with _ => _ end) => destruct x
      end ].

Lemma ab_transfer_mail sf df_name row :
  aborting (transfer_mail w a sf df_name row).
Proof.
  unfold transfer_mail, skip_ladder, lookup_failed, already_exists, print.
  repeat ab_structure.
Qed.

Lemma ab_transfer_folder sf_name : aborting (transfer_folder w a sf_name).
Proof.
  unfold transfer_folder.
  repeat first
    [ apply ab_transfer_mail
    | match goal with
      | |- aborting (create_folder _ _ _ _) =>
          apply ab_keeps; unfold create_folder, print;
          repeat keeps_structure
      end
    | ab_structure ].
Qed.

Lemma transfer_stops_at_first_failure :
  triple (fun x => append_failures x = 0%nat) (transfer w a)
         (fun _ x => (append_failures x <= 1)%nat)
         (fun x => (append_failures x <= 1)%nat)
         (fun _ x => (append_failures x <= 1)%nat).
Proof.
  unfold transfer.
  apply triple_try_except with
    (R1 := fun _ x => (append_failures x <= 1)%nat).
  - apply triple_weaken with
      (P' := fun x => append_failures x = 0%nat)
      (N' := fun (_ : unit) x => append_failures x = 0%nat)
      (C' := fun x => append_failures x = 0%nat)
      (R' := fun (_ : exn) x => (append_failures x <= 1)%nat);
      [|intros; assumption | cbv beta; intros; lia
       | cbv beta; intros; lia | intros; assumption].
    change (aborting (src <- gets db_source ;;
                      for_each (sorted_lower (Dict.keys src))
                               (transfer_folder w a) ;;
                      print OutFinish)).
    unfold print.
    repeat first [ apply ab_transfer_folder | ab_structure ].
  - intros e _. apply triple_emit. auto.
  - intros e x _ Hx. exact Hx.
Qed.

End AbortOnError.

Lemma quiet_then_strict A (m : M A) :
  keeps append_failures m ->
  triple (fun x => append_failures x = 0%nat) m
         (fun _ x => append_failures x = 0%nat)
         (fun x => (append_failures x <= 1)%nat)
         (fun _ x => (append_failures x <= 1)%nat).
Proof.
  intros Hk.
  apply triple_weaken with
    (P' := fun x => append_failures x = 0%nat)
    (N' := fun (_ : A) x => append_failures x = 0%nat)
    (C' := fun x => append_failures x = 0%nat)
    (R' := fun (_ : exn) x => append_failures x = 0%nat);
    [|intros; assumption | intros; assumption
     | cbv beta; intros; lia | cbv beta; intros; lia].
  apply triple_keeps with (f := append_failures);
    [exact Hk | intros; congruence].
Qed.

Lemma quiet_then_loose A (m : M A) :
  keeps append_failures m ->
  triple (fun x => (append_failures x <= 1)%nat) m
         (fun _ x => (append_failures x <= 1)%nat)
         (fun x => (append_failures x <= 1)%nat)
         (fun _ x => (append_failures x <= 1)%nat).
Proof.
  intros Hk. apply triple_keeps with (f := append_failures);
    [exact Hk | intros x y E H; rewrite E; exact H].
Qed.

Lemma script_stops_at_first_failure (w : World) (a : Args) :
  abort_on_error a = true ->
  triple (fun x => append_failures x = 0%nat) (script w a)
         (fun _ x => (append_failures x <= 1)%nat)
         (fun x => (append_failures x <= 1)%nat)
         (fun _ x => (append_failures x <= 1)%nat).
Proof.
  intros Hstop. unfold script, replicate.
  apply triple_bind with (Mid := fun _ x => append_failures x = 0%nat).
  { apply quiet_then_strict. keeps_auto ltac:(fail). }
  intros ?.
  apply triple_bind with (Mid := fun _ x => append_failures x = 0%nat).
  { apply quiet_then_strict. keeps_auto ltac:(fail). }
  intros ?.
  apply triple_bind with (Mid := fun _ x => append_failures x = 0%nat).
  { apply quiet_then_strict. keeps_auto ltac:(fail). }
  intros ?.
  apply triple_bind with (Mid := fun _ x => append_failures x = 0%nat).
  { apply quiet_then_strict. keeps_auto ltac:(fail). }
  intros ?.
  apply triple_bind with (Mid := fun _ x => (append_failures x <= 1)%nat).
  { now apply transfer_stops_at_first_failure. }
  intros ?.
  apply triple_bind with (Mid := fun _ x => (append_failures x <= 1)%nat).
  { apply quiet_then_loose. keeps_auto ltac:(fail). }
  intros ?.
  apply triple_bind with (Mid := fun _ x => (append_failures x <= 1)%nat).
  { apply quiet_then_loose. keeps_auto ltac:(fail). }
  intros ?.
  apply quiet_then_loose. keeps_auto ltac:(fail).
Qed.

(** X23. With [--abort-on-error] (and a buffer size that lets the
    enumeration end) the first failed APPEND is the last one: however a run
    ends, its error list holds at most one entry written by the handler of
    a failed APPEND. *)
Theorem abort_on_error_stops_at_first_failure :
  forall (w : World) (a : Args),
    abort_on_error a = true ->
    buffer_size_ok a ->
    (append_failures (mem (snd (run w a))) <= 1)%nat.
Proof.
  intros w a Hstop Hok. pose proof (@run_ends w a Hok) as Hends.
  unfold run in *.
  destruct (script w (apply_default_ports a) state0) as [r st] eqn:Erun.
  assert (Hstop' : abort_on_error (apply_default_ports a) = true)
    by exact Hstop.
  pose proof (@script_stops_at_first_failure w (apply_default_ports a) Hstop'
                state0 r st eq_refl Erun) as H.
  cbn [fst snd] in *.
  destruct r; cbn in H; try assumption; try contradiction;
    now contradiction Hends.
Qed.

Lemma abort_on_error_witness :
  (append_failures
     (mem (snd (run Sample.refusing Sample.stop_at_error))) <= 1)%nat.
Proof.
  apply (@abort_on_error_stops_at_first_failure Sample.refusing
           Sample.stop_at_error).
  - reflexivity.
  - cbn. lia.
Defined.

(** The same servers without the option: both messages fail and both
    failures are recorded. *)
Example without_abort_all_failures_recorded :
  append_failures (mem (snd (run Sample.refusing Sample.stop_at_error))) =
    1%nat /\
  append_failures (mem (snd (run Sample.refusing Sample.limited))) = 2%nat.
Proof. split; vm_compute; reflexivity. Qed.

(* ================================================================= *)
(** ** Reading the quota *)

(** X24. Reading the source quota (lines 219-222): a source that
    advertises QUOTA and answers GETQUOTA with no quota root stops the
    script with an [IndexError]; one whose first quota has the limit 0
    stops it with a [ZeroDivisionError], raised by the percentage of the
    report.  Either way nothing has been asked of the destination yet. *)
Theorem source_quota_report_crashes :
  forall (w : World) (a : Args) (st : State),
    w_has_capability w (trace st) Source "QUOTA" = Ok true ->
    let asked :=
      (trace st ++ [EHasCapability Source "QUOTA"; EGetQuota Source])%list in
    (w_get_quota w (trace st ++ [EHasCapability Source "QUOTA"])%list Source
     = Ok [] ->
     check_quota w a st =
     (Raise IndexError, {| mem := mem st; trace := asked |})) /\
    (forall q rest,
        w_get_quota w (trace st ++ [EHasCapability Source "QUOTA"])%list
                    Source = Ok (q :: rest) ->
        limit q = 0 ->
        check_quota w a st =
        (Raise ZeroDivisionError, {| mem := mem st; trace := asked |})).
Proof.
  intros w a st Hcap asked. unfold asked.
  unfold check_quota, bind, call, first_quota. rewrite Hcap. cbn [trace mem].
  split.
  - intros ->. cbn. now rewrite <- app_assoc.
  - intros q rest -> Hzero. apply Z.eqb_eq in Hzero. cbn [trace mem].
    rewrite Hzero. cbn. now rewrite <- app_assoc.
Qed.

Lemma source_quota_witness :
  fst (run unlimited_source Sample.limited) = Raise ZeroDivisionError.
Proof.
  unfold run, script, prepare.
  erewrite bind_raise; [reflexivity|].
  erewrite bind_normal; [|vm_compute; reflexivity].
  erewrite bind_raise; [reflexivity|].
  apply (proj2 (@source_quota_report_crashes unlimited_source
                  (apply_default_ports Sample.limited) _ eq_refl)
           {| quota_root := ""; resource := "STORAGE"; usage := 10000;
              limit := 0 |} []);
    reflexivity.
Defined.

(* ================================================================= *)
(** ** Counting folders *)

Lemma folders_counted_core (db : sdict SourceFolder) (n : nat) (x y : Mem) :
  folder_core x = folder_core y -> folders_counted db n y ->
  folders_counted db n x.
Proof.
  unfold folder_core, folders_counted. intros [= -> ->]. auto.
Qed.

Lemma keeps_try_finally B (f : Mem -> B) A (m : M A) (c : M unit) :
  keeps f m -> keeps f c -> keeps f (try_finally m c).
Proof.
  intros Hm Hc st r st'. unfold try_finally.
  destruct (m st) as [ra st1] eqn:Em. destruct (Hm _ _ _ Em) as [H1 Hb1].
  destruct (c st1) as [rc st2] eqn:Ec. destruct (Hc _ _ _ Ec) as [H2 Hb2].
  destruct ra; try congruence; destruct rc; try congruence;
    intros [= <- <-]; (split; [congruence | discriminate]).
Qed.

Section FolderCount.

Variables (w : World) (a : Args).
Variable db : sdict SourceFolder.

Lemma keeps_folder_core_mail sf df_name row :
  keeps folder_core (transfer_mail w a sf df_name row).
Proof.
  repeat first [ apply keeps_try_finally | keeps_auto ltac:(fail) ].
Qed.

Lemma steady_counted A (m : M A) (n : nat) :
  keeps folder_core m ->
  triple (folders_counted db n) m (fun _ => folders_counted db n)
         (folders_counted db n) (fun _ => folders_counted db n).
Proof.
  intros Hk. apply triple_keeps with (f := folder_core); [exact Hk|].
  apply folders_counted_core.
Qed.

Lemma counted_more (n : nat) (x : Mem) :
  folders_counted db n x -> folders_counted db (n + 1) x.
Proof. unfold folders_counted. intros [H1 H2]. split; [lia | exact H2]. Qed.

Ltac bump :=
  unfold folders_counted, folders_done; cbn; intros ? [? ?];
  split; [lia | assumption].

Lemma create_folder_counted n sf df_name :
  triple (folders_counted db n) (create_folder w a sf df_name)
         (fun _ => folders_counted db (n + 1))
         (folders_counted db (n + 1))
         (fun _ => folders_counted db (n + 1)).
Proof.
  unfold create_folder.
  destruct (negb (dry_run a)); [|apply triple_ret; apply counted_more].
  destruct (skip_empty_folders a && is_nil (sf_mails sf))%bool.
  - apply triple_bind with (Mid := fun _ => folders_counted db (n + 1)).
    + apply triple_modify. bump.
    + intros ?. apply triple_continue. auto.
  - apply triple_try_except with (R1 := fun _ => folders_counted db n).
    + apply triple_bind with (Mid := fun _ => folders_counted db n).
      { apply triple_call; intros; assumption. }
      intros ?.
      apply triple_bind with (Mid := fun _ => folders_counted db n).
      { apply triple_when.
        - intros _. apply triple_call; intros; assumption.
        - intros _ x Hx. exact Hx. }
      intros ?. apply triple_modify. bump.
    + intros e He. destruct e; try discriminate.
      destruct (Py.contains (Py.lower msg) "alreadyexists").
      * apply triple_modify. bump.
      * apply triple_bind with (Mid := fun _ => folders_counted db n).
        { apply triple_emit. auto. }
        intros ?.
        apply triple_bind with (Mid := fun _ => folders_counted db n).
        { apply triple_when.
          - intros _. apply triple_raise. apply counted_more.
          - intros _ x Hx. exact Hx. }
        intros ?. apply triple_continue. apply counted_more.
    + intros e x _ Hx. now apply counted_more.
Qed.

Lemma transfer_folder_counted n name :
  triple (folders_counted db n) (transfer_folder w a name)
         (fun _ => folders_counted db (n + 1))
         (folders_counted db (n + 1))
         (fun _ => folders_counted db (n + 1)).
Proof.
  unfold transfer_folder.
  apply triple_bind with (Mid := fun _ => folders_counted db n).
  { apply triple_call; intros; first [assumption | now apply counted_more]. }
  intros ?. apply triple_gets_any. intros src.
  destruct (sget name src) as [sf|];
    [|apply triple_raise; apply counted_more].
  apply triple_gets_any. intros sd. apply triple_gets_any. intros dd.
  destruct sd as [d_s|]; [|apply triple_raise; apply counted_more].
  destruct dd as [d_d|]; [|apply triple_raise; apply counted_more].
  apply triple_gets_any. intros dst. apply triple_gets_any. intros redir.
  apply triple_bind with (Mid := fun _ => folders_counted db (n + 1)).
  { destruct (smem _ dst).
    - apply triple_modify. bump.
    - apply create_folder_counted. }
  intros ?. destruct (dry_run a); [apply triple_continue; auto|].
  apply steady_counted.
  repeat first [ apply keeps_folder_core_mail | keeps_structure ].
Qed.

End FolderCount.

Lemma sorted_lower_length (l : list string) :
  List.length (sorted_lower l) = List.length l.
Proof. apply Permutation_length, sorted_lower_perm. Qed.

Lemma folders_within_core (x y : Mem) :
  folder_core x = folder_core y -> folders_within y -> folders_within x.
Proof. unfold folder_core, folders_within. intros [= -> ->]. auto. Qed.

Lemma steady_within A (m : M A) :
  keeps folder_core m ->
  triple folders_within m (fun _ => folders_within) folders_within
         (fun _ => folders_within).
Proof.
  intros Hk. apply triple_keeps with (f := folder_core); [exact Hk|].
  apply folders_within_core.
Qed.

(** Before the transfer nothing is counted. *)
Lemma steady_uncounted A (m : M A) :
  keeps folders_done m ->
  triple (fun x => folders_done x = 0%nat) m
         (fun _ x => folders_done x = 0%nat) folders_within
         (fun _ => folders_within).
Proof.
  intros Hk.
  apply triple_weaken with
    (P' := fun x => folders_done x = 0%nat)
    (N' := fun (_ : A) x => folders_done x = 0%nat)
    (C' := fun x => folders_done x = 0%nat)
    (R' := fun (_ : exn) x => folders_done x = 0%nat);
    [|intros; assumption | intros; assumption
     | unfold folders_within; intros; lia
     | unfold folders_within; intros; lia].
  apply triple_keeps with (f := folders_done);
    [exact Hk | intros; congruence].
Qed.

Lemma transfer_counts_folders (w : World) (a : Args) :
  triple (fun x => folders_done x = 0%nat) (transfer w a)
         (fun _ => folders_within) folders_within (fun _ => folders_within).
Proof.
  unfold transfer.
  apply triple_try_except with (R1 := fun _ => folders_within).
  - intros st r st' Hpre. unfold bind at 1. cbn [gets].
    set (src := db_source (mem st)).
    assert (Hloop :
      triple (folders_counted src 0)
             (for_each (sorted_lower (Dict.keys src)) (transfer_folder w a))
             (fun _ => folders_counted src
                         (List.length (sorted_lower (Dict.keys src))))
             never
             (fun _ => folders_counted src
                         (List.length (sorted_lower (Dict.keys src))))).
    { apply (@triple_for_each string
               (fun pre => folders_counted src (List.length pre))
               (transfer_folder w a)).
      intros pre x suf Hl.
      eapply triple_weaken;
        [apply (@transfer_folder_counted w a src (List.length pre) x)
        | | | |]; cbv beta; intros; try assumption.
      - rewrite length_app. exact H.
      - rewrite length_app. exact H.
      - rewrite Hl, length_app. cbn [List.length].
        destruct H as [H1 H2]. split; [lia | exact H2]. }
    assert (Hwithin : forall x,
               folders_counted src
                 (List.length (sorted_lower (Dict.keys src))) x ->
               folders_within x).
    { intros x [H1 H2]. unfold folders_within. rewrite H2.
      rewrite sorted_lower_length in H1. unfold Dict.keys in H1.
      now rewrite length_map in H1. }
    intros Hrun.
    assert (Hbody :
      triple (folders_counted src 0)
             (for_each (sorted_lower (Dict.keys src)) (transfer_folder w a) ;;
              print OutFinish)
             (fun _ => folders_within) folders_within
             (fun _ => folders_within)).
    { apply triple_bind with
        (Mid := fun _ => folders_counted src
                           (List.length (sorted_lower (Dict.keys src)))).
      - eapply triple_weaken; [exact Hloop | | | |]; cbv beta; auto.
        intros x [].
      - intros ?. apply triple_emit. exact Hwithin. }
    apply (Hbody st r st'); [|exact Hrun].
    split; [lia | reflexivity].
  - intros e _. apply triple_emit. auto.
  - intros e x _ Hx. exact Hx.
Qed.

Lemma script_counts_folders (w : World) (a : Args) :
  triple (fun x => folders_done x = 0%nat) (script w a)
         (fun _ => folders_within) folders_within (fun _ => folders_within).
Proof.
  unfold script, replicate.
  apply triple_bind with (Mid := fun _ x => folders_done x = 0%nat).
  { apply steady_uncounted. keeps_auto ltac:(fail). }
  intros ?.
  apply triple_bind with (Mid := fun _ x => folders_done x = 0%nat).
  { apply steady_uncounted. keeps_auto ltac:(fail). }
  intros ?.
  apply triple_bind with (Mid := fun _ x => folders_done x = 0%nat).
  { apply steady_uncounted. keeps_auto ltac:(fail). }
  intros ?.
  apply triple_bind with (Mid := fun _ x => folders_done x = 0%nat).
  { apply steady_uncounted. keeps_auto ltac:(fail). }
  intros ?.
  apply triple_bind with (Mid := fun _ => folders_within).
  { apply transfer_counts_folders. }
  intros ?.
  apply triple_bind with (Mid := fun _ => folders_within).
  { apply steady_within. keeps_auto ltac:(fail). }
  intros ?.
  apply triple_bind with (Mid := fun _ => folders_within).
  { apply steady_within. keeps_auto ltac:(fail). }
  intros ?.
  apply steady_within. keeps_auto ltac:(fail).
Qed.

(** X25. The folder counters of the report never exceed the manifest: at
    the end of a run, the folders counted as copied, as already existing
    and as skipped because empty are together at most as many as the
    source folders enumerated.  A folder whose CREATE or SUBSCRIBE failed
    otherwise, or which a dry run passed over, is in none of the three. *)
Theorem folder_counters_within_manifest :
  forall (w : World) (a : Args),
    buffer_size_ok a ->
    (copied_folders (stats (mem (snd (run w a))))
     + skf_already_exists (skipped_folders (stats (mem (snd (run w a)))))
     + skf_empty (skipped_folders (stats (mem (snd (run w a)))))
     <= List.length (db_source (mem (snd (run w a)))))%nat.
Proof.
  intros w a Hok. pose proof (@run_ends w a Hok) as Hends.
  unfold run in *.
  destruct (script w (apply_default_ports a) state0) as [r st] eqn:Erun.
  pose proof (@script_counts_folders w (apply_default_ports a)
                state0 r st eq_refl Erun) as H.
  cbn [fst snd] in *.
  destruct r; cbn in H; try exact H; try contradiction;
    now contradiction Hends.
Qed.

Lemma folder_counters_witness :
  (copied_folders (stats (mem (snd (run fresh_destination Sample.limited))))
   + skf_already_exists
       (skipped_folders
          (stats (mem (snd (run fresh_destination Sample.limited)))))
   + skf_empty
       (skipped_folders
          (stats (mem (snd (run fresh_destination Sample.limited)))))
   <= List.length
        (db_source (mem (snd (run fresh_destination Sample.limited)))))%nat.
Proof.
  apply (@folder_counters_within_manifest fresh_destination Sample.limited).
  cbn. lia.
Defined.

Example folders_of_two_runs :
  folders_done (mem (snd (run fresh_destination Sample.limited))) = 1%nat /\
  folders_done (mem (snd (run no_subscription Sample.limited))) = 0%nat /\
  List.length (db_source (mem (snd (run no_subscription Sample.limited)))) =
    1%nat.
Proof. repeat split; vm_compute; reflexivity. Qed.

(* ================================================================= *)
(** ** The IDLE discipline *)

Lemma idle_run_app (i : bool * bool) (t u : list event) :
  idle_run i (t ++ u) =
  match idle_run i t with
  | Some j => idle_run j u
  | None => None
  end.
Proof.
  revert i. induction t as [|e t IH]; intros i; cbn [app idle_run];
    [reflexivity|].
  destruct (idle_step i e); [apply IH | reflexivity].
Qed.

Lemma idle_at_step (i j : bool * bool) (e : event) (st : State) (m : Mem) :
  idle_at i st -> idle_step i e = Some j ->
  idle_at j {| mem := m; trace := (trace st ++ [e])%list |}.
Proof.
  unfold idle_at. cbn [trace]. intros H E.
  rewrite idle_run_app, H. cbn [idle_run]. now rewrite E.
Qed.

Lemma idle_at_mem (i : bool * bool) (st : State) (m : Mem) :
  idle_at i st -> idle_at i {| mem := m; trace := trace st |}.
Proof. auto. Qed.

Section FlowRules.

Variable X : bool * bool -> Prop.

Lemma flows_ret A (a : A) P C : flows P (ret a) P C X.
Proof. intros st r st' H [= <- <-]. eauto. Qed.

Lemma flows_raise A (e : exn) P N C : X P -> flows P (@raise A e) N C X.
Proof. intros HX st r st' H [= <- <-]. eauto. Qed.

Lemma flows_continue A P N : flows P (@continue A) N P X.
Proof. intros st r st' H [= <- <-]. eauto. Qed.

Lemma flows_diverge A P N C : X P -> flows P (@diverge A) N C X.
Proof. intros HX st r st' H [= <- <-]. eauto. Qed.

Lemma flows_gets A (g : Mem -> A) P C : flows P (gets g) P C X.
Proof. intros st r st' H [= <- <-]. eauto. Qed.

Lemma flows_modify (g : Mem -> Mem) P C : flows P (modify g) P C X.
Proof.
  intros st r st' H [= <- <-]. exists P. split; [|reflexivity].
  now apply idle_at_mem.
Qed.

Lemma flows_emit (e : event) P N C :
  idle_step P e = Some N -> flows P (emit e) N C X.
Proof.
  intros E st r st' H [= <- <-]. exists N. split; [|reflexivity].
  eapply idle_at_step; eauto.
Qed.

Lemma flows_call A (e : event) (answer : list event -> reply A) P N C :
  idle_step P e = Some N -> X N -> flows P (call e answer) N C X.
Proof.
  intros E HX st r st' H. unfold call.
  destruct (answer (trace st)); intros [= <- <-]; exists N;
    (split; [eapply idle_at_step; eauto | auto]).
Qed.

Lemma flows_bind A B (m : M A) (k : A -> M B) P Q N C :
  flows P m Q C X -> (forall a, flows Q (k a) N C X) ->
  flows P (bind m k) N C X.
Proof.
  intros Hm Hk st r st' H. unfold bind.
  destruct (m st) as [ra st1] eqn:Em.
  destruct (Hm _ _ _ H Em) as [i [Hi Hr]].
  destruct ra; try (intros [= <- <-]; eauto; fail).
  subst i. apply Hk. exact Hi.
Qed.

Lemma flows_for_each A (l : list A) (body : A -> M unit) P C :
  (forall x, flows P (body x) P P X) -> flows P (for_each l body) P C X.
Proof.
  intros Hb. induction l as [|x l IH]; cbn [for_each]; [apply flows_ret|].
  intros st r st' H.
  destruct (body x st) as [rb st1] eqn:Eb.
  destruct (Hb _ _ _ _ H Eb) as [i [Hi Hr]].
  destruct rb; try (intros [= <- <-]; eauto; fail);
    try contradiction; subst i; apply IH; exact Hi.
Qed.

Lemma flows_when (b : bool) (m : M unit) P C :
  flows P m P C X -> flows P (when b m) P C X.
Proof. intros H. destruct b; [exact H | apply flows_ret]. Qed.

Lemma flows_try_finally_modify A (m : M A) (g : Mem -> Mem) P N C :
  flows P m N C X -> flows P (try_finally m (modify g)) N C X.
Proof.
  intros Hm st r st' H. unfold try_finally, modify.
  destruct (m st) as [ra st1] eqn:Em.
  destruct (Hm _ _ _ H Em) as [i [Hi Hr]].
  destruct ra; intros [= <- <-]; exists i; (split; [exact Hi | exact Hr]).
Qed.

End FlowRules.

(** A [try] whose body and handler leave the connections as they are. *)
Lemma flows_try_except (X : bool * bool -> Prop) A (m : M A)
  (sel : exn -> bool) (h : exn -> M A) P N C :
  flows P m N C (eq P) -> (forall e, flows P (h e) N C X) -> X P ->
  flows P (try_except m sel h) N C X.
Proof.
  intros Hm Hh HX st r st' H. unfold try_except.
  destruct (m st) as [ra st1] eqn:Em.
  destruct (Hm _ _ _ H Em) as [i [Hi Hr]].
  destruct ra as [x|e| | |]; try (intros [= <- <-]; eauto; fail).
  - subst i. destruct (sel e); [apply Hh; exact Hi|].
    intros [= <- <-]. eauto.
  - subst i. intros [= <- <-]. eauto.
Qed.

Ltac flows_side := first [exact I | reflexivity].

Ltac flows_structure :=
  first
    [ apply flows_ret | apply flows_continue | apply flows_gets
    | apply flows_modify
    | apply flows_raise; flows_side
    | apply flows_diverge; flows_side
    | apply flows_emit; reflexivity
    | apply flows_call; [reflexivity | flows_side]
    | eapply flows_bind; [|intros ?]
    | apply flows_when
    | apply flows_try_finally_modify
    | apply flows_try_except; [|intros ?|flows_side]
    | apply flows_for_each; intros ?
    | match goal with
      | |- flows _ (if ?b then _ else _) _ _ _ => destruct b
      | |- flows _ (match ?x with _ => _ end) _ _ _ => destruct x
      end ].

Ltac flows_loops :=
  match goal with
  | IH : forall mails, flows _ (enumerate_source_buffers _ _ ?n _ mails) _ _ _
    |- flows _ (enumerate_source_buffers _ _ ?n _ _) _ _ _ => apply IH
  | IH : forall mails,
      flows _ (enumerate_destination_buffers _ _ ?n _ mails) _ _ _
    |- flows _ (enumerate_destination_buffers _ _ ?n _ _) _ _ _ => apply IH
  | |- flows ?P (enumerate_source_buffers _ _ ?n _ ?m) ?N _ _ =>
      unify N P; generalize n; generalize m;
      let m' := fresh "mails" in
      let n' := fresh "fuel" in
      let IH := fresh "IH" in
      intros m' n'; revert m'; induction n' as [|n' IH];
      intros [|? ?]; cbn [enumerate_source_buffers]
  | |- flows ?P (enumerate_destination_buffers _ _ ?n _ ?m) ?N _ _ =>
      unify N P; generalize n; generalize m;
      let m' := fresh "mails" in
      let n' := fresh "fuel" in
      let IH := fresh "IH" in
      intros m' n'; revert m'; induction n' as [|n' IH];
      intros [|? ?]; cbn [enumerate_destination_buffers]
  end.

Ltac flows_auto :=
  repeat first
    [ progress (unfold_script; unfold print, exit)
    | flows_structure
    | flows_loops ].

Lemma script_flows (w : World) (a : Args) :
  flows (false, false) (script w a) (false, false) (false, false)
        (fun _ => True).
Proof.
  flows_auto.
Qed.

(** X26. The script keeps the IDLE discipline on both connections, whatever
    the servers answer and however the run ends: IDLE is only entered on a
    connection that is not idling, DONE is only sent to one that is, and no
    other command is ever sent on an idling connection.  A run that
    completes has left IDLE on both. *)
Theorem idle_discipline_kept :
  forall (w : World) (a : Args),
    exists i,
      idle_run (false, false) (trace (snd (run w a))) = Some i /\
      (fst (run w a) = Normal tt -> i = (false, false)).
Proof.
  intros w a. unfold run.
  destruct (script w (apply_default_ports a) state0) as [r st] eqn:Erun.
  destruct (@script_flows w (apply_default_ports a) state0 r st eq_refl Erun)
    as [i [Hi Hr]].
  exists i. split; [exact Hi|]. cbn [fst]. intros ->. exact Hr.
Qed.

Lemma idle_discipline_witness :
  exists i,
    idle_run (false, false)
      (trace (snd (run Sample.one_mail Sample.limited))) = Some i /\
    i = (false, false).
Proof.
  destruct (idle_discipline_kept Sample.one_mail Sample.limited)
    as [i [H1 H2]].
  exists i. split; [exact H1 | apply H2; vm_compute; reflexivity].
Defined.

Example idle_discipline_examples :
  idle_run (false, false) (trace (snd (run Sample.one_mail Sample.limited))) =
    Some (false, false) /\
  idle_run (false, false)
    (trace (snd (run Sample.one_mail (set_list_mode true Sample.limited)))) =
    Some (true, false) /\
  idle_run (false, false)
    [EIdle Destination; ESelect Destination "INBOX"] = None.
Proof. repeat split; vm_compute; reflexivity. Qed.


(* ================================================================= *)
(** ** Reading a redirection rule *)

Lemma split_once_some (c : ascii) (rule s d : string) :
  Py.split_once c rule = Some (s, d) <->
  rule = s ++ String c d /\ absent c s.
Proof.
  revert s. induction rule as [|x rule IH]; intros s; cbn [Py.split_once].
  - split; [discriminate|]. intros [H _]. destruct s; discriminate.
  - destruct (Ascii.eqb_spec x c) as [->|Hne].
    + split.
      * intros [= <- <-]. split; [reflexivity | exact I].
      * intros [H Habs]. destruct s as [|y s]; cbn in H.
        -- now injection H as <-.
        -- injection H as <- _. cbn in Habs. now destruct Habs.
    + destruct (Py.split_once c rule) as [[h t]|] eqn:E.
      * split.
        -- intros [= <- <-]. destruct (proj1 (IH h) eq_refl) as [-> Hh].
           split; [reflexivity | cbn; auto].
        -- intros [H Habs]. destruct s as [|y s]; cbn in H.
           ++ injection H as -> _. now contradiction Hne.
           ++ injection H as <- H. cbn in Habs. destruct Habs as [_ Hs].
              assert (Hs' : Some (h, t) = Some (s, d))
                by (apply IH; auto).
              now injection Hs' as -> ->.
      * split; [discriminate|]. intros [H Habs].
        destruct s as [|y s]; cbn in H.
        -- injection H as -> _. now contradiction Hne.
        -- injection H as <- H. cbn in Habs. destruct Habs as [_ Hs].
           assert (Hs' : None = Some (s, d)) by (apply IH; auto).
           discriminate.
Qed.

Lemma split_once_none (c : ascii) (rule : string) :
  Py.split_once c rule = None <-> absent c rule.
Proof.
  induction rule as [|x rule IH]; cbn [Py.split_once absent].
  - tauto.
  - destruct (Ascii.eqb_spec x c) as [->|Hne].
    + split; [discriminate | intros [H _]; now contradiction H].
    + destruct (Py.split_once c rule) as [[h t]|].
      * split; [discriminate|]. intros [_ H]. apply IH in H. discriminate.
      * split; [|reflexivity]. intros _. split; [exact Hne | now apply IH].
Qed.

(** X27. A [--redirect] rule is cut at its first colon (line 415): it is
    read as source and destination exactly when it is the source, a colon
    and the destination, the source holding no colon (the destination may);
    and it cannot be read exactly when it holds no colon at all. *)
Theorem redirect_rule_splits_at_first_colon :
  forall rule : string,
    (Py.split_once ":" rule = None <-> absent ":" rule) /\
    (forall r_source r_destination,
        Py.split_once ":" rule = Some (r_source, r_destination) <->
        rule = r_source ++ ":" ++ r_destination /\ absent ":" r_source).
Proof.
  intros rule. split; [apply split_once_none|].
  intros s d. apply split_once_some.
Qed.

Lemma redirect_rule_witness :
  Py.split_once ":" "Lists:Archive:2020" = Some ("Lists", "Archive:2020").
Proof.
  apply (proj2 (redirect_rule_splits_at_first_colon "Lists:Archive:2020")).
  split; [reflexivity | cbn; repeat split; discriminate].
Defined.

Example rule_with_two_colons :
  Py.split_once ":" "Lists:Archive:2020" = Some ("Lists", "Archive:2020").
Proof. reflexivity. Qed.

(* ================================================================= *)
(** ** Logging in *)

(** X28. [login] sends LOGIN exactly when it is given a connection, and
    then once, with the given user and password; it returns [True] exactly
    when the server accepted, never changes the script's variables and
    never lets an [Exception] escape: without a connection, or after a
    refusal, it returns [False]. *)
Theorem login_behaviour :
  forall (w : World) (connection : bool) (s : side) (user password : string)
         (st : State),
    let out := login w connection s user password st in
    mem (snd out) = mem st /\
    (fst out = Normal true \/ fst out = Normal false \/
     fst out = Raise KeyboardInterrupt) /\
    trace (snd out) =
      (trace st ++ if connection then [ELogin s user password] else [])%list /\
    (fst out = Normal true <->
     connection = true /\ w_login w (trace st) s user password = Ok tt).
Proof.
  intros w connection s user password st. cbv zeta.
  unfold login. destruct connection.
  - unfold try_except, bind, call, ret.
    destruct (w_login w (trace st) s user password) as [[]|f] eqn:El.
    + cbn. repeat split; auto.
    + destruct f; cbn; (split; [reflexivity|]); (split; [tauto|]);
        (split; [reflexivity|]);
        (split; [discriminate | intros [_ Hbad]; discriminate]).
  - cbn. rewrite app_nil_r. split; [reflexivity|]. split; [tauto|].
    split; [reflexivity|]. split; [discriminate | intros [Hbad _]; discriminate].
Qed.

Lemma login_witness :
  fst (login Sample.one_mail true Source "alice" "secret" state0) =
  Normal true.
Proof.
  apply (proj2 (proj2 (proj2 (login_behaviour Sample.one_mail true Source
                                "alice" "secret" state0)))).
  split; reflexivity.
Defined.

Example login_refused :
  login Sample.locked_out true Source "alice" "secret" state0 =
  (Normal false, {| mem := mem0; trace := [ELogin Source "alice" "secret"] |})
  /\
  login Sample.locked_out false Source "alice" "secret" state0 =
  (Normal false, state0).
Proof. split; reflexivity. Qed.

(* ================================================================= *)
(** ** What the enumeration records *)

Lemma sget_supdate_same V (k : string) (g : V -> V) (d : sdict V) :
  sget k (supdate k g d) = option_map g (sget k d).
Proof.
  induction d as [|[k' v] d IH]; [reflexivity|].
  cbn [Dict.update Dict.get].
  destruct (String.eqb k' k) eqn:E; cbn [Dict.get]; rewrite E;
    [reflexivity | exact IH].
Qed.

Lemma zget_zset_same V (k : Z) (v : V) (d : Dict.t Z V) :
  zget k (zset k v d) = Some v.
Proof.
  induction d as [|[k' v'] d IH]; cbn [Dict.set Dict.get].
  - now rewrite Z.eqb_refl.
  - destruct (Z.eqb k' k) eqn:E; cbn [Dict.get]; rewrite E;
      [reflexivity | exact IH].
Qed.

(** X29. A row of the metadata FETCH that carries a size and an envelope
    is entered in the manifest of its folder under its UID, with that size,
    the Message-ID of the envelope and the decoded subject, or
    "(no subject)" when the envelope has none; the size is added to the
    folder's size and the message counted in [source_mails], whether or not
    the refresh of the destination's IDLE that may follow succeeds.  This
    is the entry the lookup of the transfer (lines 520-522) finds. *)
Theorem enumeration_records_row :
  forall (w : World) (name : string) (mail_id size : Z) (envelope : Envelope)
         (f : SourceFolder) (st : State),
    sget name (db_source (mem st)) = Some f ->
    let out :=
      enumerate_source_mail w name
        (mail_id, {| md_size := Some size; md_envelope := Some envelope |})
        st in
    exists f',
      sget name (db_source (mem (snd out))) = Some f' /\
      zget mail_id (sf_mails f') =
        Some {| sm_size := size; sm_subject := stored_subject w envelope;
                sm_msg_id := message_id envelope |} /\
      sf_size f' = sf_size f + size /\
      sf_buffer f' = sf_buffer f /\
      source_mails (stats (mem (snd out))) =
        S (source_mails (stats (mem st))).
Proof.
  intros w name mail_id size envelope f st Hf. cbv zeta.
  unfold enumerate_source_mail. cbn [md_envelope md_size].
  fold (stored_subject w envelope).
  set (entry := {| sm_size := size; sm_subject := stored_subject w envelope;
                   sm_msg_id := message_id envelope |}).
  set (m3 := with_stats incr_source_mails
               (with_db_source (supdate name (add_source_size size))
                  (with_db_source (supdate name (add_source_mail mail_id entry))
                     (mem st)))).
  assert (Hmem : mem (snd ((modify (with_db_source
                     (supdate name (add_source_mail mail_id entry))) ;;
                   modify (with_db_source
                     (supdate name (add_source_size size))) ;;
                   modify (with_stats incr_source_mails) ;;
                   n <- gets (fun m => source_mails (stats m)) ;;
                   when (Z.of_nat n mod 10000 =? 0)
                        (restart_imap_idle w Destination)) st)) = m3).
  { unfold bind at 1. cbn [modify]. unfold bind at 1. cbn [modify mem trace].
    unfold bind at 1. cbn [modify mem trace]. unfold bind at 1.
    cbn [gets mem].
    match goal with
    | |- mem (snd (when ?b ?m ?s)) = _ =>
        destruct (when b m s) as [r st'] eqn:Ew;
        pose proof (@keeps_mem _ (when b m) s r st'
                      (keeps_when (f := fun x => x) b
                         (keeps_restart_imap_idle w Destination)) Ew) as Hk
    end.
    cbn [snd]. rewrite Hk. reflexivity. }
  rewrite Hmem. unfold m3.
  cbn [db_source stats with_stats with_db_source source_mails
       incr_source_mails].
  rewrite !sget_supdate_same, Hf. cbn [option_map].
  eexists. split; [reflexivity|].
  cbn [sf_mails sf_size sf_buffer add_source_size add_source_mail].
  repeat split. apply zget_zset_same.
Qed.

Lemma enumeration_records_witness :
  exists f',
    sget "INBOX"
      (db_source (mem (snd (enumerate_source_mail Sample.uniform "INBOX"
         (7, {| md_size := Some 1000;
                md_envelope := Some {| subject := None;
                                       message_id := Some "<7@example>" |} |})
         inbox_open)))) = Some f' /\
    zget 7 (sf_mails f') =
      Some {| sm_size := 1000; sm_subject := "(no subject)";
              sm_msg_id := Some "<7@example>" |} /\
    sf_size f' = sf_size (new_source_folder []) + 1000 /\
    sf_buffer f' = sf_buffer (new_source_folder []) /\
    source_mails
      (stats (mem (snd (enumerate_source_mail Sample.uniform "INBOX"
         (7, {| md_size := Some 1000;
                md_envelope := Some {| subject := None;
                                       message_id := Some "<7@example>" |} |})
         inbox_open)))) = S (source_mails (stats (mem inbox_open))).
Proof.
  apply (@enumeration_records_row Sample.uniform "INBOX" 7 1000
           {| subject := None; message_id := Some "<7@example>" |}
           (new_source_folder []) inbox_open).
  reflexivity.
Defined.



(** The empty folder is left out of the manifest, and the report's counter
    of empty folders stays at 0. *)
Example skipped_empty_folder_is_not_counted :
  Dict.keys (db_source (mem (snd (run with_empty_folder
     (options [] false false true None None))))) = ["INBOX"] /\
  skf_empty (skipped_folders (stats (mem (snd (run with_empty_folder
     (options [] false false true None None)))))) = 0%nat /\
  Dict.keys (db_source (mem (snd (run with_empty_folder
     (options [] false false false None None))))) = ["INBOX"; "Empty"].
Proof. repeat split; vm_compute; reflexivity. Qed.
